(** * SleepNice: alarm loop, record store, recording controller, gateway, dashboard

  A shallow embedding of the application logic of the repository:
  - [Types]        the records of [types.ts];
  - [JS]           host operations ([padStart], [includes],
                   [Array.prototype.sort]) and the interface [Host] of what
                   is left to the platform (collation, the calendar);
  - [DB]           [services/db.ts], the two IndexedDB object stores;
  - [AlarmClock]   [components/AlarmClock.tsx], the alarm evaluation loop;
  - [JSON]         JSON values, thrown values, [JSON.stringify];
  - [Api]          [services/api.ts], the client side of the gateway;
  - [Gateway]      the serverless function [handler];
  - [SleepTracker] the recording session controller;
  - [Dashboard]    the dashboard aggregates;
  - [UtcHost], [Examples]   a host and data for the examples;
  - [AlarmCache], [AddAlarmModal], [GatewayNames], [Session],
    [TrackerViews], [DashboardViews], [App]   the parts around these: the
                   alarm list as a cache of its store, the modal that adds
                   an alarm, the views, the application shell;
  - [Scenarios]    more data for the examples.
  The properties follow, a module of facts for each component, and the
  properties at the example data last.

  React state is modelled by explicit state passing: a component is a record
  of its [useState] cells and [useRef] cells together with the part of the
  browser it owns (object store, pending timers, media streams), and every
  handler is a function on that record.  What the environment decides (the
  wall clock, whether an IndexedDB request succeeds, what the gateway
  answers) is an explicit argument of the handler.  A handler that awaits is
  run to its end in one step, with the outcomes of what it awaits given; time
  is a millisecond clock in the state, and a callback scheduled with
  [setTimeout] runs when the clock has advanced by its delay. *)

From Stdlib Require Import ZArith List String Ascii DecimalString QArith Qround.
From Stdlib Require Import Sorted Permutation Lia.
From Stdlib Require OrderedTypeEx.
From stdpp Require Import gmap strings list fin_maps.

Open Scope string_scope.
Open Scope list_scope.

(* ------------------------------------------------------------------------- *)
(** ** types.ts *)

Module Types.

Record Alarm := mkAlarm {
  id : string;
  time : string;          (* "HH:MM" *)
  label : string;
  isActive : bool;
  days : list nat         (* 0 for Sunday, 1 for Monday, etc. *)
}.

Inductive SleepEventType := Snore | Talk | Cough | Fart | Movement | Other.

Record SleepEvent := mkSleepEvent {
  ev_time : Z;
  ev_type : SleepEventType;
  ev_description : string;
  ev_duration : Z
}.

Inductive Stage := Awake | Light | Deep | REM.

Record SleepStage := mkSleepStage {
  stage : Stage;
  startTime : Z;
  endTime : Z
}.

Record AnalysisData := mkAnalysisData {
  date : string;          (* ISO string of when the session was completed *)
  sleepScore : Z;
  summary : string;
  events : list SleepEvent;
  stages : list SleepStage;
  duration : Z            (* total duration in seconds *)
}.

(** [Omit<AnalysisData, 'date'>], what the audio analysis returns. *)
Record AnalysisResult := mkAnalysisResult {
  res_sleepScore : Z;
  res_summary : string;
  res_events : list SleepEvent;
  res_stages : list SleepStage;
  res_duration : Z
}.

(** [{ ...analysisResult, date }] *)
Definition withDate (r : AnalysisResult) (d : string) : AnalysisData :=
  {| date := d;
     sleepScore := res_sleepScore r;
     summary := res_summary r;
     events := res_events r;
     stages := res_stages r;
     duration := res_duration r |}.

End Types.

(* ------------------------------------------------------------------------- *)
(** ** Host operations *)

Module JS.

(** [String(n)] for a non-negative integer. *)
Definition String_of_nat (n : nat) : string :=
  NilZero.string_of_uint (Nat.to_uint n).

(** [n.toString()] for an integer. *)
Definition toString (n : Z) : string :=
  NilZero.string_of_int (Z.to_int n).

(** [n] characters, cycling through [pad]; [rest] is what is left of the
    current copy of [pad]. *)
Fixpoint fill (n : nat) (pad rest : string) : string :=
  match n with
  | O => ""
  | S n' =>
      match rest with
      | String c r => String c (fill n' pad r)
      | EmptyString =>
          match pad with
          | String c r => String c (fill n' pad r)
          | EmptyString => ""
          end
      end
  end.

(** [s.padStart(targetLength, padString)] *)
Definition padStart (s : string) (targetLength : nat) (padString : string) : string :=
  if (targetLength <=? String.length s)%nat || (padString =? "")
  then s
  else fill (targetLength - String.length s) padString padString +:+ s.

(** [xs.includes(x)] *)
Definition includes {A} `{EqDecision A} (xs : list A) (x : A) : bool :=
  bool_decide (x ∈ xs).

(** [xs.sort(cmp)]: the comparator answers a number, negative when its first
    argument goes first.  The sort is stable; a stable insertion sort is the
    model. *)
Fixpoint sort_insert {A} (cmp : A → A → Z) (x : A) (l : list A) : list A :=
  match l with
  | [] => [x]
  | y :: l' => if (cmp x y <=? 0)%Z then x :: y :: l' else y :: sort_insert cmp x l'
  end.

Fixpoint sort {A} (cmp : A → A → Z) (l : list A) : list A :=
  match l with
  | [] => []
  | x :: l' => sort_insert cmp x (sort cmp l')
  end.

(** A comparator is consistent on the elements that satisfy [P] when any two
    of them are comparable and the order is transitive; a list is ordered by
    it when no element comes after a later one. *)
Definition consistent {A} (cmp : A → A → Z) (P : A → Prop) : Prop :=
  (∀ a b, P a → P b → (cmp a b ≤ 0)%Z ∨ (cmp b a ≤ 0)%Z)
  ∧ (∀ a b c, P a → P b → P c → (cmp a b ≤ 0)%Z → (cmp b c ≤ 0)%Z → (cmp a c ≤ 0)%Z).

Definition ordered {A} (cmp : A → A → Z) : list A → Prop :=
  StronglySorted (λ a b, (cmp a b ≤ 0)%Z).

(** Comparison of strings by code unit, as a number. *)
Definition codeUnitCompare (a b : string) : Z :=
  match String.compare a b with
  | Lt => (-1)%Z
  | Eq => 0%Z
  | Gt => 1%Z
  end.

(** What the model leaves to the host: collation, and the calendar. *)
Class Host := {
  (** [a.localeCompare(b)] *)
  localeCompare : string → string → Z;
  (** [new Date(s).getTime()]; [None] is [NaN], an invalid date *)
  Date_getTime : string → option Z;
  (** [new Date(ms).toISOString()] *)
  toISOString : Z → string;
  (** [new Date(ms).toLocaleTimeString()] *)
  toLocaleTimeString : Z → string;
  (** [d.setDate(d.getDate() - days)] on a date at [ms]: the time stamp of
      the same local wall-clock time [days] calendar days earlier *)
  Date_minusDays : Z → Z → Z
}.

End JS.

(* ------------------------------------------------------------------------- *)
(** ** services/db.ts *)

Module DB.
Import Types JS.

(** The outcome of an IndexedDB request, decided by the browser. *)
Inductive IDBOutcome := onsuccess | onerror.

(** [store.getAll()]: the records in ascending key order. *)
Definition getAll {A} (store : gmap string A) : list A :=
  (sort (λ a b, codeUnitCompare a.1 b.1) (map_to_list store)).*2.

Section WithHost.
Context `{Host}.

(** The promise resolves with the sorted records ([Some]) or rejects. *)
Definition getAllAlarms (o : IDBOutcome) (store : gmap string Alarm)
  : option (list Alarm) :=
  match o with
  | onsuccess => Some (sort (λ a b, localeCompare (time a) (time b)) (getAll store))
  | onerror => None
  end.

(** The value of [new Date(b.date).getTime() - new Date(a.date).getTime()]
    as [sort] reads it: [NaN] counts as [+0]. *)
Definition byDateDescending (a b : AnalysisData) : Z :=
  match Date_getTime (date b), Date_getTime (date a) with
  | Some tb, Some ta => (tb - ta)%Z
  | _, _ => 0%Z
  end.

Definition getSleepHistory (o : IDBOutcome) (store : gmap string AnalysisData)
  : option (list AnalysisData) :=
  match o with
  | onsuccess => Some (sort byDateDescending (getAll store))
  | onerror => None
  end.
End WithHost.

(** [store.put(alarm)], key path [id]: add or update. *)
Definition saveAlarm (o : IDBOutcome) (alarm : Alarm) (store : gmap string Alarm)
  : option (gmap string Alarm) :=
  match o with
  | onsuccess => Some (<[id alarm := alarm]> store)
  | onerror => None
  end.

(** [store.delete(id)] *)
Definition deleteAlarmDB (o : IDBOutcome) (key : string) (store : gmap string Alarm)
  : option (gmap string Alarm) :=
  match o with
  | onsuccess => Some (delete key store)
  | onerror => None
  end.

(** [store.add(sessionData)], key path [date]: the request fails when the
    key is taken. *)
Definition addSleepSession (o : IDBOutcome) (sessionData : AnalysisData)
    (store : gmap string AnalysisData) : option (gmap string AnalysisData) :=
  match o with
  | onsuccess =>
      match store !! date sessionData with
      | None => Some (<[date sessionData := sessionData]> store)
      | Some _ => None
      end
  | onerror => None
  end.

End DB.

(* ------------------------------------------------------------------------- *)
(** ** components/AlarmClock.tsx *)

Module AlarmClock.
Import Types JS DB.

(** What [checkAlarms] reads of [new Date()]. *)
Record Date := mkDate {
  getHours : nat;
  getMinutes : nat;
  getDay : nat
}.

(** The component: its state cells, the alarms object store it writes
    through to, the callbacks it has scheduled with [setTimeout] (due time
    in milliseconds and the [alarmId] the callback closes over), and the
    millisecond clock.  The Web Audio calls ([initAudio], [playAlarmSound],
    [stopAlarmSound]) are left out: they touch nothing that the alarm logic
    reads. *)
Record State := mkState {
  alarms : list Alarm;
  ringingAlarm : option Alarm;
  ignoreForThisMinute : list string;
  store : gmap string Alarm;
  timeouts : list (Z * string);
  clock : Z
}.

Definition initial (db : gmap string Alarm) (t : Z) : State :=
  mkState [] None [] db [] t.

Definition currentTime (now : Date) : string :=
  padStart (String_of_nat (getHours now)) 2 "0" +:+ ":" +:+
  padStart (String_of_nat (getMinutes now)) 2 "0".

(** The condition of the [if] in the loop of [checkAlarms]. *)
Definition matches (now : Date) (ignore : list string) (alarm : Alarm) : bool :=
  isActive alarm
  && (time alarm =? currentTime now)
  && negb (includes ignore (id alarm))
  && ((length (days alarm) =? 0)%nat || includes (days alarm) (getDay now)).

(** [{ ...alarm, isActive: false }] *)
Definition deactivated (alarm : Alarm) : Alarm :=
  mkAlarm (id alarm) (time alarm) (label alarm) false (days alarm).

(** One call of [checkAlarms]; [now] is [new Date()] and [o] the outcome of
    the [saveAlarm] request, if one is made. *)
Definition checkAlarms (now : Date) (o : IDBOutcome) (s : State) : State :=
  match ringingAlarm s with
  | Some _ => s
  | None =>
      match find (matches now (ignoreForThisMinute s)) (alarms s) with
      | None => s
      | Some alarm =>
          if (length (days alarm) =? 0)%nat then
            let updatedAlarm := deactivated alarm in
            match saveAlarm o updatedAlarm (store s) with
            | Some store' =>
                mkState
                  (map (λ a, if id a =? id alarm then updatedAlarm else a) (alarms s))
                  (Some alarm) (ignoreForThisMinute s) store' (timeouts s) (clock s)
            | None =>
                mkState (alarms s) (Some alarm) (ignoreForThisMinute s)
                  (store s) (timeouts s) (clock s)
            end
          else
            mkState (alarms s) (Some alarm) (ignoreForThisMinute s)
              (store s) (timeouts s) (clock s)
      end
  end.

Definition stopRinging (s : State) : State :=
  match ringingAlarm s with
  | None => s
  | Some ringing =>
      let alarmId := id ringing in
      mkState (alarms s) None (ignoreForThisMinute s ++ [alarmId]) (store s)
        (timeouts s ++ [((clock s + 61000)%Z, alarmId)]) (clock s)
  end.

(** The callback given to [setTimeout] in [stopRinging]. *)
Definition unignore (alarmId : string) (prev : list string) : list string :=
  filter (λ i, i ≠ alarmId) prev.

(** [d] milliseconds pass: every pending callback that is due by then runs,
    in the order in which they were scheduled. *)
Definition elapse (d : N) (s : State) : State :=
  let c := (clock s + Z.of_N d)%Z in
  mkState (alarms s) (ringingAlarm s)
    (foldl (λ prev t, unignore t.2 prev) (ignoreForThisMinute s)
       (filter (λ t, (t.1 ≤ c)%Z) (timeouts s)))
    (store s)
    (filter (λ t, (c < t.1)%Z) (timeouts s))
    c.

Section WithHost.
Context `{Host}.

(** [addAlarm]: the arguments are the fields of the [Omit<Alarm, 'id'>];
    [Date.now()] is the clock. *)
Definition addAlarm (o : IDBOutcome) (time' label' : string) (isActive' : bool)
    (days' : list nat) (s : State) : State :=
  let newAlarm := mkAlarm (toString (clock s)) time' label' isActive' days' in
  match saveAlarm o newAlarm (store s) with
  | Some store' =>
      mkState
        (sort (λ a b, localeCompare (time a) (time b)) (alarms s ++ [newAlarm]))
        (ringingAlarm s) (ignoreForThisMinute s) store' (timeouts s) (clock s)
  | None => s
  end.

Definition loadAlarms (o : IDBOutcome) (s : State) : State :=
  match getAllAlarms o (store s) with
  | Some storedAlarms =>
      mkState storedAlarms (ringingAlarm s) (ignoreForThisMinute s)
        (store s) (timeouts s) (clock s)
  | None => s
  end.
End WithHost.

Definition toggleAlarm (o : IDBOutcome) (key : string) (s : State) : State :=
  let updatedAlarms :=
    map (λ a, if id a =? key
              then mkAlarm (id a) (time a) (label a) (negb (isActive a)) (days a)
              else a) (alarms s) in
  let store' :=
    match find (λ a, id a =? key) updatedAlarms with
    | Some alarmToSave =>
        match saveAlarm o alarmToSave (store s) with
        | Some st => st
        | None => store s
        end
    | None => store s
    end in
  mkState updatedAlarms (ringingAlarm s) (ignoreForThisMinute s) store'
    (timeouts s) (clock s).

Definition deleteAlarm (o : IDBOutcome) (key : string) (s : State) : State :=
  match deleteAlarmDB o key (store s) with
  | Some store' =>
      mkState (filter (λ a, id a ≠ key) (alarms s)) (ringingAlarm s)
        (ignoreForThisMinute s) store' (timeouts s) (clock s)
  | None => s
  end.

(** What can happen to the mounted component. *)
Inductive Event :=
| Tick (now : Date) (o : IDBOutcome)
| StopRinging
| AddAlarm (o : IDBOutcome) (time' label' : string) (isActive' : bool) (days' : list nat)
| ToggleAlarm (o : IDBOutcome) (key : string)
| DeleteAlarm (o : IDBOutcome) (key : string)
| LoadAlarms (o : IDBOutcome)
| Elapse (d : N).

Section WithHost.
Context `{Host}.

Definition step (s : State) (e : Event) : State :=
  match e with
  | Tick now o => checkAlarms now o s
  | StopRinging => stopRinging s
  | AddAlarm o t l a d => addAlarm o t l a d s
  | ToggleAlarm o k => toggleAlarm o k s
  | DeleteAlarm o k => deleteAlarm o k s
  | LoadAlarms o => loadAlarms o s
  | Elapse d => elapse d s
  end.

Definition run (es : list Event) (s : State) : State := foldl step s es.
End WithHost.

(** What holds in every state the component reaches: a pending callback is
    for an id of the suppression set, no two are for the same id, and the
    ringing alarm is not suppressed. *)
Definition invariant (s : State) : Prop :=
  (∀ t i, (t, i) ∈ timeouts s → i ∈ ignoreForThisMinute s)
  ∧ NoDup (timeouts s).*2
  ∧ (∀ a, ringingAlarm s = Some a → id a ∉ ignoreForThisMinute s).


End AlarmClock.

(* ------------------------------------------------------------------------- *)
(** ** JSON values, exceptions *)

Module JSON.
Import JS.

(** A JavaScript value as [JSON.parse] produces it.  Numbers are integers
    here; fractions play no part in what follows. *)
#[warnings="-register-all"]
Inductive json :=
| JNull
| JBool (b : bool)
| JNum (n : Z)
| JStr (s : string)
| JArr (xs : list json)
| JObj (fields : list (string * json)).

(** A thrown value: an [Error] object (with its [name] and [message]) or a
    string, which is what the promises of [services/db.ts] reject with. *)
Inductive Thrown :=
| ErrorObject (name message : string)
| ThrownString (s : string).

(** [(err as Error).message]; [None] is [undefined]. *)
Definition message (e : Thrown) : option string :=
  match e with
  | ErrorObject _ m => Some m
  | ThrownString _ => None
  end.

(** [m || fallback] for a string or [undefined]. *)
Definition orString (m : option string) (fallback : string) : string :=
  match m with
  | Some s => if s =? "" then fallback else s
  | None => fallback
  end.

(** Truthiness of a value or [undefined]. *)
Definition truthy (v : option json) : bool :=
  match v with
  | None | Some JNull => false
  | Some (JBool b) => b
  | Some (JNum n) => negb (n =? 0)%Z
  | Some (JStr s) => negb (s =? "")
  | Some (JArr _) | Some (JObj _) => true
  end.

(** [String(v)], as a template literal and [new Error(v)] convert. *)
Fixpoint ToString (v : json) : string :=
  match v with
  | JNull => "null"
  | JBool true => "true"
  | JBool false => "false"
  | JNum n => toString n
  | JStr s => s
  | JArr xs =>
      (fix join (xs : list json) : string :=
         match xs with
         | [] => ""
         | [x] => match x with JNull => "" | _ => ToString x end
         | x :: rest =>
             match x with JNull => "" | _ => ToString x end +:+ "," +:+ join rest
         end) xs
  | JObj _ => "[object Object]"
  end.

Definition ToString_opt (v : option json) : string :=
  match v with
  | Some j => ToString j
  | None => "undefined"
  end.

Fixpoint field (key : string) (fields : list (string * json)) : option json :=
  match fields with
  | [] => None
  | (k, v) :: rest => if k =? key then Some v else field key rest
  end.

(** [v.key] for the keys the code reads ([error], [type], [payload], ...),
    none of which a string, a number, a boolean or an array defines; reading
    a property of [null] throws. *)
Definition getProperty (v : json) (key : string) : Thrown + option json :=
  match v with
  | JNull =>
      inl (ErrorObject "TypeError"
             ("Cannot read properties of null (reading '" +:+ key +:+ "')"))
  | JObj fields => inr (field key fields)
  | _ => inr None
  end.

Definition quote : ascii := ascii_of_nat 34.
Definition backslash : ascii := ascii_of_nat 92.

Definition hexDigit (n : nat) : ascii :=
  if (n <? 10)%nat then ascii_of_nat (48 + n) else ascii_of_nat (87 + n).

Definition escapeChar (c : ascii) : string :=
  let n := nat_of_ascii c in
  if (n =? 34)%nat then String backslash (String quote "")
  else if (n =? 92)%nat then String backslash (String backslash "")
  else if (n =? 8)%nat then String backslash "b"
  else if (n =? 12)%nat then String backslash "f"
  else if (n =? 10)%nat then String backslash "n"
  else if (n =? 13)%nat then String backslash "r"
  else if (n =? 9)%nat then String backslash "t"
  else if (n <? 32)%nat then
    String backslash ("u00" +:+ String (hexDigit (n / 16)) (String (hexDigit (n mod 16)) ""))
  else String c "".

Fixpoint escape (s : string) : string :=
  match s with
  | EmptyString => ""
  | String c rest => escapeChar c +:+ escape rest
  end.

Definition quoted (s : string) : string :=
  String quote (escape s +:+ String quote "").

(** [JSON.stringify(v)] *)
Fixpoint JSON_stringify (v : json) : string :=
  match v with
  | JNull => "null"
  | JBool true => "true"
  | JBool false => "false"
  | JNum n => toString n
  | JStr s => quoted s
  | JArr xs =>
      "[" +:+
      (fix items (xs : list json) : string :=
         match xs with
         | [] => ""
         | [x] => JSON_stringify x
         | x :: rest => JSON_stringify x +:+ "," +:+ items rest
         end) xs +:+ "]"
  | JObj fields =>
      "{" +:+
      (fix members (fs : list (string * json)) : string :=
         match fs with
         | [] => ""
         | [(k, x)] => quoted k +:+ ":" +:+ JSON_stringify x
         | (k, x) :: rest => quoted k +:+ ":" +:+ JSON_stringify x +:+ "," +:+ members rest
         end) fields +:+ "}"
  end.

End JSON.

(* ------------------------------------------------------------------------- *)
(** ** services/api.ts *)

Module Api.
Import Types JS JSON.

(** What [response.json()] does: it rejects (the body is no JSON), or it
    resolves with the parsed body, [any] when it is read untyped (the
    [errorData] of a failure) and [typed] at the type [T] the caller of
    [postToApi<T>] casts it to. *)
Inductive Body (T : Type) :=
| rejects (syntaxError : Thrown)
| resolves (any : json) (typed : T).
Arguments rejects {T}.
Arguments resolves {T}.

Record Response (T : Type) := mkResponse {
  status : Z;
  json_ : Body T
}.
Arguments mkResponse {T}.
Arguments status {T}.
Arguments json_ {T}.

(** [response.ok] *)
Definition ok {T} (response : Response T) : bool :=
  (200 <=? status response)%Z && (status response <=? 299)%Z.

(** [postToApi]: the argument is what [fetch] settles with (it rejects, [inl],
    or resolves with a response); the result is the value the promise
    resolves with, or what it throws. *)
Definition postToApi {T} (fetched : Thrown + Response T) : Thrown + T :=
  match fetched with
  | inl e => inl e
  | inr response =>
      if negb (ok response) then
        let errorData :=
          match json_ response with
          | resolves any _ => any
          | rejects _ => JObj [("error", JStr "An unknown API error occurred.")]
          end in
        match getProperty errorData "error" with
        | inl e => inl e
        | inr v =>
            inl (ErrorObject "Error"
                   (if truthy v then ToString_opt v else "Failed to fetch data from API."))
        end
      else
        match json_ response with
        | resolves _ typed => inr typed
        | rejects e => inl e
        end
  end.

Definition analyzeSleepAudio (fetched : Thrown + Response AnalysisResult)
  : Thrown + AnalysisResult :=
  postToApi fetched.

Record Suggestions := mkSuggestions { suggestions : string }.

Definition getHealthSuggestions (fetched : Thrown + Response Suggestions)
  : Thrown + string :=
  match postToApi fetched with
  | inl e => inl e
  | inr result => inr (suggestions result)
  end.

Record Analysis := mkAnalysis { analysis : string }.

Definition getWeeklyAnalysis (fetched : Thrown + Response Analysis) : Thrown + string :=
  match postToApi fetched with
  | inl e => inl e
  | inr result => inr (analysis result)
  end.

Definition getHistoricalAnalysis (fetched : Thrown + Response Analysis) : Thrown + string :=
  match postToApi fetched with
  | inl e => inl e
  | inr result => inr (analysis result)
  end.

End Api.

(* ------------------------------------------------------------------------- *)
(** ** The gateway: the serverless function *)

Module Gateway.
Import JS JSON.

Inductive Operation :=
| analyzeSleepAudio
| getHealthSuggestions
| getWeeklyAnalysis
| getHistoricalAnalysis.

(** What the function gets from its platform: [JSON.parse], and the remote
    model.  The model is asked with a prompt built from a template and the
    payload; the text of the templates is not reproduced, the model is given
    the operation and the payload.  It answers [response.text] ([None] is
    [undefined]) or the call throws. *)
Class Runtime := {
  JSON_parse : string → Thrown + json;
  generateContent : Operation → json → Thrown + option string
}.

Module HandlerEvent.
Record t := mk {
  httpMethod : string;
  body : option string       (* string | null *)
}.
End HandlerEvent.

Module HandlerResponse.
Record t := mk {
  statusCode : Z;
  headers : list (string * string);
  body : string
}.
End HandlerResponse.

Definition typeError (what : string) : Thrown := ErrorObject "TypeError" what.

(** [payload.key] where [payload] may be [undefined]. *)
Definition read (payload : option json) (key : string) : Thrown + option json :=
  match payload with
  | None =>
      inl (typeError ("Cannot read properties of undefined (reading '" +:+ key +:+ "')"))
  | Some v => getProperty v key
  end.

Definition isNumber (v : option json) : bool :=
  match v with
  | Some (JNum _) => true
  | _ => false
  end.

Section WithRuntime.
Context `{Runtime}.

(** [response.text] of a model call, where the caller needs a string. *)
Definition textOf (answer : Thrown + option string) : Thrown + string :=
  match answer with
  | inl e => inl e
  | inr None => inl (typeError "Cannot read properties of undefined (reading 'trim')")
  | inr (Some text) => inr text
  end.

Definition handleAnalyzeSleepAudio (payload : option json) : Thrown + json :=
  match read payload "audioBase64", read payload "duration", payload with
  | inr audioBase64, inr duration, Some p =>
      if negb (truthy audioBase64) || negb (isNumber duration)
      then inl (ErrorObject "Error" "Missing audio data or duration.")
      else
        match textOf (generateContent analyzeSleepAudio p) with
        | inl e => inl e
        | inr text => JSON_parse text
        end
  | inl e, _, _ => inl e
  | _, inl e, _ => inl e
  | _, _, None => inl (typeError "Cannot destructure 'payload' as it is undefined.")
  end.

(** [{ key: text }] as [JSON.stringify] will see it: a member whose value is
    [undefined] is left out. *)
Definition textObject (key : string) (text : option string) : json :=
  match text with
  | Some t => JObj [(key, JStr t)]
  | None => JObj []
  end.

Definition handleGetHealthSuggestions (payload : option json) : Thrown + json :=
  match read payload "summary", payload with
  | inr _, Some analysis =>
      match generateContent getHealthSuggestions analysis with
      | inl e => inl e
      | inr text => inr (textObject "suggestions" text)
      end
  | inl e, _ => inl e
  | _, None => inl (typeError "Cannot read properties of undefined (reading 'summary')")
  end.

Definition isNull (v : json) : bool :=
  match v with
  | JNull => true
  | _ => false
  end.

(** Whether the summary of one entry of the weekly history can be built:
    [entry.date.split('T')] needs a string, [entry.events.reduce] an array,
    and the reducer reads [event.type]. *)
Definition weeklyEntry (entry : json) : bool :=
  match entry with
  | JObj fields =>
      match field "date" fields, field "events" fields with
      | Some (JStr _), Some (JArr evs) => forallb (λ ev, negb (isNull ev)) evs
      | _, _ => false
      end
  | _ => false
  end.

Definition handleGetWeeklyAnalysis (payload : option json) : Thrown + json :=
  match payload with
  | Some (JArr history) =>
      if forallb weeklyEntry history then
        match generateContent getWeeklyAnalysis (JArr history) with
        | inl e => inl e
        | inr text => inr (textObject "analysis" text)
        end
      else inl (typeError "Cannot read properties of undefined")
  | _ => inl (typeError "history.map is not a function")
  end.

Definition historicalEntry (entry : json) : bool :=
  match entry with
  | JObj fields =>
      match field "date" fields with
      | Some (JStr _) => true
      | _ => false
      end
  | _ => false
  end.

Definition handleGetHistoricalAnalysis (payload : option json) : Thrown + json :=
  match payload with
  | Some (JArr history) =>
      if forallb historicalEntry history then
        match generateContent getHistoricalAnalysis (JArr history) with
        | inl e => inl e
        | inr text => inr (textObject "analysis" text)
        end
      else inl (typeError "Cannot read properties of undefined")
  | _ => inl (typeError "history.map is not a function")
  end.

(** The [try] block of [handler]: the value of [result], or what is thrown. *)
Definition dispatch (event : HandlerEvent.t) : Thrown + json :=
  let text :=
    match HandlerEvent.body event with
    | Some b => if b =? "" then "{}" else b
    | None => "{}"
    end in
  match JSON_parse text with
  | inl e => inl e
  | inr body =>
      match getProperty body "type", getProperty body "payload" with
      | inr type, inr payload =>
          let unknown :=
            inl (ErrorObject "Error" ("Unknown API call type: " +:+ ToString_opt type)) in
          match type with
          | Some (JStr name) =>
              if name =? "analyzeSleepAudio" then handleAnalyzeSleepAudio payload
              else if name =? "getHealthSuggestions" then handleGetHealthSuggestions payload
              else if name =? "getWeeklyAnalysis" then handleGetWeeklyAnalysis payload
              else if name =? "getHistoricalAnalysis" then handleGetHistoricalAnalysis payload
              else unknown
          | _ => unknown
          end
      | inl e, _ => inl e
      | _, inl e => inl e
      end
  end.

Definition handler (event : HandlerEvent.t) : HandlerResponse.t :=
  if negb (HandlerEvent.httpMethod event =? "POST") then
    HandlerResponse.mk 405 [] "Method Not Allowed"
  else
    match dispatch event with
    | inr result =>
        HandlerResponse.mk 200 [("Content-Type", "application/json")]
          (JSON_stringify result)
    | inl error =>
        HandlerResponse.mk 500 []
          (JSON_stringify
             (JObj [("error", JStr (orString (message error)
                                      "An internal server error occurred."))]))
    end.

End WithRuntime.

End Gateway.

(* ------------------------------------------------------------------------- *)
(** ** The recording session controller *)

Module SleepTracker.
Import Types JS JSON DB.

Inductive TrackerStatus := idle | requesting | tracking | analyzing | results | error.

Inductive ReadyState := live | ended.

Record MediaStreamTrack := mkTrack { readyState : ReadyState }.

(** A stream got with [{ audio: true }]: its tracks are its audio tracks. *)
Record MediaStream := mkStream { getTracks : list MediaStreamTrack }.

Definition isLive (track : MediaStreamTrack) : bool :=
  match readyState track with
  | live => true
  | ended => false
  end.

(** [stream.active]: some track has not ended. *)
Definition active (stream : MediaStream) : bool := existsb isLive (getTracks stream).

Inductive RecordingState := inactive | recording | paused.

(** A recorder: its state, the stream it records, and the [debugLog] array
    that its [onerror] handler closes over. *)
Record MediaRecorder := mkRecorder {
  state : RecordingState;
  stream : nat;
  debugLog : list string
}.

Record Blob := mkBlob { size : nat }.

Record Tracker := mkTracker {
  (* the [useState] cells *)
  status : TrackerStatus;
  analysisData : option AnalysisData;
  healthSuggestions : string;
  error_ : list string;
  duration : Z;
  sessionStartTime : option Z;
  audioURL : option string;
  (* the [useRef] cells; a media object is named by its handle *)
  mediaRecorderRef : option nat;
  audioChunksRef : list Blob;
  audioStreamRef : option nat;
  timerIntervalRef : option Z;
  (* [liveAudioElRef.current.srcObject] *)
  srcObject : option nat;
  (* the browser: media objects, running intervals, object URLs, the
     sleepHistory object store *)
  streams : gmap nat MediaStream;
  recorders : gmap nat MediaRecorder;
  intervals : gset Z;
  objectURLs : gset string;
  history : gmap string AnalysisData
}.

Definition setStatus (v : TrackerStatus) (s : Tracker) : Tracker :=
  mkTracker v (analysisData s) (healthSuggestions s) (error_ s) (duration s)
    (sessionStartTime s) (audioURL s) (mediaRecorderRef s) (audioChunksRef s)
    (audioStreamRef s) (timerIntervalRef s) (srcObject s) (streams s)
    (recorders s) (intervals s) (objectURLs s) (history s).

Definition setAnalysisData (v : option AnalysisData) (s : Tracker) : Tracker :=
  mkTracker (status s) v (healthSuggestions s) (error_ s) (duration s)
    (sessionStartTime s) (audioURL s) (mediaRecorderRef s) (audioChunksRef s)
    (audioStreamRef s) (timerIntervalRef s) (srcObject s) (streams s)
    (recorders s) (intervals s) (objectURLs s) (history s).

Definition setHealthSuggestions (v : string) (s : Tracker) : Tracker :=
  mkTracker (status s) (analysisData s) v (error_ s) (duration s)
    (sessionStartTime s) (audioURL s) (mediaRecorderRef s) (audioChunksRef s)
    (audioStreamRef s) (timerIntervalRef s) (srcObject s) (streams s)
    (recorders s) (intervals s) (objectURLs s) (history s).

Definition setError (v : list string) (s : Tracker) : Tracker :=
  mkTracker (status s) (analysisData s) (healthSuggestions s) v (duration s)
    (sessionStartTime s) (audioURL s) (mediaRecorderRef s) (audioChunksRef s)
    (audioStreamRef s) (timerIntervalRef s) (srcObject s) (streams s)
    (recorders s) (intervals s) (objectURLs s) (history s).

Definition setDuration (v : Z) (s : Tracker) : Tracker :=
  mkTracker (status s) (analysisData s) (healthSuggestions s) (error_ s) v
    (sessionStartTime s) (audioURL s) (mediaRecorderRef s) (audioChunksRef s)
    (audioStreamRef s) (timerIntervalRef s) (srcObject s) (streams s)
    (recorders s) (intervals s) (objectURLs s) (history s).

Definition setSessionStartTime (v : option Z) (s : Tracker) : Tracker :=
  mkTracker (status s) (analysisData s) (healthSuggestions s) (error_ s)
    (duration s) v (audioURL s) (mediaRecorderRef s) (audioChunksRef s)
    (audioStreamRef s) (timerIntervalRef s) (srcObject s) (streams s)
    (recorders s) (intervals s) (objectURLs s) (history s).

Definition setAudioURL (v : option string) (s : Tracker) : Tracker :=
  mkTracker (status s) (analysisData s) (healthSuggestions s) (error_ s)
    (duration s) (sessionStartTime s) v (mediaRecorderRef s)
    (audioChunksRef s) (audioStreamRef s) (timerIntervalRef s) (srcObject s)
    (streams s) (recorders s) (intervals s) (objectURLs s) (history s).

Definition set_mediaRecorderRef (v : option nat) (s : Tracker) : Tracker :=
  mkTracker (status s) (analysisData s) (healthSuggestions s) (error_ s)
    (duration s) (sessionStartTime s) (audioURL s) v (audioChunksRef s)
    (audioStreamRef s) (timerIntervalRef s) (srcObject s) (streams s)
    (recorders s) (intervals s) (objectURLs s) (history s).

Definition set_audioChunksRef (v : list Blob) (s : Tracker) : Tracker :=
  mkTracker (status s) (analysisData s) (healthSuggestions s) (error_ s)
    (duration s) (sessionStartTime s) (audioURL s) (mediaRecorderRef s) v
    (audioStreamRef s) (timerIntervalRef s) (srcObject s) (streams s)
    (recorders s) (intervals s) (objectURLs s) (history s).

Definition set_audioStreamRef (v : option nat) (s : Tracker) : Tracker :=
  mkTracker (status s) (analysisData s) (healthSuggestions s) (error_ s)
    (duration s) (sessionStartTime s) (audioURL s) (mediaRecorderRef s)
    (audioChunksRef s) v (timerIntervalRef s) (srcObject s) (streams s)
    (recorders s) (intervals s) (objectURLs s) (history s).

Definition set_timerIntervalRef (v : option Z) (s : Tracker) : Tracker :=
  mkTracker (status s) (analysisData s) (healthSuggestions s) (error_ s)
    (duration s) (sessionStartTime s) (audioURL s) (mediaRecorderRef s)
    (audioChunksRef s) (audioStreamRef s) v (srcObject s) (streams s)
    (recorders s) (intervals s) (objectURLs s) (history s).

Definition set_srcObject (v : option nat) (s : Tracker) : Tracker :=
  mkTracker (status s) (analysisData s) (healthSuggestions s) (error_ s)
    (duration s) (sessionStartTime s) (audioURL s) (mediaRecorderRef s)
    (audioChunksRef s) (audioStreamRef s) (timerIntervalRef s) v (streams s)
    (recorders s) (intervals s) (objectURLs s) (history s).

Definition set_streams (v : gmap nat MediaStream) (s : Tracker) : Tracker :=
  mkTracker (status s) (analysisData s) (healthSuggestions s) (error_ s)
    (duration s) (sessionStartTime s) (audioURL s) (mediaRecorderRef s)
    (audioChunksRef s) (audioStreamRef s) (timerIntervalRef s) (srcObject s) v
    (recorders s) (intervals s) (objectURLs s) (history s).

Definition set_recorders (v : gmap nat MediaRecorder) (s : Tracker) : Tracker :=
  mkTracker (status s) (analysisData s) (healthSuggestions s) (error_ s)
    (duration s) (sessionStartTime s) (audioURL s) (mediaRecorderRef s)
    (audioChunksRef s) (audioStreamRef s) (timerIntervalRef s) (srcObject s)
    (streams s) v (intervals s) (objectURLs s) (history s).

Definition set_intervals (v : gset Z) (s : Tracker) : Tracker :=
  mkTracker (status s) (analysisData s) (healthSuggestions s) (error_ s)
    (duration s) (sessionStartTime s) (audioURL s) (mediaRecorderRef s)
    (audioChunksRef s) (audioStreamRef s) (timerIntervalRef s) (srcObject s)
    (streams s) (recorders s) v (objectURLs s) (history s).

Definition set_objectURLs (v : gset string) (s : Tracker) : Tracker :=
  mkTracker (status s) (analysisData s) (healthSuggestions s) (error_ s)
    (duration s) (sessionStartTime s) (audioURL s) (mediaRecorderRef s)
    (audioChunksRef s) (audioStreamRef s) (timerIntervalRef s) (srcObject s)
    (streams s) (recorders s) (intervals s) v (history s).

Definition set_history (v : gmap string AnalysisData) (s : Tracker) : Tracker :=
  mkTracker (status s) (analysisData s) (healthSuggestions s) (error_ s)
    (duration s) (sessionStartTime s) (audioURL s) (mediaRecorderRef s)
    (audioChunksRef s) (audioStreamRef s) (timerIntervalRef s) (srcObject s)
    (streams s) (recorders s) (intervals s) (objectURLs s) v.

Definition initial (db : gmap string AnalysisData) : Tracker :=
  mkTracker idle None "" [] 0 None None None [] None None None ∅ ∅ ∅ ∅ db.

(** [track.stop()] on every track of the stream. *)
Definition stopTracks (st : MediaStream) : MediaStream :=
  mkStream (map (λ _, mkTrack ended) (getTracks st)).

(** [recorder.stop()] *)
Definition stopRecorder (rec : MediaRecorder) : MediaRecorder :=
  mkRecorder inactive (stream rec) (debugLog rec).

Definition isRecording (rec : MediaRecorder) : bool :=
  match state rec with
  | recording => true
  | _ => false
  end.

Definition cleanup (s : Tracker) : Tracker :=
  let s1 :=
    match timerIntervalRef s with
    | Some i =>
        if (i =? 0)%Z then s
        else set_timerIntervalRef None (set_intervals (intervals s ∖ {[i]}) s)
    | None => s
    end in
  let s2 :=
    match audioStreamRef s1 with
    | Some h => set_audioStreamRef None (set_streams (alter stopTracks h (streams s1)) s1)
    | None => s1
    end in
  let s3 :=
    match mediaRecorderRef s2 with
    | Some r =>
        match recorders s2 !! r with
        | Some rec =>
            if isRecording rec
            then set_recorders (<[r := stopRecorder rec]> (recorders s2)) s2
            else s2
        | None => s2
        end
    | None => s2
    end in
  set_srcObject None (set_mediaRecorderRef None s3).

Definition resetState (s : Tracker) : Tracker :=
  let s1 :=
    match audioURL s with
    | Some url => if url =? "" then s else set_objectURLs (objectURLs s ∖ {[url]}) s
    | None => s
    end in
  setSessionStartTime None
    (setAudioURL None
       (setDuration 0
          (setError []
             (setHealthSuggestions ""
                (setAnalysisData None
                   (setStatus idle (cleanup s1))))))).

(** What the browser decides during [handleStartTracking]: whether
    [navigator.mediaDevices?.getUserMedia] exists, what [getUserMedia] settles
    with, whether [new MediaRecorder] and [start(1000)] throw, the id that
    [setInterval] returns (a positive integer), and the time. *)
Record StartEnv := mkStartEnv {
  mediaDevices : bool;
  getUserMedia : Thrown + MediaStream;
  newMediaRecorder : option Thrown;
  startRecorder : option Thrown;
  intervalId : positive;
  startedAt : Z
}.

Definition isNotAllowedError (err : Thrown) : bool :=
  match err with
  | ErrorObject name _ => name =? "NotAllowedError"
  | ThrownString _ => false
  end.

(** [`${(err as Error).message}`] *)
Definition messageText (err : Thrown) : string :=
  match message err with
  | Some m => m
  | None => "undefined"
  end.

Definition readyStateText (track : MediaStreamTrack) : string :=
  match readyState track with
  | live => "live"
  | ended => "ended"
  end.

Section WithHost.
Context `{Host}.

(** [updateError], the closure of [handleStartTracking]: the result is the
    [debugLog] array after the push, and the state. *)
Definition updateError (debugLog : list string) (msg : string) (now : Z) (s : Tracker)
  : list string * Tracker :=
  let debugLog' := debugLog ++ ["[" +:+ toLocaleTimeString now +:+ "] " +:+ msg] in
  (debugLog', cleanup (setStatus error (setError debugLog' s))).

Definition handleStartTracking (env : StartEnv) (s : Tracker) : Tracker :=
  let now := startedAt env in
  let s := setStatus requesting s in
  let debugLog := ["Starting..."] in
  if negb (mediaDevices env) then
    (updateError debugLog
       "Error: Media Devices API (getUserMedia) not supported on this browser." now s).2
  else
    let debugLog := debugLog ++ ["Requesting microphone permissions..."] in
    match getUserMedia env with
    | inl err =>
        if isNotAllowedError err then
          (updateError debugLog
             "Microphone access was denied. Please enable it in your browser settings."
             now s).2
        else
          (updateError debugLog
             ("An unknown error occurred while accessing the microphone: "
              +:+ messageText err) now s).2
    | inr granted =>
        let h := fresh (dom (streams s)) in
        let s := set_audioStreamRef (Some h) (set_streams (<[h := granted]> (streams s)) s) in
        let debugLog := debugLog ++ ["Permission granted & stream acquired."] in
        match getTracks granted with
        | [] =>
            (updateError debugLog
               "Error: The acquired audio stream is not active or has no tracks." now s).2
        | track :: _ =>
            if negb (active granted) then
              (updateError debugLog
                 "Error: The acquired audio stream is not active or has no tracks." now s).2
            else
              let debugLog := debugLog ++ ["Track state: " +:+ readyStateText track] in
              if negb (isLive track) then
                (updateError debugLog
                   ("Error: Audio track is not live. Current state: "
                    +:+ readyStateText track) now s).2
              else
                let s := set_srcObject (Some h) s in
                let debugLog :=
                  debugLog
                  ++ ["Attached stream to hidden audio element to keep it alive.";
                      "Creating MediaRecorder..."] in
                match newMediaRecorder env with
                | Some e =>
                    (updateError debugLog
                       ("Failed to create MediaRecorder: " +:+ messageText e) now s).2
                | None =>
                    let debugLog := debugLog ++ ["MediaRecorder created successfully."] in
                    let r := fresh (dom (recorders s)) in
                    let s :=
                      set_mediaRecorderRef (Some r)
                        (set_recorders
                           (<[r := mkRecorder inactive h debugLog]> (recorders s)) s) in
                    let s := set_audioChunksRef [] s in
                    match startRecorder env with
                    | Some _ =>
                        (* [start(1000)] throws outside any [try]: the handler
                           ends here *)
                        s
                    | None =>
                        let debugLog := debugLog ++ ["Recording started."] in
                        let s :=
                          set_recorders
                            (<[r := mkRecorder recording h debugLog]> (recorders s)) s in
                        let s := setSessionStartTime (Some now) (setDuration 0 s) in
                        let i := Z.pos (intervalId env) in
                        let s :=
                          set_timerIntervalRef (Some i)
                            (set_intervals ({[i]} ∪ intervals s) s) in
                        setStatus tracking s
                    end
                end
        end
    end.

(** The [onerror] handler of recorder [r]: [name] is
    [(event as any)?.error?.name]. *)
Definition onRecorderError (r : nat) (name : option string) (now : Z) (s : Tracker)
  : Tracker :=
  match recorders s !! r with
  | Some rec =>
      if isRecording rec then
        let '(debugLog', s') :=
          updateError (debugLog rec)
            ("A recording error occurred: " +:+ orString name "Unknown Recorder Error")
            now s in
        set_recorders
          (alter (λ rec', mkRecorder (state rec') (stream rec') debugLog') r (recorders s'))
          s'
      else s
  | None => s
  end.

End WithHost.

(** The [ondataavailable] handler. *)
Definition ondataavailable (data : Blob) (s : Tracker) : Tracker :=
  if (0 <? size data)%nat then set_audioChunksRef (audioChunksRef s ++ [data]) s else s.

(** The callback of the duration interval. *)
Definition onInterval (s : Tracker) : Tracker := setDuration (duration s + 1)%Z s.

(** *** Handlers that pass through several states

    A handler that updates the state more than once is a procedure: from a
    state it yields the states after each of its updates, in order. *)
Definition Proc := Tracker → list Tracker.

Definition upd (f : Tracker → Tracker) : Proc := λ s, [f s].

Definition skip : Proc := λ _, [].

Definition seq (p q : Proc) : Proc :=
  λ s, let tr := p s in tr ++ q (List.last tr s).

Notation "p >>> q" := (seq p q) (at level 65, right associativity).

(** The state a procedure ends in. *)
Definition final (p : Proc) (s : Tracker) : Tracker := List.last (p s) s.

Definition statuses (tr : list Tracker) : list TrackerStatus := map status tr.

(** What the environment decides after the user stops the session: the
    [dataavailable] event that [stop()] fires, the URL made for the blob, what
    the [FileReader] ends with ([None]: no result), the time of completion,
    what [fetch] settles with for the two gateway calls, and the outcome of
    the [add] request. *)
Record StopEnv := mkStopEnv {
  lastData : Blob;
  objectURL : string;
  readerResult : option string;
  completedAt : Z;
  analysisFetched : Thrown + Api.Response AnalysisResult;
  addOutcome : IDBOutcome;
  suggestionsFetched : Thrown + Api.Response Api.Suggestions
}.

(** The [catch] block of the analysis. *)
Definition catch (err : Thrown) : Proc :=
  upd (setError [orString (message err)
                   "Failed to analyze sleep audio. Please try again."]) >>>
  upd (setStatus error).

Section WithHost.
Context `{Host}.

(** The [try] block with its [catch]. *)
Definition tryAnalysis (env : StopEnv) : Proc :=
  match Api.analyzeSleepAudio (analysisFetched env) with
  | inl err => catch err
  | inr analysisResult =>
      let dataToSave := withDate analysisResult (toISOString (completedAt env)) in
      upd (setAnalysisData (Some dataToSave)) >>>
      (λ s,
         match addSleepSession (addOutcome env) dataToSave (history s) with
         | None => catch (ThrownString "Error adding sleep session") s
         | Some history' =>
             (upd (set_history history') >>>
              match Api.getHealthSuggestions (suggestionsFetched env) with
              | inl err => catch err
              | inr suggestions =>
                  upd (setHealthSuggestions suggestions) >>>
                  upd (setStatus results)
              end) s
         end)
  end.

(** [reader.onloadend]: [try], [catch], [finally].  Without a reader result
    the [split] before the [try] throws and nothing else runs. *)
Definition onloadend (env : StopEnv) : Proc :=
  match readerResult env with
  | Some _ => tryAnalysis env >>> upd cleanup
  | None => skip
  end.

(** The [onstop] handler that [handleStopAndAnalyze] installs. *)
Definition onstop (env : StopEnv) : Proc :=
  upd (setStatus analyzing) >>>
  (λ s,
     if (length (audioChunksRef s) =? 0)%nat then
       (upd (setError ["[Final Check] No audio chunks were recorded. The stream might have been silent or stopped unexpectedly."]) >>>
        upd (setStatus error) >>>
        upd cleanup) s
     else
       (upd (λ s, setAudioURL (Some (objectURL env))
                    (set_objectURLs ({[objectURL env]} ∪ objectURLs s) s)) >>>
        onloadend env) s).

(** [handleStopAndAnalyze]: [stop()] makes the recorder inactive and fires a
    last [dataavailable] event and then [stop]. *)
Definition handleStopAndAnalyze (env : StopEnv) : Proc :=
  λ s,
    match mediaRecorderRef s with
    | Some r =>
        match recorders s !! r with
        | Some rec =>
            if isRecording rec then
              (upd (set_recorders (<[r := stopRecorder rec]> (recorders s))) >>>
               upd (ondataavailable (lastData env)) >>>
               onstop env) s
            else []
        | None => []
        end
    | None => []
    end.

(** What can happen to the mounted controller.  The views decide which
    handler the user can reach: [IdleView] starts, [TrackingView] stops;
    [ResultsView] and [ErrorView] reset, and a reset is taken to be possible
    in every state.  A recorder fires [error] while it records and
    [dataavailable] at any time (its last one after it has been stopped); an
    interval that runs fires. *)
Inductive Event :=
| Start (env : StartEnv)
| Stop (env : StopEnv)
| Reset
| RecorderError (r : nat) (name : option string) (now : Z)
| DataAvailable (r : nat) (data : Blob)
| IntervalTick (i : Z).

Definition step (s : Tracker) (e : Event) : Tracker :=
  match e with
  | Start env =>
      match status s with
      | idle => handleStartTracking env s
      | _ => s
      end
  | Stop env =>
      match status s with
      | tracking => final (handleStopAndAnalyze env) s
      | _ => s
      end
  | Reset => resetState s
  | RecorderError r name now => onRecorderError r name now s
  | DataAvailable r data =>
      match recorders s !! r with
      | Some _ => ondataavailable data s
      | None => s
      end
  | IntervalTick i =>
      if bool_decide (i ∈ intervals s) then onInterval s else s
  end.

Definition run (es : list Event) (s : Tracker) : Tracker := foldl step s es.

End WithHost.

(** A procedure ends in error: its last state is [error] with one message
    that is not empty, and it passes through no status other than the one it
    starts in and [error]. *)
Definition endsInError (p : Proc) (s : Tracker) : Prop :=
  status (final p s) = error
  ∧ (∃ msg, error_ (final p s) = [msg] ∧ msg ≠ "")
  ∧ (∀ st, st ∈ statuses (p s) → st = status s ∨ st = error).

(** *** Resources

    The interval, the stream and the recorder that the refs name, and the
    intervals, streams and recorders that the browser holds. *)
Definition resources (s : Tracker)
  : option Z * gset Z * option nat * gmap nat MediaStream
    * option nat * gmap nat MediaRecorder :=
  (timerIntervalRef s, intervals s, audioStreamRef s, streams s,
   mediaRecorderRef s, recorders s).

Definition allEnded (st : MediaStream) : Prop :=
  Forall (λ track, readyState track = ended) (getTracks st).

(** Every running interval, every stream with a live track and every
    recorder that is not inactive is the one a ref names; no recorder is
    paused; an interval id is not zero. *)
Definition tracked (s : Tracker) : Prop :=
  match timerIntervalRef s with
  | Some i => i ≠ 0%Z ∧ intervals s = {[i]}
  | None => intervals s = ∅
  end
  ∧ (∀ h st, streams s !! h = Some st → audioStreamRef s ≠ Some h → allEnded st)
  ∧ (∀ r rec, recorders s !! r = Some rec →
       state rec ≠ paused ∧ (mediaRecorderRef s ≠ Some r → state rec = inactive)).

(** What holds in every state the controller reaches: its resources are
    tracked, and in [idle] it holds none. *)
Definition invariant (s : Tracker) : Prop :=
  tracked s
  ∧ (status s = idle →
     timerIntervalRef s = None ∧ audioStreamRef s = None ∧ mediaRecorderRef s = None).

(** No resource is held: no ref names an interval, a stream or a recorder, no
    interval runs, every track of every stream has ended, every recorder is
    inactive. *)
Definition released (s : Tracker) : Prop :=
  timerIntervalRef s = None ∧ intervals s = ∅
  ∧ audioStreamRef s = None ∧ (∀ h st, streams s !! h = Some st → allEnded st)
  ∧ mediaRecorderRef s = None
  ∧ (∀ r rec, recorders s !! r = Some rec → state rec = inactive).

End SleepTracker.

(* ------------------------------------------------------------------------- *)
(** ** The dashboard aggregates *)

Module Dashboard.
Import Types JS.

Inductive TimeRange := week | month | year.

Section WithHost.
Context `{Host}.

(** [filteredData]; [now] is the time stamp of [new Date()].  A comparison
    with an invalid date is false. *)
Definition filteredData (now : Z) (history : list AnalysisData) (timeRange : TimeRange)
  : list AnalysisData :=
  let days :=
    match timeRange with
    | week => 7
    | month => 30
    | year => 365
    end%Z in
  let cutoffDate := Date_minusDays now days in
  List.filter
    (λ item,
       match Date_getTime (date item) with
       | Some t => (cutoffDate <=? t)%Z
       | None => false
       end)
    history.

End WithHost.

(** [Math.round]: the nearest integer, a half going up. *)
Definition Math_round (x : Q) : Z := Qfloor (x + (1 # 2)).

(** [DashboardContent] is rendered for a list that is not empty; the
    quotients are exact. *)
Definition avgScore (data : list AnalysisData) : Z :=
  Math_round
    (inject_Z (fold_left (λ acc item, acc + sleepScore item)%Z data 0%Z)
     / inject_Z (Z.of_nat (length data))).

Definition avgDuration (data : list AnalysisData) : Q :=
  inject_Z (fold_left (λ acc item, acc + duration item)%Z data 0%Z)
  / inject_Z (Z.of_nat (length data)).

(** The arithmetic mean of a list of integers, for comparison. *)
Definition mean (xs : list Z) : Q :=
  inject_Z (foldr Z.add 0%Z xs) / inject_Z (Z.of_nat (length xs)).

End Dashboard.

(* ------------------------------------------------------------------------- *)
(** ** A host for the examples

    Code-unit collation and the UTC calendar: dates are read and written
    in the form of [toISOString], [YYYY-MM-DDTHH:mm:ss.sssZ]. *)

Module UtcHost.
Import JS.

Definition number (s : string) : option Z :=
  match NilZero.uint_of_string s with
  | Some d => Some (Z.of_uint d)
  | None => None
  end.

(** Days since 1970-01-01 of a date of the proleptic Gregorian calendar. *)
Definition daysFromCivil (y m d : Z) : Z :=
  let y' := if (m <=? 2)%Z then (y - 1)%Z else y in
  let era := (y' / 400)%Z in
  let yoe := (y' - era * 400)%Z in
  let mp := if (2 <? m)%Z then (m - 3)%Z else (m + 9)%Z in
  let doy := ((153 * mp + 2) / 5 + d - 1)%Z in
  let doe := (yoe * 365 + yoe / 4 - yoe / 100 + doy)%Z in
  (era * 146097 + doe - 719468)%Z.

(** Year, month and day of a number of days since 1970-01-01. *)
Definition civilFromDays (z : Z) : Z * Z * Z :=
  let z := (z + 719468)%Z in
  let era := (z / 146097)%Z in
  let doe := (z - era * 146097)%Z in
  let yoe := ((doe - doe / 1460 + doe / 36524 - doe / 146096) / 365)%Z in
  let doy := (doe - (365 * yoe + yoe / 4 - yoe / 100))%Z in
  let mp := ((5 * doy + 2) / 153)%Z in
  let d := (doy - (153 * mp + 2) / 5 + 1)%Z in
  let m := if (mp <? 10)%Z then (mp + 3)%Z else (mp - 9)%Z in
  let y := (yoe + era * 400)%Z in
  (if (m <=? 2)%Z then (y + 1)%Z else y, m, d).

Definition charAt (i : nat) (s : string) : string := String.substring i 1 s.

Definition parseISO (s : string) : option Z :=
  if negb ((String.length s =? 24)%nat
           && (charAt 4 s =? "-") && (charAt 7 s =? "-") && (charAt 10 s =? "T")
           && (charAt 13 s =? ":") && (charAt 16 s =? ":") && (charAt 19 s =? ".")
           && (charAt 23 s =? "Z"))
  then None
  else
    match number (String.substring 0 4 s), number (String.substring 5 2 s),
          number (String.substring 8 2 s), number (String.substring 11 2 s),
          number (String.substring 14 2 s), number (String.substring 17 2 s),
          number (String.substring 20 3 s) with
    | Some y, Some m, Some d, Some hh, Some mm, Some ss, Some ms =>
        if ((1 <=? m) && (m <=? 12) && (1 <=? d) && (d <=? 31)
            && (hh <? 24) && (mm <? 60) && (ss <? 60))%Z
        then Some ((((daysFromCivil y m d * 24 + hh) * 60 + mm) * 60 + ss) * 1000 + ms)%Z
        else None
    | _, _, _, _, _, _, _ => None
    end.

Definition digits (width : nat) (n : Z) : string :=
  padStart (toString n) width "0".

Definition timeOfDay (ms : Z) : string :=
  let s := (ms / 1000)%Z in
  digits 2 ((s / 3600) mod 24) +:+ ":" +:+ digits 2 ((s / 60) mod 60) +:+ ":"
  +:+ digits 2 (s mod 60).

Definition formatISO (ms : Z) : string :=
  let '(y, m, d) := civilFromDays (ms / 86400000) in
  digits 4 y +:+ "-" +:+ digits 2 m +:+ "-" +:+ digits 2 d +:+ "T"
  +:+ timeOfDay ms +:+ "." +:+ digits 3 (ms mod 1000) +:+ "Z".

#[export] Instance utcHost : Host := {|
  localeCompare := codeUnitCompare;
  Date_getTime := parseISO;
  toISOString := formatISO;
  toLocaleTimeString := timeOfDay;
  Date_minusDays := λ ms days, (ms - days * 86400000)%Z
|}.

End UtcHost.

(* ------------------------------------------------------------------------- *)
(** ** Example data *)

Module Examples.
Import Types JS JSON.

(** A platform for the gateway that parses the empty object only and whose
    model is out of reach. *)
#[export] Instance runtime : Gateway.Runtime := {|
  Gateway.JSON_parse text :=
    if text =? "{}" then inr (JObj [])
    else inl (ErrorObject "SyntaxError" "Unexpected token");
  Gateway.generateContent _ _ := inl (ErrorObject "Error" "fetch failed")
|}.

(** Two alarms for 07:00: one switched off, one for the working days; and a
    one-shot alarm for the same minute. *)
Definition switchedOff : Alarm := mkAlarm "1714000000000" "07:00" "Gym" false [1; 3].

Definition workingDays : Alarm :=
  mkAlarm "1714000000001" "07:00" "Wake Up" true [1; 2; 3; 4; 5].

Definition oneShot : Alarm := mkAlarm "1714000000002" "07:00" "Flight" true [].

(** Monday, 07:00. *)
Definition monday0700 : AlarmClock.Date := AlarmClock.mkDate 7 0 1.

Definition weekdayState : AlarmClock.State :=
  AlarmClock.mkState [switchedOff; workingDays] None []
    (<[id workingDays := workingDays]> (<[id switchedOff := switchedOff]> ∅)) [] 1714374000000.

Definition oneShotState : AlarmClock.State :=
  AlarmClock.mkState [oneShot] None [] (<[id oneShot := oneShot]> ∅) [] 1714374000000.




(** Sessions of three nights, and of two. *)
Definition night (completed : string) (score seconds : Z) : AnalysisData :=
  mkAnalysisData completed score "" [] [] seconds.

Definition threeNights : list AnalysisData :=
  [night "2024-05-03T06:30:00.000Z" 70 25200;
   night "2024-05-02T06:30:00.000Z" 80 28800;
   night "2024-05-01T06:30:00.000Z" 90 21600].

Definition twoNights : list AnalysisData :=
  [night "2024-05-02T06:30:00.000Z" 70 25200;
   night "2024-05-01T06:30:00.000Z" 75 28800].

(** 2024-05-03T08:00:00.000Z *)
Definition dashboardOpened : Z := 1714723200000.

Definition alarmsStore : gmap string Alarm :=
  <[id oneShot := oneShot]> (<[id switchedOff := mkAlarm (id switchedOff) "06:15" "Gym" false [1; 3]]> ∅).

Definition historyStore : gmap string AnalysisData :=
  <["2024-05-01T06:30:00.000Z" := night "2024-05-01T06:30:00.000Z" 90 21600]>
    (<["2024-05-02T06:30:00.000Z" := night "2024-05-02T06:30:00.000Z" 80 28800]> ∅).

(** A session that records a live microphone and has buffered no chunk. *)
Definition startEnv : SleepTracker.StartEnv :=
  SleepTracker.mkStartEnv true
    (inr (SleepTracker.mkStream [SleepTracker.mkTrack SleepTracker.live]))
    None None 1%positive 1714514400000.

Definition recordingSilence : SleepTracker.Tracker :=
  SleepTracker.handleStartTracking (H := UtcHost.utcHost) startEnv
    (SleepTracker.initial ∅).

Definition analysisResult : AnalysisResult :=
  mkAnalysisResult 80 "A restful night." [] [mkSleepStage Light 0 25200] 25200.

(** The user stops; the last [dataavailable] event carries no data; the
    gateway would answer both calls. *)
Definition stopEnv : SleepTracker.StopEnv :=
  SleepTracker.mkStopEnv (SleepTracker.mkBlob 0) "blob:sleep-1" (Some "data:audio/webm;base64,AAAA")
    1714539600000
    (inr (Api.mkResponse 200 (Api.resolves JNull analysisResult)))
    DB.onsuccess
    (inr (Api.mkResponse 200
            (Api.resolves JNull (Api.mkSuggestions "<p>Keep it up.</p>")))).

(** The gateway answers the audio analysis with status 500. *)
Definition gatewayDown : SleepTracker.StopEnv :=
  SleepTracker.mkStopEnv (SleepTracker.mkBlob 2048) "blob:sleep-2"
    (Some "data:audio/webm;base64,AAAA") 1714539600000
    (inr (Api.mkResponse 500
            (Api.resolves (JObj [("error", JStr "Missing audio data or duration.")])
               analysisResult)))
    DB.onsuccess
    (inr (Api.mkResponse 200
            (Api.resolves JNull (Api.mkSuggestions "<p>Keep it up.</p>")))).

Definition analyzingSession : SleepTracker.Tracker :=
  SleepTracker.setStatus SleepTracker.analyzing recordingSilence.

End Examples.

(* ------------------------------------------------------------------------- *)
(** ** The alarm list as a cache of the alarms store *)

Module AlarmCache.
Import Types JS DB AlarmClock.

(** The key path of the alarms store is [id]: a record is stored under its
    own id. *)
Definition keyed (store : gmap string Alarm) : Prop :=
  ∀ k a, store !! k = Some a → id a = k.

(** The alarm list is a faithful cache of the store: no two alarms of the
    list share an id, and every alarm of the list is the record that the
    store holds under its id. *)
Definition coherent (s : State) : Prop :=
  keyed (store s)
  ∧ NoDup (id <$> alarms s)
  ∧ (∀ a, a ∈ alarms s → store s !! id a = Some a).

(** [{ ...a, isActive: !a.isActive }] *)
Definition flipped (a : Alarm) : Alarm :=
  mkAlarm (id a) (time a) (label a) (negb (isActive a)) (days a).

(** The events that keep the cache faithful: an alarm is added with an id
    that no alarm of the list has, and a toggle whose [put] fails is for an
    id that no alarm of the list has. *)
Definition safe (s : State) (e : Event) : Prop :=
  match e with
  | AddAlarm onsuccess _ _ _ _ => toString (clock s) ∉ id <$> alarms s
  | ToggleAlarm onerror key => key ∉ id <$> alarms s
  | _ => True
  end.

End AlarmCache.

(* ------------------------------------------------------------------------- *)
(** ** components/AlarmClock.tsx: [AddAlarmModal], [AlarmCard] *)

Module AddAlarmModal.
Import JS DB.

(** The state cells of the modal.  The component stays mounted while the
    modal is closed: the cells keep their values from one opening to the
    next. *)
Record Modal := mkModal {
  time : string;
  label : string;
  days : list nat
}.

Definition initial : Modal := mkModal "07:00" "Wake Up" [].

(** The updater that [toggleDay] gives to [setDays]. *)
Definition toggleDay (dayIndex : nat) (prev : list nat) : list nat :=
  if includes prev dayIndex then filter (λ d, d ≠ dayIndex) prev
  else prev ++ [dayIndex].

(** What the user can do in the open modal: edit the two inputs, press one
    of the seven day buttons. *)
Inductive Event :=
| SetTime (value : string)
| SetLabel (value : string)
| ToggleDay (dayIndex : nat).

Definition step (m : Modal) (e : Event) : Modal :=
  match e with
  | SetTime value => mkModal value (label m) (days m)
  | SetLabel value => mkModal (time m) value (days m)
  | ToggleDay dayIndex => mkModal (time m) (label m) (toggleDay dayIndex (days m))
  end.

Definition run (es : list Event) (m : Modal) : Modal := foldl step m es.

(** How often the button of a day is pressed in a sequence of events. *)
Fixpoint presses (dayIndex : nat) (es : list Event) : nat :=
  match es with
  | [] => 0
  | ToggleDay d :: es' => (if decide (d = dayIndex) then 1 else 0) + presses dayIndex es'
  | _ :: es' => presses dayIndex es'
  end.

End AddAlarmModal.

(* ------------------------------------------------------------------------- *)
(** ** The gateway: the names of the operations *)

Module GatewayNames.
Import JS JSON Gateway.

(** The [case] labels of the [switch] of [handler]. *)
Definition operationName (op : Operation) : string :=
  match op with
  | analyzeSleepAudio => "analyzeSleepAudio"
  | getHealthSuggestions => "getHealthSuggestions"
  | getWeeklyAnalysis => "getWeeklyAnalysis"
  | getHistoricalAnalysis => "getHistoricalAnalysis"
  end.

(** [event.body || '{}'] *)
Definition bodyText (body : option string) : string :=
  match body with
  | Some b => if b =? "" then "{}" else b
  | None => "{}"
  end.

End GatewayNames.

(* ------------------------------------------------------------------------- *)
(** ** The recording session controller: what the browser allows *)

Module Session.
Import Types JS JSON DB SleepTracker.

(** Everything that [handleStartTracking] needs goes well: the browser has
    [getUserMedia], the user grants a stream whose first track is live, and
    neither [new MediaRecorder] nor [start(1000)] throws. *)
Definition starts (env : StartEnv) : Prop :=
  mediaDevices env = true
  ∧ (∃ granted track tracks,
       getUserMedia env = inr granted ∧ getTracks granted = track :: tracks
       ∧ readyState track = live)
  ∧ newMediaRecorder env = None
  ∧ startRecorder env = None.

(** [start(1000)] throws after everything before it has gone well. *)
Definition startThrows (env : StartEnv) : Prop :=
  mediaDevices env = true
  ∧ (∃ granted track tracks,
       getUserMedia env = inr granted ∧ getTracks granted = track :: tracks
       ∧ readyState track = live)
  ∧ newMediaRecorder env = None
  ∧ (∃ e, startRecorder env = Some e).

(** [URL.createObjectURL] answers a URL, which is not the empty string. *)
Definition namesBlob (e : Event) : Prop :=
  match e with
  | Stop env => objectURL env ≠ ""
  | _ => True
  end.

(** The object URLs that are alive: none, or the one that [audioURL] holds,
    which is the case in [analyzing], [results] and [error] only. *)
Definition urlsTracked (s : Tracker) : Prop :=
  match audioURL s with
  | Some url =>
      url ≠ "" ∧ objectURLs s = {[url]}
      ∧ status s ≠ idle ∧ status s ≠ requesting ∧ status s ≠ tracking
  | None => objectURLs s = ∅
  end.

End Session.

(* ------------------------------------------------------------------------- *)
(** ** The views of the recording session controller *)

Module TrackerViews.
Import Types JS SleepTracker.

(** [formatDuration], for a whole number of seconds: [Math.floor] of a
    quotient is the quotient rounded down, and [%] is the remainder with the
    sign of the dividend. *)
Definition formatDuration (totalSeconds : Z) : string :=
  let hours := (totalSeconds / 3600)%Z in
  let minutes := (Z.rem totalSeconds 3600 / 60)%Z in
  let seconds := Z.rem totalSeconds 60 in
  padStart (toString hours) 2 "0" +:+ ":" +:+ padStart (toString minutes) 2 "0"
  +:+ ":" +:+ padStart (toString seconds) 2 "0".

(** [isCurrentlyOn], what the effect on [status] gives to
    [onTrackingChange]. *)
Definition isCurrentlyOn (status : TrackerStatus) : bool :=
  match status with
  | tracking | analyzing | requesting => true
  | _ => false
  end.

End TrackerViews.

(* ------------------------------------------------------------------------- *)
(** ** components/Dashboard.tsx: the chart, the feedback cards *)

Module DashboardViews.
Import Types JS JSON Dashboard.

(** An entry of the [data] of a [Chart]. *)
Record Bar := mkBar {
  value : Z;
  label : string
}.

(** [data.map(d => ({ value: d.sleepScore, label: d.date }))] *)
Definition scoreBars (data : list AnalysisData) : list Bar :=
  map (λ d, mkBar (sleepScore d) (date d)) data.

(** The bars of a [Chart], from left to right:
    [data.slice(0, 30).reverse()]. *)
Definition Chart (data : list Bar) : list Bar := rev (firstn 30 data).

(** The state cells of [WeeklyAnalysis] and of [MonthlyAnalysis]. *)
Record Feedback := mkFeedback {
  analysis : string;
  isLoading : bool
}.

Definition noFeedback : Feedback := mkFeedback "" false.







End DashboardViews.

(* ------------------------------------------------------------------------- *)
(** ** App.tsx *)

Module App.
Import Types JS SleepTracker TrackerViews.

Inductive View := alarms | dashboard | sleep.

#[export] Instance View_eq_dec : EqDecision View.
Proof. solve_decision. Defined.

(** The state cells of [App], the mounted recording controller if the active
    view is its view, and the history store, which outlives the
    controller. *)
Record State := mkState {
  activeView : View;
  isTracking : bool;
  mounted : option Tracker;
  db : gmap string AnalysisData
}.

Definition initial (db : gmap string AnalysisData) : State :=
  mkState alarms false None db.

(** What can happen: a button of [BottomNav] is pressed, or something
    happens to the mounted controller. *)
Inductive Event :=
| Navigate (view : View)
| Controller (e : SleepTracker.Event).

Section WithHost.
Context `{Host}.

(** [BottomNav] is rendered only while [isTracking] is false.  A change of
    [activeView] changes the key of the page: the old view is unmounted (the
    controller runs [cleanup] and is gone), the new one is mounted, and the
    effect of a mounted controller reports [isCurrentlyOn] for [idle].  After
    an event of the controller its effect reports the new status. *)
Definition step (s : State) (e : Event) : State :=
  match e with
  | Navigate view =>
      if isTracking s then s
      else if decide (view = activeView s) then s
      else
        let db' :=
          match mounted s with
          | Some t => history t
          | None => db s
          end in
        match view with
        | sleep => mkState sleep (isCurrentlyOn idle) (Some (SleepTracker.initial db')) db'
        | _ => mkState view (isTracking s) None db'
        end
  | Controller e =>
      match mounted s with
      | Some t =>
          let t' := SleepTracker.step t e in
          mkState (activeView s) (isCurrentlyOn (status t')) (Some t') (db s)
      | None => s
      end
  end.

Definition run (es : list Event) (s : State) : State := foldl step s es.

End WithHost.

(** What holds of a mounted controller in every state it reaches: the
    invariant of its resources, and while its status is none of those that
    [isCurrentlyOn] names, it holds no resource. *)
Definition atRest (t : Tracker) : Prop :=
  SleepTracker.invariant t ∧ (isCurrentlyOn (status t) = false → released t).

End App.

(* ------------------------------------------------------------------------- *)
(** ** More example data *)

Module Scenarios.
Import Types JS JSON.

(** The one-shot alarm and the alarm for the working days, both for 07:00,
    in the list and in the store. *)
Definition twoAlarmsState : AlarmClock.State :=
  AlarmClock.mkState [Examples.oneShot; Examples.workingDays] None []
    (<[id Examples.workingDays := Examples.workingDays]>
       (<[id Examples.oneShot := Examples.oneShot]> ∅)) [] 1714374000000.

(** A request for an audio analysis that carries a duration and no audio,
    and a request for health suggestions. *)
Definition requestWithoutAudio : json :=
  JObj [("type", JStr "analyzeSleepAudio"); ("payload", JObj [("duration", JNum 25200)])].

Definition suggestionsRequest : json :=
  JObj [("type", JStr "getHealthSuggestions");
        ("payload", JObj [("summary", JStr "A restful night."); ("sleepScore", JNum 80);
                          ("duration", JNum 25200)])].

(** A platform for the gateway that parses the texts of the two requests and
    whose model answers. *)
#[export] Instance answering : Gateway.Runtime := {|
  Gateway.JSON_parse text :=
    if text =? JSON_stringify requestWithoutAudio then inr requestWithoutAudio
    else if text =? JSON_stringify suggestionsRequest then inr suggestionsRequest
    else inl (ErrorObject "SyntaxError" "Unexpected token");
  Gateway.generateContent _ _ := inr (Some "<p>Keep it up.</p>")
|}.

(** A browser without [getUserMedia]; and one in which [start] throws. *)
Definition noMediaDevices : SleepTracker.StartEnv :=
  SleepTracker.mkStartEnv false
    (inl (ErrorObject "TypeError" "navigator.mediaDevices is undefined"))
    None None 1%positive 1714514400000.

Definition startThrowing : SleepTracker.StartEnv :=
  SleepTracker.mkStartEnv true
    (inr (SleepTracker.mkStream [SleepTracker.mkTrack SleepTracker.live]))
    None (Some (ErrorObject "NotSupportedError" "The operation is not supported."))
    1%positive 1714514400000.

(** A session is started and one chunk of audio arrives. *)
Definition oneChunk : list SleepTracker.Event :=
  [SleepTracker.Start Examples.startEnv;
   SleepTracker.DataAvailable 0 (SleepTracker.mkBlob 2048)].

Definition recordingOneChunk : SleepTracker.Tracker :=
  SleepTracker.run (H := UtcHost.utcHost) oneChunk (SleepTracker.initial ∅).

(** The response of the gateway in [Examples.gatewayDown]. *)
Definition missingAudio : Api.Response AnalysisResult :=
  Api.mkResponse 500
    (Api.resolves (JObj [("error", JStr "Missing audio data or duration.")])
       Examples.analysisResult).

End Scenarios.

(* ========================================================================= *)
(** * Properties *)

(** ** [sort] *)

Module SortFacts.
Import JS.

Section Sort.
Context {A : Type} (cmp : A → A → Z).

Lemma sort_insert_perm (x : A) (l : list A) : sort_insert cmp x l ≡ₚ x :: l.
Proof.
  induction l as [|y l IH]; simpl; [done|].
  destruct (cmp x y <=? 0)%Z; [done|].
  rewrite IH. apply Permutation_swap.
Qed.

Lemma sort_perm (l : list A) : sort cmp l ≡ₚ l.
Proof.
  induction l as [|x l IH]; simpl; [done|].
  by rewrite sort_insert_perm, IH.
Qed.

Lemma sort_length (l : list A) : length (sort cmp l) = length l.
Proof. apply Permutation_length, sort_perm. Qed.

Lemma sort_elem_of (x : A) (l : list A) : x ∈ sort cmp l ↔ x ∈ l.
Proof. by rewrite sort_perm. Qed.

Lemma sort_insert_ordered (P : A → Prop) (x : A) (l : list A) :
  consistent cmp P → P x → Forall P l → ordered cmp l →
  ordered cmp (sort_insert cmp x l).
Proof.
  intros [Htotal Htrans] Hx HP Hl. unfold ordered in *.
  induction Hl as [|y l Hl IH Hy]; simpl.
  - repeat constructor.
  - inversion HP as [|? ? HPy HPl]; subst.
    destruct (Z.leb_spec (cmp x y) 0) as [Hxy|Hxy].
    + constructor; [by constructor|].
      constructor; [done|].
      rewrite Forall_forall in Hy, HPl |- *. intros z Hz.
      apply (Htrans x y z); auto.
    + constructor; [by apply IH|].
      rewrite (sort_insert_perm x l). constructor; [|done].
      destruct (Htotal x y Hx HPy); [lia|done].
Qed.

Lemma sort_ordered (P : A → Prop) (l : list A) :
  consistent cmp P → Forall P l → ordered cmp (sort cmp l).
Proof.
  intros Hc HP. induction HP as [|x l Hx HP IH]; simpl.
  - constructor.
  - apply (sort_insert_ordered P); auto.
    by rewrite sort_perm.
Qed.

End Sort.

End SortFacts.

(* ------------------------------------------------------------------------- *)
(** ** The alarm evaluation loop *)

Module AlarmClockFacts.
Import Types JS DB AlarmClock SortFacts.

Lemma includes_true {A} `{EqDecision A} (xs : list A) (x : A) :
  includes xs x = true ↔ x ∈ xs.
Proof. unfold includes. apply bool_decide_eq_true. Qed.

Lemma includes_false {A} `{EqDecision A} (xs : list A) (x : A) :
  includes xs x = false ↔ x ∉ xs.
Proof. unfold includes. apply bool_decide_eq_false. Qed.

(** With no alarm ringing, the alarm that [checkAlarms] makes ring is the
    first of the list that satisfies the condition of the loop. *)
Lemma ringingAlarm_checkAlarms now o s :
  ringingAlarm s = None →
  ringingAlarm (checkAlarms now o s) = find (matches now (ignoreForThisMinute s)) (alarms s).
Proof.
  intros Hnone. unfold checkAlarms. rewrite Hnone.
  destruct (find _ (alarms s)) as [alarm|] eqn:Hfind; [|done].
  destruct (length (days alarm) =? 0)%nat; [|done].
  by destruct (saveAlarm o _ _).
Qed.

(** For a repeating alarm the condition of the loop says: active, set for the
    current minute, not suppressed, and set for the current weekday. *)
Lemma matches_repeating now ignore alarm :
  days alarm ≠ [] →
  (matches now ignore alarm = true ↔
     isActive alarm = true ∧ time alarm = currentTime now
     ∧ (id alarm ∉ ignore) ∧ getDay now ∈ days alarm).
Proof.
  intros Hdays. unfold matches.
  assert ((length (days alarm) =? 0)%nat = false) as ->.
  { apply Nat.eqb_neq. by destruct (days alarm). }
  rewrite orb_false_l, !andb_true_iff, negb_true_iff.
  rewrite includes_false, includes_true, String.eqb_eq. tauto.
Qed.

Lemma find_app_none {A} (f : A → bool) (l1 l2 : list A) :
  Forall (λ a, f a = false) l1 → find f (l1 ++ l2) = find f l2.
Proof.
  induction 1 as [|a l1 Ha _ IH]; simpl; [done|]. by rewrite Ha.
Qed.

Lemma find_first {A} (f : A → bool) (l : list A) :
  Exists (λ a, f a = true) l →
  ∃ l1 a l2, l = l1 ++ a :: l2 ∧ Forall (λ b, f b = false) l1 ∧ f a = true
             ∧ ∀ rest, find f (l ++ rest) = Some a.
Proof.
  induction l as [|b l IH]; intros Hex; [by inversion Hex|].
  destruct (f b) eqn:Hb.
  - exists [], b, l. simpl. rewrite Hb. by repeat split.
  - inversion Hex as [? ? Hb'|? ? Hex']; subst; [congruence|].
    destruct (IH Hex') as (l1 & a & l2 & -> & Hl1 & Ha & Hfind).
    exists (b :: l1), a, l2. simpl. rewrite Hb. repeat split; auto.
Qed.

(** C1.  A tick of the loop with no alarm ringing, and an alarm of the list
    with a day-set that is not empty.  Where no alarm before it in the list
    satisfies the condition of the loop, the tick makes it the ringing alarm
    if and only if it is active, its time string is the clock time as
    zero-padded HH:MM, its id is not in the suppression set and the weekday is
    in its day-set.  Where some alarm before it satisfies the condition, the
    first such alarm in list order is the one that rings. *)
Theorem checkAlarms_rings_first_match now o s before alarm after :
  ringingAlarm s = None →
  alarms s = before ++ alarm :: after →
  days alarm ≠ [] →
  (Forall (λ a, matches now (ignoreForThisMinute s) a = false) before →
   (ringingAlarm (checkAlarms now o s) = Some alarm ↔
      isActive alarm = true ∧ time alarm = currentTime now
      ∧ (id alarm ∉ ignoreForThisMinute s) ∧ getDay now ∈ days alarm))
  ∧ (Exists (λ a, matches now (ignoreForThisMinute s) a = true) before →
     ∃ earlier first later,
       before = earlier ++ first :: later
       ∧ Forall (λ a, matches now (ignoreForThisMinute s) a = false) earlier
       ∧ matches now (ignoreForThisMinute s) first = true
       ∧ ringingAlarm (checkAlarms now o s) = Some first).
Proof.
  intros Hnone Halarms Hdays.
  rewrite (ringingAlarm_checkAlarms now o s Hnone), Halarms. split.
  - intros Hbefore. rewrite (find_app_none _ _ _ Hbefore). simpl.
    rewrite <- (matches_repeating now _ alarm Hdays).
    destruct (matches now (ignoreForThisMinute s) alarm) eqn:Hm; [done|].
    split; [|done]. intros Hfind.
    apply find_some in Hfind as [_ Hm']. congruence.
  - intros Hex.
    destruct (find_first _ _ Hex) as (l1 & a & l2 & -> & Hl1 & Ha & Hfind).
    exists l1, a, l2. repeat split; auto.
Qed.

(** The clock time is five characters, two digits each side of the colon,
    for every hour and minute of the day. *)
Lemma currentTime_HHMM h m d :
  h < 24 → m < 60 → String.length (currentTime (mkDate h m d)) = 5.
Proof.
  intros Hh Hm.
  assert (forallb (λ h, forallb (λ m,
            (String.length (currentTime (mkDate h m 0)) =? 5)%nat) (seq 0 60))
          (seq 0 24) = true) as Hall by (vm_compute; reflexivity).
  rewrite forallb_forall in Hall.
  specialize (Hall h ltac:(apply in_seq; lia)).
  rewrite forallb_forall in Hall.
  specialize (Hall m ltac:(apply in_seq; lia)).
  by apply Nat.eqb_eq in Hall.
Qed.

(** C3.  A tick with no alarm ringing that makes [alarm] ring.  If [alarm]
    is one-shot (its day-set is empty), the tick itself puts the record with
    [isActive] false in the store, where the store accepts the request, and
    the alarm list holds no active alarm of that id; dismissal plays no part,
    and [stopRinging] touches neither the store nor the list.  If the day-set
    is not empty, the tick leaves the store and the alarm list as they
    were. *)
Theorem one_shot_deactivated_on_firing now o s alarm :
  ringingAlarm s = None →
  ringingAlarm (checkAlarms now o s) = Some alarm →
  (days alarm = [] →
   o = onsuccess →
   store (checkAlarms now o s) !! id alarm = Some (deactivated alarm)
   ∧ isActive (deactivated alarm) = false
   ∧ (∀ a, a ∈ alarms (checkAlarms now o s) → id a = id alarm → isActive a = false)
   ∧ store (stopRinging (checkAlarms now o s)) = store (checkAlarms now o s)
   ∧ alarms (stopRinging (checkAlarms now o s)) = alarms (checkAlarms now o s))
  ∧ (days alarm ≠ [] →
     store (checkAlarms now o s) = store s ∧ alarms (checkAlarms now o s) = alarms s).
Proof.
  intros Hnone Hring.
  assert (find (matches now (ignoreForThisMinute s)) (alarms s) = Some alarm) as Hfind
    by (by rewrite <- ringingAlarm_checkAlarms with (o := o)).
  clear Hring. unfold checkAlarms. rewrite Hnone, Hfind. split.
  - intros Hdays ->. rewrite Hdays. simpl. repeat split.
    + apply lookup_insert_eq.
    + intros a Ha Hid. apply list_elem_of_fmap in Ha as (b & -> & _).
      destruct (String.eqb_spec (id b) (id alarm)) as [_|Hne]; [done|].
      simpl in Hid. by destruct Hne.
  - intros Hdays.
    assert ((length (days alarm) =? 0)%nat = false) as ->; [|done].
    apply Nat.eqb_neq. by destruct (days alarm).
Qed.

Section WithHost.
Context `{Host}.

(** C10.  Two alarms added with no time passing between them (the same value
    of [Date.now()]) get the same id.  After both [put]s have succeeded the
    store holds, under that id, the second record only, while the alarm list
    holds both: it is the old list with the two new alarms, in some order. *)
Theorem addAlarm_same_millisecond s time1 label1 active1 days1 time2 label2 active2 days2 :
  let first := mkAlarm (toString (clock s)) time1 label1 active1 days1 in
  let second := mkAlarm (toString (clock s)) time2 label2 active2 days2 in
  let s' :=
    addAlarm onsuccess time2 label2 active2 days2
      (addAlarm onsuccess time1 label1 active1 days1 s) in
  id first = id second
  ∧ store s' = <[id second := second]> (store s)
  ∧ store s' !! id first = Some second
  ∧ alarms s' ≡ₚ alarms s ++ [first; second]
  ∧ first ∈ alarms s' ∧ second ∈ alarms s'
  ∧ length (alarms s') = S (S (length (alarms s))).
Proof.
  intros first second s'.
  assert (alarms s' ≡ₚ alarms s ++ [first; second]) as Hperm.
  { unfold s', addAlarm. simpl. rewrite !sort_perm.
    by rewrite <- app_assoc. }
  repeat split.
  - unfold s', addAlarm. simpl. apply insert_insert_eq.
  - unfold s', addAlarm. simpl. apply lookup_insert_eq.
  - done.
  - rewrite Hperm. set_solver.
  - rewrite Hperm. set_solver.
  - rewrite Hperm, length_app. simpl. lia.
Qed.

(** *** Suppression after dismissal *)















End WithHost.

End AlarmClockFacts.

(* ------------------------------------------------------------------------- *)
(** ** The record store *)

Module DBFacts.
Import Types JS DB SortFacts.

Lemma getAll_perm {A} (store : gmap string A) : getAll store ≡ₚ (map_to_list store).*2.
Proof. unfold getAll. by rewrite sort_perm. Qed.

Lemma StronglySorted_impl {A} (R R' : A → A → Prop) (P : A → Prop) (l : list A) :
  (∀ a b, P a → P b → R a b → R' a b) →
  Forall P l → StronglySorted R l → StronglySorted R' l.
Proof.
  intros Himpl HP Hsorted. induction Hsorted as [|a l Hl IH Ha].
  - constructor.
  - inversion HP as [|? ? HPa HPl]; subst. constructor; [by apply IH|].
    rewrite Forall_forall in Ha, HPl |- *. intros b Hb. apply Himpl; auto.
Qed.

(** Code-unit comparison is a consistent comparator. *)
Lemma codeUnitCompare_consistent : consistent codeUnitCompare (λ _, True).
Proof.
  assert (∀ a b, (codeUnitCompare a b ≤ 0)%Z ↔ String.compare a b ≠ Gt) as Hle.
  { intros a b. unfold codeUnitCompare. destruct (String.compare a b); split; (lia || done). }
  split.
  - intros a b _ _. rewrite !Hle, (String.compare_antisym b a).
    destruct (String.compare a b); simpl; auto.
  - intros a b c _ _ _. rewrite !Hle. intros Hab Hbc.
    destruct (String.compare a b) eqn:Eab; [|clear Hab|done].
    { apply OrderedTypeEx.String_as_OT.cmp_eq in Eab. by subst. }
    destruct (String.compare b c) eqn:Ebc; [|clear Hbc|done].
    { apply OrderedTypeEx.String_as_OT.cmp_eq in Ebc. subst. by rewrite Eab. }
    apply OrderedTypeEx.String_as_OT.cmp_lt in Eab, Ebc.
    pose proof (OrderedTypeEx.String_as_OT.lt_trans _ _ _ Eab Ebc) as Hac.
    apply OrderedTypeEx.String_as_OT.cmp_lt in Hac.
    unfold OrderedTypeEx.String_as_OT.cmp in Hac. by rewrite Hac.
Qed.

Section WithHost.
Context `{Host}.

(** On sessions whose dates are valid, the comparator of [getSleepHistory]
    is consistent. *)
Lemma byDateDescending_consistent :
  consistent byDateDescending (λ session, is_Some (Date_getTime (date session))).
Proof.
  unfold byDateDescending. split.
  - intros a b [ta ->] [tb ->]. lia.
  - intros a b c [ta ->] [tb ->] [tc ->]. lia.
Qed.

(** C6.  Where [localeCompare] is a consistent comparator, [getAllAlarms]
    answers the records of the alarms store in ascending order of their time
    strings; and where the dates of the stored sessions are valid dates (the
    controller stamps each with an ISO string), [getSleepHistory] answers the
    records of the history store in descending order of their dates. *)
Theorem getAll_sorted (alarmsStore : gmap string Alarm)
    (historyStore : gmap string AnalysisData) :
  consistent localeCompare (λ _, True) →
  (∀ key session, historyStore !! key = Some session →
     is_Some (Date_getTime (date session))) →
  (∃ result,
     getAllAlarms onsuccess alarmsStore = Some result
     ∧ result ≡ₚ (map_to_list alarmsStore).*2
     ∧ StronglySorted (λ a b, (localeCompare (time a) (time b) ≤ 0)%Z) result)
  ∧ (∃ result,
       getSleepHistory onsuccess historyStore = Some result
       ∧ result ≡ₚ (map_to_list historyStore).*2
       ∧ StronglySorted
           (λ a b, ∃ ta tb, Date_getTime (date a) = Some ta
                            ∧ Date_getTime (date b) = Some tb ∧ (tb ≤ ta)%Z)
           result).
Proof.
  intros [Htotal Htrans] Hvalid. split.
  - eexists. split; [done|]. split.
    + by rewrite sort_perm, getAll_perm.
    + apply (sort_ordered _ (λ _, True)).
      * split; [intros a b _ _; apply Htotal|intros a b c _ _ _; apply Htrans]; done.
      * by apply Forall_forall.
  - eexists. split; [done|].
    assert (sort byDateDescending (getAll historyStore)
            ≡ₚ (map_to_list historyStore).*2) as Hperm
      by (by rewrite sort_perm, getAll_perm).
    assert (Forall (λ session, is_Some (Date_getTime (date session)))
              (getAll historyStore)) as Hall.
    { apply Forall_forall. intros session Hin. rewrite getAll_perm in Hin.
      apply list_elem_of_fmap in Hin as ([key session'] & -> & Hin).
      apply elem_of_map_to_list in Hin. by apply (Hvalid key). }
    split; [done|].
    apply (StronglySorted_impl (λ a b, (byDateDescending a b ≤ 0)%Z) _
             (λ session, is_Some (Date_getTime (date session)))).
    + unfold byDateDescending. intros a b [ta Ha] [tb Hb]. rewrite Ha, Hb.
      intros Hle. exists ta, tb. repeat split. lia.
    + apply Forall_forall. intros session Hin.
      rewrite sort_perm in Hin. rewrite Forall_forall in Hall. by apply Hall.
    + by apply (sort_ordered _ _ _ byDateDescending_consistent).
Qed.

End WithHost.

End DBFacts.

(* ------------------------------------------------------------------------- *)
(** ** The gateway *)

Module GatewayFacts.
Import JS JSON Gateway.

Lemma orString_nonempty (m : option string) (fallback : string) :
  fallback ≠ "" → orString m fallback ≠ "".
Proof.
  intros Hf. unfold orString. destruct m as [s|]; [|done].
  destruct (String.eqb_spec s ""); done.
Qed.

(** The text of a number starts with a digit or a minus sign. *)
Lemma toString_head (n : Z) :
  ∃ c rest, toString n = String c rest ∧ ((48 ≤ nat_of_ascii c ≤ 57)%nat ∨ nat_of_ascii c = 45%nat).
Proof.
  unfold toString, NilZero.string_of_int.
  destruct (Z.to_int n) as [d|d].
  - unfold NilZero.string_of_uint.
    destruct d; simpl; eexists _, _; (split; [reflexivity|vm_compute; lia]).
  - eexists _, _. split; [reflexivity|vm_compute; lia].
Qed.

(** No JSON text is the body of the 405 response. *)
Lemma stringify_not_Method_Not_Allowed (v : json) :
  JSON_stringify v ≠ "Method Not Allowed".
Proof.
  destruct v as [|[]|n|s|xs|fields]; try discriminate.
  simpl. destruct (toString_head n) as (c & rest & -> & Hc).
  intros [= -> _]. vm_compute in Hc. lia.
Qed.

(** C5, as stated, fails for a request that is not a POST: the response to a
    GET has status 405 and the body [Method Not Allowed], which is no JSON
    text at all. *)
Lemma handler_GET_body_is_not_JSON :
  let response := handler (H := Examples.runtime) (HandlerEvent.mk "GET" None) in
  HandlerResponse.statusCode response ≠ 200%Z
  ∧ (∀ v, HandlerResponse.body response ≠ JSON_stringify v)
  ∧ ¬ ∃ message,
        HandlerResponse.body response = JSON_stringify (JObj [("error", JStr message)]).
Proof.
  cbv zeta. split; [by vm_compute|]. split.
  - intros v Heq. apply (stringify_not_Method_Not_Allowed v). symmetry. exact Heq.
  - intros [message Heq].
    apply (stringify_not_Method_Not_Allowed (JObj [("error", JStr message)])).
    symmetry. exact Heq.
Qed.

Section WithRuntime.
Context `{Runtime}.

(** C5, amended.  The response to a POST is either status 200 with the JSON
    text of the result of the operation, or status 500 with the JSON text of
    an object [{ error }] whose message is a string that is not empty (a
    request whose operation type is unknown is among these); the response to
    any other method is status 405 with the plain text
    [Method Not Allowed]. *)
Theorem handler_responses (event : HandlerEvent.t) :
  let response := handler event in
  (HandlerEvent.httpMethod event = "POST"
   ∧ HandlerResponse.statusCode response = 200%Z
   ∧ ∃ result, dispatch event = inr result
               ∧ HandlerResponse.body response = JSON_stringify result)
  ∨ (HandlerEvent.httpMethod event = "POST"
     ∧ HandlerResponse.statusCode response = 500%Z
     ∧ ∃ message, message ≠ ""
                  ∧ HandlerResponse.body response
                    = JSON_stringify (JObj [("error", JStr message)]))
  ∨ (HandlerEvent.httpMethod event ≠ "POST"
     ∧ HandlerResponse.statusCode response = 405%Z
     ∧ HandlerResponse.body response = "Method Not Allowed").
Proof.
  unfold handler.
  destruct (String.eqb_spec (HandlerEvent.httpMethod event) "POST") as [Hpost|Hother];
    simpl.
  - destruct (dispatch event) as [err|result] eqn:Hd; simpl.
    + right. left. repeat split; [done|]. eexists. split; [|done].
      by apply orString_nonempty.
    + left. repeat split; [done|]. by exists result.
  - right. right. done.
Qed.

(** The gateway answers with one of three status codes, and each one other
    than 200 is a failure for [fetch] ([response.ok] is false). *)
Lemma handler_statusCode (event : HandlerEvent.t) :
  let code := HandlerResponse.statusCode (handler event) in
  (code = 200 ∨ code = 405 ∨ code = 500)%Z
  ∧ (code ≠ 200%Z → (200 <=? code)%Z && (code <=? 299)%Z = false).
Proof.
  unfold handler.
  destruct (negb _); simpl; [split; [auto|done]|].
  destruct (dispatch event); simpl; (split; [auto|done]).
Qed.

(** A POST whose body parses to an object with a [type] that is none of the
    four operation names is answered with status 500. *)
Lemma handler_unknown_type (text : string) (fields : list (string * json)) :
  text ≠ "" →
  JSON_parse text = inr (JObj fields) →
  (∀ name, field "type" fields = Some (JStr name) →
     name ≠ "analyzeSleepAudio" ∧ name ≠ "getHealthSuggestions"
     ∧ name ≠ "getWeeklyAnalysis" ∧ name ≠ "getHistoricalAnalysis") →
  HandlerResponse.statusCode (handler (HandlerEvent.mk "POST" (Some text))) = 500%Z.
Proof.
  intros Htext Hparse Hname. unfold handler, dispatch. simpl.
  destruct (String.eqb_spec text ""); [done|]. rewrite Hparse. simpl.
  destruct (field "type" fields) as [[| | |name| |]|] eqn:Htype; try done.
  destruct (Hname name eq_refl) as (H1 & H2 & H3 & H4).
  apply String.eqb_neq in H1, H2, H3, H4. by rewrite H1, H2, H3, H4.
Qed.

End WithRuntime.

End GatewayFacts.

(* ------------------------------------------------------------------------- *)
(** ** The recording session controller *)

Module SleepTrackerFacts.
Import Types JS JSON DB SleepTracker GatewayFacts.

Lemma final_upd f s : final (upd f) s = f s.
Proof. done. Qed.

Lemma final_skip s : final skip s = s.
Proof. done. Qed.

Lemma last_cons {A} (x : A) (l : list A) (d : A) :
  List.last (x :: l) d = List.last l x.
Proof.
  revert x d. induction l as [|y l IH]; intros x d; [done|].
  change (List.last (x :: y :: l) d) with (List.last (y :: l) d).
  by rewrite (IH y d), (IH y x).
Qed.

Lemma last_app_default {A} (l1 l2 : list A) (d : A) :
  List.last (l1 ++ l2) d = List.last l2 (List.last l1 d).
Proof.
  revert d. induction l1 as [|x l1 IH]; intros d; [done|].
  change ((x :: l1) ++ l2) with (x :: l1 ++ l2). by rewrite !last_cons, IH.
Qed.

Lemma final_seq p q s : final (p >>> q) s = final q (final p s).
Proof. unfold final, seq. simpl. apply last_app_default. Qed.

Lemma statuses_seq p q s :
  statuses ((p >>> q) s) = statuses (p s) ++ statuses (q (final p s)).
Proof. unfold statuses, seq, final. simpl. apply map_app. Qed.

(** A response that is not [ok] makes [postToApi] throw. *)
Lemma postToApi_not_ok {T} (response : Api.Response T) :
  Api.ok response = false → ∃ err, Api.postToApi (inr response) = inl err.
Proof.
  intros Hok. unfold Api.postToApi. rewrite Hok. simpl.
  destruct (getProperty _ "error"); eauto.
Qed.

(** The [catch] block ends in [error] with one message that is not empty. *)
Lemma catch_error err s :
  status (final (catch err) s) = error
  ∧ (∃ msg, error_ (final (catch err) s) = [msg] ∧ msg ≠ "")
  ∧ statuses (catch err s) = [status s; error].
Proof.
  unfold catch. rewrite final_seq, statuses_seq, !final_upd. simpl.
  repeat split. eexists. split; [done|]. by apply orString_nonempty.
Qed.

(** [cleanup] touches the refs and the media objects only. *)
Lemma cleanup_cells s :
  status (cleanup s) = status s
  ∧ analysisData (cleanup s) = analysisData s
  ∧ healthSuggestions (cleanup s) = healthSuggestions s
  ∧ error_ (cleanup s) = error_ s
  ∧ duration (cleanup s) = duration s
  ∧ sessionStartTime (cleanup s) = sessionStartTime s
  ∧ audioURL (cleanup s) = audioURL s
  ∧ audioChunksRef (cleanup s) = audioChunksRef s
  ∧ objectURLs (cleanup s) = objectURLs s
  ∧ history (cleanup s) = history s.
Proof.
  destruct s. unfold cleanup. simpl.
  repeat case_match; simpl; done.
Qed.

Lemma tracked_ext s s' : resources s = resources s' → tracked s → tracked s'.
Proof. unfold resources, tracked. by intros [= -> -> -> -> -> ->]. Qed.

Lemma released_ext s s' : resources s = resources s' → released s → released s'.
Proof. unfold resources, released. by intros [= -> -> -> -> -> ->]. Qed.

Lemma released_tracked s : released s → tracked s.
Proof.
  intros (Ht & Hi & Hs & Hst & Hr & Hrec). unfold tracked. rewrite Ht.
  split; [done|]. split; [by intros h st ? _; apply (Hst h)|].
  intros r rec Hlook. rewrite (Hrec r rec Hlook). done.
Qed.

Lemma released_invariant s : released s → invariant s.
Proof.
  intros Hrel. split; [by apply released_tracked|].
  destruct Hrel as (? & _ & ? & _ & ? & _). done.
Qed.

Lemma allEnded_stopTracks st : allEnded (stopTracks st).
Proof.
  unfold allEnded, stopTracks. simpl. apply Forall_forall.
  by intros track (? & -> & _)%list_elem_of_fmap.
Qed.

(** [cleanup] releases what the refs name: under the invariant, everything. *)
Lemma cleanup_released s : tracked s → released (cleanup s).
Proof.
  destruct s as [st an hs er du ss au mr ch asr ti so sts recs ivs urls hist].
  unfold tracked, released, cleanup. simpl. intros (Hti & Hst & Hrec).
  assert (∀ s0,
    timerIntervalRef s0 = None → intervals s0 = ∅ → streams s0 = sts →
    audioStreamRef s0 = asr → mediaRecorderRef s0 = mr → recorders s0 = recs →
    let s2 :=
      match audioStreamRef s0 with
      | Some h => set_audioStreamRef None (set_streams (alter stopTracks h (streams s0)) s0)
      | None => s0
      end in
    let s3 :=
      match mediaRecorderRef s2 with
      | Some r =>
          match recorders s2 !! r with
          | Some rec =>
              if isRecording rec
              then set_recorders (<[r := stopRecorder rec]> (recorders s2)) s2
              else s2
          | None => s2
          end
      | None => s2
      end in
    released (set_srcObject None (set_mediaRecorderRef None s3))) as Hrest.
  { intros s0 Ht0 Hi0 Hs0 Ha0 Hm0 Hr0 s2 s3.
    assert (timerIntervalRef s2 = None ∧ intervals s2 = ∅ ∧ audioStreamRef s2 = None
            ∧ (∀ h st', streams s2 !! h = Some st' → allEnded st')
            ∧ mediaRecorderRef s2 = mr ∧ recorders s2 = recs) as (T2 & I2 & A2 & S2 & M2 & R2).
    { unfold s2. rewrite Ha0. destruct asr as [h|]; simpl; repeat split; try done.
      - intros h' st'. rewrite Hs0, lookup_alter.
        destruct (decide (h = h')) as [->|Hne].
        + destruct (sts !! h') as [st0|]; simpl; [|done].
          intros [= <-]. apply allEnded_stopTracks.
        + intros Hlook. apply (Hst h' st' Hlook). congruence.
      - intros h' st'. rewrite Hs0. intros Hlook. by apply (Hst h' st' Hlook). }
    clearbody s2. unfold released, s3. rewrite M2, R2. clear s3.
    destruct mr as [r|]; simpl.
    - destruct (recs !! r) as [rec|] eqn:Hr.
      + destruct (isRecording rec) eqn:Hrecording; simpl.
        * repeat split; try done. intros r' rec'. rewrite ?R2.
          destruct (decide (r = r')) as [->|Hne].
          -- rewrite lookup_insert_eq. by intros [= <-].
          -- rewrite lookup_insert_ne by done. intros Hlook.
             apply (Hrec r' rec' Hlook). congruence.
        * repeat split; try done. intros r' rec'. rewrite ?R2. intros Hlook.
          destruct (decide (r = r')) as [->|Hne].
          -- rewrite Hr in Hlook. injection Hlook as <-.
             destruct (Hrec r' rec Hr) as [Hnp _].
             unfold isRecording in Hrecording. by destruct (state rec).
          -- apply (Hrec r' rec' Hlook). congruence.
      + repeat split; try done. intros r' rec'. rewrite ?R2. intros Hlook.
        apply (Hrec r' rec' Hlook). intros [= ->]. congruence.
    - repeat split; try done. intros r' rec'. rewrite ?R2. intros Hlook.
      by apply (Hrec r' rec' Hlook). }
  destruct ti as [i|].
  - destruct Hti as [Hi ->]. apply Z.eqb_neq in Hi. rewrite Hi.
    apply Hrest; simpl; try done. apply difference_diag_L.
  - by apply Hrest.
Qed.




#[local] Opaque cleanup.



Section WithHost.
Context `{Host}.

Lemma endsInError_ext p q s : p s = q s → endsInError q s → endsInError p s.
Proof. unfold endsInError, final. by intros ->. Qed.

Lemma endsInError_catch err s : endsInError (catch err) s.
Proof.
  destruct (catch_error err s) as (? & ? & Hst). repeat split; [done..|].
  rewrite Hst. intros st [->|[->|[]%elem_of_nil]%elem_of_cons]%elem_of_cons; auto.
Qed.

Lemma endsInError_upd f q s :
  status (f s) = status s → endsInError q (f s) → endsInError (upd f >>> q) s.
Proof.
  intros Hf (Hfinal & Hmsg & Hall). unfold endsInError.
  rewrite final_seq, statuses_seq, final_upd. repeat split; [done..|].
  intros st [Hin|Hin]%elem_of_app.
  - unfold upd, statuses in Hin. simpl in Hin.
    apply list_elem_of_singleton in Hin as ->. by left.
  - rewrite <- Hf. by apply Hall.
Qed.

(** What the [try] block with its [catch] does: it ends in [results] after
    both gateway calls and the [add] have succeeded, and otherwise in [error]
    with one message that is not empty, without reaching [results]. *)
Lemma tryAnalysis_outcome env s :
  (status (final (tryAnalysis env) s) = results
   ∧ (∃ result, Api.analyzeSleepAudio (analysisFetched env) = inr result)
   ∧ (∃ text, Api.getHealthSuggestions (suggestionsFetched env) = inr text))
  ∨ endsInError (tryAnalysis env) s.
Proof.
  unfold tryAnalysis.
  destruct (Api.analyzeSleepAudio (analysisFetched env)) as [err|result] eqn:Ha.
  { right. apply endsInError_catch. }
  match goal with |- context [upd ?f >>> ?q] => set (k := q) end.
  destruct (addSleepSession (addOutcome env)
              (withDate result (toISOString (completedAt env))) (history s))
    as [history'|] eqn:Hadd.
  2:{ right. apply endsInError_upd; [done|].
      apply (endsInError_ext _ (catch (ThrownString "Error adding sleep session"))).
      - unfold k. simpl. by rewrite Hadd.
      - apply endsInError_catch. }
  destruct (Api.getHealthSuggestions (suggestionsFetched env)) as [err|text] eqn:Hs.
  { right. apply endsInError_upd; [done|].
    apply (endsInError_ext _ (upd (set_history history') >>> catch err)).
    - unfold k. simpl. by rewrite Hadd.
    - apply endsInError_upd; [done|]. apply endsInError_catch. }
  left. rewrite final_seq, final_upd.
  assert (∀ x, history x = history s →
               final k x = setStatus results (setHealthSuggestions text
                                                (set_history history' x))) as Hk.
  { intros x Hx. unfold final, k. rewrite Hx, Hadd.
    change (List.last ?l x) with (final (upd (set_history history') >>>
      upd (setHealthSuggestions text) >>> upd (setStatus results)) x).
    by rewrite !final_seq, !final_upd. }
  rewrite Hk by done. simpl. eauto.
Qed.

(** C7.  A session in [analyzing] whose recording has been read, and a
    gateway call that is answered with a failure status (one outside 200 to
    299, which is what [postToApi] takes for a failure; every status of the
    gateway other than 200 is one): the audio analysis or the health
    suggestions.  The controller ends in [error] with one message that is not
    empty, and passes through no state other than [analyzing] and [error]: it
    never reaches [results]. *)
Theorem gateway_failure_ends_in_error env s data :
  status s = analyzing →
  readerResult env = Some data →
  (∃ response, analysisFetched env = inr response ∧ Api.ok response = false)
  ∨ (∃ response, suggestionsFetched env = inr response ∧ Api.ok response = false) →
  status (final (onloadend env) s) = error
  ∧ (∃ msg, error_ (final (onloadend env) s) = [msg] ∧ msg ≠ "")
  ∧ (∀ st, st ∈ statuses (onloadend env s) → st = analyzing ∨ st = error)
  ∧ results ∉ statuses (onloadend env s).
Proof.
  intros Hstatus Hreader Hfail. unfold onloadend. rewrite Hreader.
  rewrite final_seq, statuses_seq, final_upd.
  match goal with |- context [cleanup ?x] =>
    destruct (cleanup_cells x) as (E1 & _ & _ & E2 & _) end.
  rewrite E1, E2. clear E1 E2.
  assert (endsInError (tryAnalysis env) s) as (Hfinal & Hmsg & Hall).
  { destruct (tryAnalysis_outcome env s) as [(_ & [result Ha] & [text Hs])|Herr];
      [|done].
    destruct Hfail as [(response & Hr & Hok)|(response & Hr & Hok)].
    - unfold Api.analyzeSleepAudio in Ha. rewrite Hr in Ha.
      destruct (postToApi_not_ok response Hok) as [err Herr]. congruence.
    - unfold Api.getHealthSuggestions in Hs. rewrite Hr in Hs.
      destruct (postToApi_not_ok response Hok) as [err Herr].
      rewrite Herr in Hs. discriminate. }
  assert (∀ st, st ∈ statuses (tryAnalysis env s)
                     ++ statuses (upd cleanup (final (tryAnalysis env) s)) →
                st = analyzing ∨ st = error) as Hstatuses.
  { intros st [Hin|Hin]%elem_of_app.
    - rewrite <- Hstatus. by apply Hall.
    - unfold upd, statuses in Hin. simpl in Hin.
      apply list_elem_of_singleton in Hin as ->.
      destruct (cleanup_cells (final (tryAnalysis env) s)) as (-> & _). by right. }
  repeat split; [done..|].
  intros Hin. by destruct (Hstatuses _ Hin).
Qed.

(** *** The invariant of the controller *)

Lemma controller_invariant_initial db : invariant (initial db).
Proof.
  split; [|done]. unfold tracked. simpl. split; [done|].
  split; intros ? ?; by rewrite lookup_empty.
Qed.

Lemma invariant_updateError debugLog s :
  tracked s → invariant (cleanup (setStatus error (setError debugLog s))).
Proof.
  intros Ht. apply released_invariant, cleanup_released.
  by apply (tracked_ext s).
Qed.

(** A stream is acquired while the stream ref is empty. *)
Lemma tracked_acquire s h granted :
  tracked s → audioStreamRef s = None →
  tracked (set_audioStreamRef (Some h) (set_streams (<[h := granted]> (streams s)) s)).
Proof.
  intros (Hti & Hst & Hrec) Hnone. unfold tracked. simpl.
  split; [done|]. split; [|done].
  intros h' st. destruct (decide (h = h')) as [->|Hne]; [done|].
  rewrite lookup_insert_ne by done. intros Hlook _.
  apply (Hst h' st Hlook). by rewrite Hnone.
Qed.

Lemma invariant_handleStartTracking env s :
  invariant s → status s = idle → invariant (handleStartTracking env s).
Proof.
  intros [Ht Hidle] Hstatus. destruct (Hidle Hstatus) as (Hti & Hasr & Hmr).
  assert (tracked (setStatus requesting s)) as Ht0 by (by apply (tracked_ext s)).
  unfold handleStartTracking, updateError.
  destruct (mediaDevices env); simpl; [|by apply invariant_updateError].
  destruct (getUserMedia env) as [err|granted].
  { destruct (isNotAllowedError err); by apply invariant_updateError. }
  set (h := fresh (dom (streams (setStatus requesting s)))).
  assert (tracked (set_audioStreamRef (Some h)
                     (set_streams (<[h := granted]> (streams (setStatus requesting s)))
                        (setStatus requesting s)))) as Ht1
    by (by apply tracked_acquire).
  destruct (getTracks granted) as [|track tracks]; [by apply invariant_updateError|].
  destruct (active granted); simpl; [|by apply invariant_updateError].
  destruct (isLive track); simpl; [|by apply invariant_updateError].
  destruct (newMediaRecorder env) as [e|].
  { apply invariant_updateError. refine (tracked_ext _ _ _ Ht1). reflexivity. }
  destruct Ht as (Hintervals & Hst & Hrec). rewrite Hti in Hintervals.
  set (r := fresh (dom (recorders s))).
  assert (∀ rec0 r' rec,
            state rec0 ≠ paused →
            <[r := rec0]> (recorders s) !! r' = Some rec →
            state rec ≠ paused ∧ (Some r ≠ Some r' → state rec = inactive)) as Hrec'.
  { intros rec0 r' rec Hrec0. destruct (decide (r = r')) as [<-|Hne].
    - rewrite lookup_insert_eq. by intros [= <-].
    - rewrite lookup_insert_ne by done. intros Hlook.
      destruct (Hrec r' rec Hlook) as [Hnp Hin]. split; [done|].
      intros _. apply Hin. by rewrite Hmr. }
  assert (∀ h' st, <[h := granted]> (streams s) !! h' = Some st →
                   Some h ≠ Some h' → allEnded st) as Hst'.
  { intros h' st. destruct (decide (h = h')) as [Heq|Hne].
    { intros _ []. f_equal. exact Heq. }
    rewrite lookup_insert_ne by done. intros Hlook _.
    apply (Hst h' st Hlook). by rewrite Hasr. }
  destruct (startRecorder env) as [e|].
  - split; [|done]. unfold tracked. simpl. rewrite Hti.
    split; [done|]. split; [exact Hst'|].
    intros r' rec. by apply Hrec'.
  - split; [|done]. unfold tracked. simpl.
    split; [split; [done|by rewrite Hintervals, union_empty_r_L]|].
    split; [exact Hst'|].
    intros r' rec. rewrite insert_insert_eq. by apply Hrec'.
Qed.

Lemma final_cases (p q : Proc) s : p s = q s → final p s = final q s.
Proof. unfold final. by intros ->. Qed.

(** The [try] block touches no resource. *)
Lemma tryAnalysis_resources env s :
  resources (final (tryAnalysis env) s) = resources s
  ∧ status (final (tryAnalysis env) s) ≠ idle.
Proof.
  unfold tryAnalysis.
  assert (∀ err x, resources (final (catch err) x) = resources x
                   ∧ status (final (catch err) x) ≠ idle) as Hcatch.
  { intros err x. unfold catch. by rewrite final_seq, !final_upd. }
  destruct (Api.analyzeSleepAudio (analysisFetched env)) as [err|result]; [done|].
  rewrite final_seq, final_upd.
  destruct (addSleepSession (addOutcome env)
              (withDate result (toISOString (completedAt env))) (history s))
    as [history'|] eqn:Hadd.
  - rewrite (final_cases _
               (upd (set_history history') >>>
                match Api.getHealthSuggestions (suggestionsFetched env) with
                | inl err => catch err
                | inr suggestions =>
                    upd (setHealthSuggestions suggestions) >>> upd (setStatus results)
                end))
      by (simpl; by rewrite Hadd).
    rewrite final_seq, final_upd.
    destruct (Api.getHealthSuggestions (suggestionsFetched env)) as [err|text].
    + match goal with |- context [final (catch ?e) ?x] =>
        destruct (Hcatch e x) as [-> ?] end. by split.
    + by rewrite final_seq, !final_upd.
  - rewrite (final_cases _ (catch (ThrownString "Error adding sleep session")))
      by (simpl; by rewrite Hadd).
    match goal with |- context [final (catch ?e) ?x] =>
      destruct (Hcatch e x) as [-> ?] end. by split.
Qed.

Lemma invariant_handleStopAndAnalyze env s :
  invariant s → status s ≠ idle → invariant (final (handleStopAndAnalyze env) s).
Proof.
  intros [Ht Hidle] Hstatus.
  destruct (mediaRecorderRef s) as [r|] eqn:Hr;
    [|by rewrite (final_cases _ skip) by (unfold handleStopAndAnalyze; by rewrite Hr)].
  destruct (recorders s !! r) as [rec|] eqn:Hrec;
    [|by rewrite (final_cases _ skip)
          by (unfold handleStopAndAnalyze; by rewrite Hr, Hrec)].
  destruct (isRecording rec) eqn:Hrecording;
    [|by rewrite (final_cases _ skip)
          by (unfold handleStopAndAnalyze; by rewrite Hr, Hrec, Hrecording)].
  rewrite (final_cases _
             (upd (set_recorders (<[r := stopRecorder rec]> (recorders s))) >>>
              upd (ondataavailable (lastData env)) >>> onstop env))
    by (unfold handleStopAndAnalyze; by rewrite Hr, Hrec, Hrecording).
  rewrite !final_seq, !final_upd.
  set (x := ondataavailable (lastData env)
              (set_recorders (<[r:=stopRecorder rec]> (recorders s)) s)).
  assert (tracked x) as Hx.
  { apply (tracked_ext (set_recorders (<[r:=stopRecorder rec]> (recorders s)) s)).
    { unfold x, ondataavailable. by destruct (0 <? size (lastData env))%nat. }
    destruct Ht as (Hti & Hst & Hrecs). unfold tracked. simpl.
    split; [done|]. split; [done|]. intros r' rec'.
    destruct (decide (r = r')) as [<-|Hne].
    - rewrite lookup_insert_eq. by intros [= <-].
    - rewrite lookup_insert_ne by done. by apply Hrecs. }
  clearbody x. unfold onstop. rewrite final_seq, final_upd.
  destruct (length (audioChunksRef x) =? 0)%nat eqn:Hchunks.
  - rewrite (final_cases _
               (upd (setError ["[Final Check] No audio chunks were recorded. The stream might have been silent or stopped unexpectedly."]) >>>
                upd (setStatus error) >>> upd cleanup))
      by (simpl; by rewrite Hchunks).
    rewrite !final_seq, !final_upd.
    apply released_invariant, cleanup_released. by apply (tracked_ext x).
  - rewrite (final_cases _
               (upd (λ s, setAudioURL (Some (objectURL env))
                            (set_objectURLs ({[objectURL env]} ∪ objectURLs s) s)) >>>
                onloadend env))
      by (simpl; by rewrite Hchunks).
    rewrite final_seq, final_upd. unfold onloadend.
    set (y := setAudioURL _ _).
    assert (tracked y) as Hy by (by apply (tracked_ext x)).
    destruct (readerResult env).
    + rewrite final_seq, final_upd.
      apply released_invariant, cleanup_released.
      destruct (tryAnalysis_resources env y) as [Heq _].
      by apply (tracked_ext y).
    + rewrite final_skip. split; [done|]. by unfold y.
Qed.

Lemma released_debugLog r debugLog' s :
  released s →
  released (set_recorders
              (alter (λ rec, mkRecorder (state rec) (stream rec) debugLog') r (recorders s))
              s).
Proof.
  intros (? & ? & ? & ? & ? & Hrecs). unfold released. simpl.
  repeat split; try done.
  intros r' rec'. rewrite lookup_alter.
  destruct (decide (r = r')) as [->|]; [|by apply Hrecs].
  destruct (recorders s !! r') as [rec0|] eqn:Hr; simpl; [|done].
  intros [= <-]. simpl. by apply (Hrecs r').
Qed.

Lemma invariant_onRecorderError r name now s :
  invariant s → invariant (onRecorderError r name now s).
Proof.
  intros [Ht Hidle]. unfold onRecorderError, updateError.
  destruct (recorders s !! r) as [rec|]; [|done].
  destruct (isRecording rec); [|done].
  apply released_invariant, released_debugLog, cleanup_released.
  by apply (tracked_ext s).
Qed.

Lemma resetState_released s : tracked s → released (resetState s).
Proof.
  intros Ht. unfold resetState.
  match goal with |- context [cleanup ?x] =>
    assert (released (cleanup x)) as Hrel end.
  { apply cleanup_released.
    destruct (audioURL s) as [url|]; [|done].
    destruct (url =? ""); [done|]. by apply (tracked_ext s). }
  revert Hrel. by apply released_ext.
Qed.

Lemma controller_invariant_step e s : invariant s → invariant (step s e).
Proof.
  intros Hinv. destruct e as [env|env| |r name now|r data|i]; simpl.
  - destruct (status s) eqn:Hs; try done. by apply invariant_handleStartTracking.
  - destruct (status s) eqn:Hs; try done.
    apply invariant_handleStopAndAnalyze; [done|]. by rewrite Hs.
  - destruct Hinv as [Ht _]. by apply released_invariant, resetState_released.
  - by apply invariant_onRecorderError.
  - destruct (recorders s !! r) as [rec|]; [|done].
    unfold ondataavailable. destruct (0 <? size data)%nat; [|done].
    destruct Hinv as [Ht Hidle]. split; [by apply (tracked_ext s)|done].
  - case_bool_decide; [|done].
    destruct Hinv as [Ht Hidle]. split; [by apply (tracked_ext s)|done].
Qed.

Lemma controller_invariant_run es s : invariant s → invariant (run es s).
Proof.
  revert s. induction es as [|e es IH]; intros s Hinv; [done|].
  apply IH. by apply controller_invariant_step.
Qed.


End WithHost.

End SleepTrackerFacts.

(* ------------------------------------------------------------------------- *)
(** ** The dashboard aggregates *)

Module DashboardFacts.
Import Types JS Dashboard.

Lemma fold_left_sum {A} (f : A → Z) (l : list A) (acc : Z) :
  fold_left (λ acc item, acc + f item)%Z l acc = (acc + foldr Z.add 0%Z (map f l))%Z.
Proof.
  revert acc. induction l as [|x l IH]; intros acc; simpl; [lia|].
  rewrite IH. lia.
Qed.

Lemma avgScore_mean data : avgScore data = Math_round (mean (map sleepScore data)).
Proof. unfold avgScore, mean. by rewrite fold_left_sum, length_map. Qed.

Lemma avgDuration_mean data : avgDuration data = mean (map duration data).
Proof. unfold avgDuration, mean. by rewrite fold_left_sum, length_map. Qed.

(** [Math.round] answers an integer within a half of its argument. *)
Lemma Math_round_nearest (x : Q) :
  (x - (1 # 2) < inject_Z (Math_round x))%Q ∧ (inject_Z (Math_round x) <= x + (1 # 2))%Q.
Proof.
  unfold Math_round. split.
  - pose proof (Qlt_floor (x + (1 # 2))) as Hlt.
    rewrite inject_Z_plus in Hlt.
    apply Qplus_lt_l with (z := 1%Q).
    eapply Qle_lt_trans; [|exact Hlt].
    ring_simplify. apply Qle_refl.
  - apply Qfloor_le.
Qed.

(** C9, as stated, fails: for two sessions inside the week with the scores
    70 and 75 the dashboard shows 73, and their mean is 72.5. *)
Lemma displayed_score_is_not_the_mean :
  filteredData (H := UtcHost.utcHost) Examples.dashboardOpened Examples.twoNights week
  = Examples.twoNights
  ∧ avgScore Examples.twoNights = 73%Z
  ∧ (mean (map sleepScore Examples.twoNights) == 145 # 2)%Q
  ∧ ¬ (inject_Z (avgScore Examples.twoNights)
       == mean (map sleepScore Examples.twoNights))%Q.
Proof.
  split; [by vm_compute|]. split; [by vm_compute|]. split; [by vm_compute|].
  vm_compute. discriminate.
Qed.

Section WithHost.
Context `{Host}.

Lemma filteredData_elem now history timeRange item :
  item ∈ filteredData now history timeRange ↔
    item ∈ history
    ∧ ∃ t, Date_getTime (date item) = Some t
           ∧ (Date_minusDays now
                match timeRange with week => 7 | month => 30 | year => 365 end ≤ t)%Z.
Proof.
  unfold filteredData. rewrite !list_elem_of_In, filter_In, <- !list_elem_of_In.
  destruct (Date_getTime (date item)) as [t|].
  - rewrite Z.leb_le. split; [intros [? ?]; eauto|].
    intros [? (t' & [= <-] & ?)]. done.
  - split; [by intros [? ?]|]. by intros [? (t' & ? & ?)].
Qed.

(** C9, amended.  The dashboard keeps exactly the sessions of the loaded
    list whose date is a valid date not before [now] minus the window (7, 30
    or 365 days), in the order of the list.  Where sessions remain (the
    aggregates are shown for no other list), the average duration is the
    arithmetic mean of their durations, and the average score is the
    arithmetic mean of their scores rounded to the nearest integer, a half
    going up.  For three sessions with the scores 70, 80, 90 and the durations
    25200, 28800, 21600 the score shown is 80 and the average duration
    25200. *)
Theorem dashboard_aggregates now history timeRange :
  let data := filteredData now history timeRange in
  data ≠ [] →
  (∀ item, item ∈ data ↔
     item ∈ history
     ∧ ∃ t, Date_getTime (date item) = Some t
            ∧ (Date_minusDays now
                 match timeRange with week => 7 | month => 30 | year => 365 end ≤ t)%Z)
  ∧ data `sublist_of` history
  ∧ avgDuration data = mean (map duration data)
  ∧ avgScore data = Qfloor (mean (map sleepScore data) + (1 # 2))
  ∧ (mean (map sleepScore data) - (1 # 2) < inject_Z (avgScore data))%Q
  ∧ (inject_Z (avgScore data) <= mean (map sleepScore data) + (1 # 2))%Q
  ∧ (∀ d1 d2 d3 t1 t2 t3 e1 e2 e3 g1 g2 g3,
       avgScore [mkAnalysisData d1 70 t1 e1 g1 25200; mkAnalysisData d2 80 t2 e2 g2 28800;
                 mkAnalysisData d3 90 t3 e3 g3 21600] = 80%Z
       ∧ (avgDuration [mkAnalysisData d1 70 t1 e1 g1 25200;
                       mkAnalysisData d2 80 t2 e2 g2 28800;
                       mkAnalysisData d3 90 t3 e3 g3 21600] == 25200)%Q).
Proof.
  intros data _. split; [apply filteredData_elem|].
  split.
  { unfold data, filteredData. clear data.
    induction history as [|x l IH]; simpl; [done|].
    destruct (match Date_getTime (date x) with Some _ => _ | None => _ end);
      by constructor. }
  split; [apply avgDuration_mean|].
  split; [apply avgScore_mean|].
  rewrite avgScore_mean.
  split; [apply Math_round_nearest|]. split; [apply Math_round_nearest|].
  intros. split; [by vm_compute|]. by vm_compute.
Qed.

End WithHost.

End DashboardFacts.

(* ------------------------------------------------------------------------- *)
(** ** The record store: what is written is read back *)

Module StoreFacts.
Import Types JS DB SortFacts DBFacts AlarmCache.

Lemma getAll_elem_of {A} (store : gmap string A) (a : A) :
  a ∈ getAll store ↔ ∃ k, store !! k = Some a.
Proof.
  rewrite getAll_perm. rewrite list_elem_of_fmap. split.
  - intros [[k a'] [-> Hin]]. exists k. by apply elem_of_map_to_list in Hin.
  - intros [k Hk]. exists (k, a). split; [done|]. by apply elem_of_map_to_list.
Qed.

Lemma getAll_insert {A} (store : gmap string A) (k : string) (a : A) :
  getAll (<[k := a]> store) ≡ₚ a :: getAll (delete k store).
Proof.
  rewrite !getAll_perm. rewrite <- insert_delete_eq.
  rewrite map_to_list_insert by apply lookup_delete_eq. done.
Qed.

Lemma keyed_insert store alarm : keyed store → keyed (<[id alarm := alarm]> store).
Proof.
  intros Hk k a. destruct (decide (id alarm = k)) as [<-|Hne].
  - rewrite lookup_insert_eq. by intros [= <-].
  - rewrite lookup_insert_ne by done. apply Hk.
Qed.

Lemma keyed_delete store key : keyed store → keyed (delete key store).
Proof.
  intros Hk k a. destruct (decide (key = k)) as [<-|Hne].
  - by rewrite lookup_delete_eq.
  - rewrite lookup_delete_ne by done. apply Hk.
Qed.

Lemma keyed_getAll_NoDup store : keyed store → NoDup (id <$> getAll store).
Proof.
  intros Hk.
  assert (id <$> getAll store ≡ₚ (map_to_list store).*1) as ->.
  { rewrite getAll_perm. rewrite <- list_fmap_compose.
    apply eq_subrelation; [apply _|].
    apply Forall_fmap_ext_1, Forall_forall. intros [k a] Hin. simpl.
    apply elem_of_map_to_list in Hin. by apply Hk. }
  apply NoDup_fst_map_to_list.
Qed.

Section WithHost.
Context `{Host}.

(** X1.  A [put] that succeeds, then [getAllAlarms]: in a store keyed by
    [id], the records read back are the saved alarm and the records that
    were stored under the other ids, in some order; the alarm is the only
    record of its id, and no two records share an id. *)
Theorem saveAlarm_getAllAlarms (alarm : Alarm) (store : gmap string Alarm) :
  keyed store →
  ∃ store' stored,
    saveAlarm onsuccess alarm store = Some store'
    ∧ getAllAlarms onsuccess store' = Some stored
    ∧ keyed store'
    ∧ stored ≡ₚ alarm :: getAll (delete (id alarm) store)
    ∧ (∀ a, a ∈ stored → id a = id alarm → a = alarm)
    ∧ NoDup (id <$> stored).
Proof.
  intros Hk. eexists _, _. split; [reflexivity|]. split; [reflexivity|].
  assert (keyed (<[id alarm := alarm]> store)) as Hk' by (by apply keyed_insert).
  split; [done|].
  split; [by rewrite sort_perm, getAll_insert|]. split.
  - intros a. rewrite sort_elem_of, getAll_elem_of. intros [k Hlook] Hid.
    destruct (decide (id alarm = k)) as [<-|Hne].
    + rewrite lookup_insert_eq in Hlook. by injection Hlook.
    + rewrite lookup_insert_ne in Hlook by done. apply Hk in Hlook. congruence.
  - rewrite sort_perm. by apply keyed_getAll_NoDup.
Qed.

(** X2.  A [delete] that succeeds, then [getAllAlarms]: in a store keyed by
    [id], the records read back are the records of the store whose id is not
    the deleted one, and none of them has that id; deleting an id that the
    store does not hold leaves the store as it was. *)
Theorem deleteAlarmDB_getAllAlarms (key : string) (store : gmap string Alarm) :
  keyed store →
  ∃ store' stored,
    deleteAlarmDB onsuccess key store = Some store'
    ∧ getAllAlarms onsuccess store' = Some stored
    ∧ keyed store'
    ∧ (∀ a, a ∈ stored → id a ≠ key)
    ∧ (∀ a, a ∈ stored ↔ a ∈ getAll store ∧ id a ≠ key)
    ∧ (key ∉ dom store → store' = store).
Proof.
  intros Hk. eexists _, _. split; [reflexivity|]. split; [reflexivity|].
  split; [by apply keyed_delete|].
  assert (∀ a, a ∈ sort (λ a b, localeCompare (time a) (time b)) (getAll (delete key store))
               ↔ a ∈ getAll store ∧ id a ≠ key) as Hiff.
  { intros a. rewrite sort_elem_of, !getAll_elem_of. split.
    - intros [k Hlook]. apply lookup_delete_Some in Hlook as [Hne Hlook].
      split; [by exists k|]. by rewrite (Hk k a Hlook).
    - intros [[k Hlook] Hne]. exists k. apply lookup_delete_Some.
      split; [|done]. by rewrite <- (Hk k a Hlook). }
  split; [intros a Ha; by apply Hiff|]. split; [done|].
  intros Hdom. apply delete_id. by apply not_elem_of_dom.
Qed.

(** X3.  [addSleepSession] inserts and never overwrites: it succeeds only
    where the request succeeds and no session is stored under the date of
    the new one; the store then holds the new session under its date and
    every session it held before, and [getSleepHistory] answers the old
    sessions and the new one.  It fails where the request fails or the date
    is taken. *)
Theorem addSleepSession_insert_only (o : IDBOutcome) (sessionData : AnalysisData)
    (store : gmap string AnalysisData) :
  match addSleepSession o sessionData store with
  | Some store' =>
      o = onsuccess
      ∧ store !! date sessionData = None
      ∧ store' !! date sessionData = Some sessionData
      ∧ store ⊆ store'
      ∧ ∃ history, getSleepHistory onsuccess store' = Some history
                   ∧ history ≡ₚ sessionData :: getAll store
  | None => o = onerror ∨ ∃ taken, store !! date sessionData = Some taken
  end.
Proof.
  unfold addSleepSession. destruct o; [|by left].
  destruct (store !! date sessionData) as [taken|] eqn:Hlook; [right; by exists taken|].
  split; [done|]. split; [done|]. split; [apply lookup_insert_eq|].
  split; [by apply insert_subseteq|].
  eexists. split; [reflexivity|].
  rewrite sort_perm, getAll_insert. by rewrite delete_id.
Qed.

End WithHost.
End StoreFacts.

(* ------------------------------------------------------------------------- *)
(** ** The alarm list as a cache of the alarms store *)

Module AlarmCacheFacts.
Import Types JS DB AlarmClock AlarmCache SortFacts DBFacts StoreFacts.

(** The map of [toggleAlarm], of [checkAlarms]: the ids stay as they are. *)
Lemma fmap_id_replace (f : Alarm → Alarm) (l : list Alarm) :
  (∀ a, id (f a) = id a) → id <$> (map f l) = id <$> l.
Proof.
  intros Hf. induction l as [|a l IH]; [done|].
  change (map f (a :: l)) with (f a :: map f l). by rewrite !fmap_cons, Hf, IH.
Qed.

Lemma find_map_flipped (l : list Alarm) (key : string) :
  find (λ a, id a =? key)
    (map (λ a, if id a =? key then flipped a else a) l)
  = flipped <$> find (λ a, id a =? key) l.
Proof.
  induction l as [|b l IH]; simpl; [done|].
  destruct (String.eqb_spec (id b) key) as [Heq|Hne]; simpl.
  - by rewrite <- Heq, String.eqb_refl.
  - apply String.eqb_neq in Hne. by rewrite Hne.
Qed.

Lemma flipped_flipped a : flipped (flipped a) = a.
Proof. destruct a as [i t l b d]. unfold flipped. simpl. by rewrite negb_involutive. Qed.

Lemma toggleAlarm_alarms o key s :
  alarms (toggleAlarm o key s) = map (λ a, if id a =? key then flipped a else a) (alarms s).
Proof. done. Qed.

Lemma map_flipped_twice key (l : list Alarm) :
  map (λ a, if id a =? key then flipped a else a)
    (map (λ a, if id a =? key then flipped a else a) l) = l.
Proof.
  induction l as [|b l IH]; simpl; [done|]. rewrite IH. f_equal.
  destruct (id b =? key) eqn:Hb; simpl; rewrite Hb; [apply flipped_flipped|done].
Qed.

Lemma toggleAlarm_store o key s :
  store (toggleAlarm o key s)
  = match find (λ a, id a =? key) (alarms s) with
    | Some a =>
        match o with
        | onsuccess => <[id a := flipped a]> (store s)
        | onerror => store s
        end
    | None => store s
    end.
Proof.
  unfold toggleAlarm. simpl.
  change (find (λ a, id a =? key) (map _ (alarms s)))
    with (find (λ a, id a =? key)
            (map (λ a, if id a =? key then flipped a else a) (alarms s))).
  rewrite find_map_flipped.
  destruct (find _ (alarms s)) as [a|]; simpl; [|done]. by destruct o.
Qed.

(** X4.  Where the alarm list is a faithful cache of the store, toggling an
    alarm twice, both [put]s succeeding, leaves the alarm list and the store
    as they were. *)
Theorem toggleAlarm_twice key s :
  coherent s →
  let s' := toggleAlarm onsuccess key (toggleAlarm onsuccess key s) in
  alarms s' = alarms s ∧ store s' = store s.
Proof.
  intros (Hk & Hnd & Hst) s'.
  assert (alarms s' = alarms s) as Ha.
  { unfold s'. rewrite !toggleAlarm_alarms. apply map_flipped_twice. }
  split; [done|]. unfold s'.
  rewrite toggleAlarm_store, !toggleAlarm_alarms, find_map_flipped, toggleAlarm_store.
  destruct (find (λ a, id a =? key) (alarms s)) as [a|] eqn:Hfind; simpl; [|done].
  rewrite flipped_flipped, insert_insert_eq.
  apply insert_id, Hst. by apply find_some in Hfind as [Hin%list_elem_of_In _].
Qed.

(** X5.  A toggle whose [put] fails: the alarm list shows the alarm with
    [isActive] flipped while the store is unchanged and still holds the old
    record under that id; the alarm list is then no faithful cache of the
    store. *)
Theorem toggleAlarm_failed_save s a :
  coherent s → a ∈ alarms s →
  let s' := toggleAlarm onerror (id a) s in
  flipped a ∈ alarms s'
  ∧ (a ∉ alarms s')
  ∧ store s' = store s
  ∧ store s' !! id a = Some a
  ∧ ¬ coherent s'.
Proof.
  intros (Hk & Hnd & Hst) Hin s'.
  assert (flipped a ∈ alarms s') as Hflip.
  { unfold s'. rewrite toggleAlarm_alarms.
    apply list_elem_of_fmap. exists a. by rewrite String.eqb_refl. }
  assert (store s' = store s) as Hstore.
  { unfold s'. rewrite toggleAlarm_store. by destruct (find _ _). }
  assert (flipped a ≠ a) as Hne.
  { destruct a as [i t l b d]. unfold flipped. simpl. intros [= Hb]. by destruct b. }
  split; [done|]. split.
  - unfold s'. rewrite toggleAlarm_alarms. intros (b & Hb & Hbin)%list_elem_of_fmap.
    destruct (String.eqb_spec (id b) (id a)) as [Heq|Hneq].
    + assert (b = a) as ->.
      { apply Hst in Hbin, Hin. rewrite Heq in Hbin. congruence. }
      destruct a as [i t l [] d]; discriminate.
    + by subst.
  - split; [done|]. rewrite Hstore. split; [by apply Hst|].
    intros (_ & _ & Hst'). specialize (Hst' _ Hflip). rewrite Hstore in Hst'.
    change (id (flipped a)) with (id a) in Hst'. rewrite (Hst a Hin) in Hst'.
    injection Hst' as Heq. by apply Hne.
Qed.

Section WithHost.
Context `{Host}.

Lemma coherent_checkAlarms now o s : coherent s → coherent (checkAlarms now o s).
Proof.
  intros (Hk & Hnd & Hst). unfold checkAlarms.
  destruct (ringingAlarm s); [done|].
  destruct (find _ (alarms s)) as [alarm|] eqn:Hfind; [|done].
  destruct (length (days alarm) =? 0)%nat; [|done].
  destruct o; simpl; [|done].
  split; [apply (keyed_insert _ (deactivated alarm)), Hk|]. simpl. split.
  - rewrite fmap_id_replace; [done|]. intros a.
    by destruct (String.eqb_spec (id a) (id alarm)).
  - intros a' (a & -> & Hin)%list_elem_of_fmap.
    destruct (String.eqb_spec (id a) (id alarm)) as [Heq|Hne]; simpl.
    + apply lookup_insert_eq.
    + rewrite lookup_insert_ne by done. by apply Hst.
Qed.

Lemma coherent_addAlarm t l b d s :
  coherent s → toString (clock s) ∉ id <$> alarms s →
  coherent (addAlarm onsuccess t l b d s).
Proof.
  intros (Hk & Hnd & Hst) Hfresh. unfold addAlarm. simpl.
  set (newAlarm := mkAlarm _ t l b d).
  split; [apply (keyed_insert _ newAlarm), Hk|]. simpl. split.
  - rewrite sort_perm, fmap_app. simpl.
    apply NoDup_app. split; [done|]. split; [|apply NoDup_singleton].
    intros i Hi ->%list_elem_of_singleton. done.
  - intros a. rewrite sort_elem_of, elem_of_app, list_elem_of_singleton.
    intros [Hin| ->].
    + rewrite lookup_insert_ne; [by apply Hst|].
      intros Heq. apply Hfresh. simpl in Heq. rewrite Heq. by apply list_elem_of_fmap_2.
    + apply (lookup_insert_eq (store s) (id newAlarm)).
Qed.

Lemma coherent_toggleAlarm o key s :
  coherent s → (o = onerror → key ∉ id <$> alarms s) →
  coherent (toggleAlarm o key s).
Proof.
  intros (Hk & Hnd & Hst) Ho. unfold coherent.
  rewrite toggleAlarm_store, toggleAlarm_alarms.
  assert (∀ a, id (if id a =? key then flipped a else a) = id a) as Hid
    by (intros a; by destruct (id a =? key)).
  rewrite (fmap_id_replace _ _ Hid).
  destruct (find (λ a, id a =? key) (alarms s)) as [a0|] eqn:Hfind.
  - apply find_some in Hfind as [Hin0%list_elem_of_In Heq0%String.eqb_eq].
    destruct o.
    + split; [apply (keyed_insert _ (flipped a0)), Hk|]. split; [done|].
      intros a' (a & -> & Hin)%list_elem_of_fmap.
      destruct (String.eqb_spec (id a) key) as [Heq|Hne]; simpl.
      * assert (a = a0) as ->.
        { apply Hst in Hin, Hin0. rewrite Heq, <- Heq0 in Hin. congruence. }
        apply lookup_insert_eq.
      * rewrite lookup_insert_ne by congruence. by apply Hst.
    + destruct Ho; [done|]. rewrite <- Heq0. by apply list_elem_of_fmap_2.
  - split; [done|]. split; [done|].
    intros a' (a & -> & Hin)%list_elem_of_fmap.
    destruct (String.eqb_spec (id a) key) as [Heq|Hne]; [|by apply Hst].
    apply list_elem_of_In in Hin.
    eapply find_none in Hfind; [|exact Hin]. simpl in Hfind.
    apply String.eqb_neq in Hfind. done.
Qed.

Lemma coherent_deleteAlarm o key s : coherent s → coherent (deleteAlarm o key s).
Proof.
  intros (Hk & Hnd & Hst). unfold deleteAlarm. destruct o; simpl; [|done].
  split; [by apply keyed_delete|]. simpl. split.
  - clear Hst. induction (alarms s) as [|a l IH]; [constructor|].
    simpl in Hnd. apply NoDup_cons in Hnd as [Ha Hnd].
    rewrite filter_cons. destruct (decide (id a ≠ key)); [|by apply IH].
    simpl. apply NoDup_cons. split; [|by apply IH].
    intros (b & Hb & Hbin%list_elem_of_filter)%list_elem_of_fmap.
    apply Ha. rewrite Hb. apply list_elem_of_fmap_2. tauto.
  - intros a [Hne Hin]%list_elem_of_filter.
    rewrite lookup_delete_ne by congruence. by apply Hst.
Qed.

Lemma coherent_loadAlarms o s : coherent s → coherent (loadAlarms o s).
Proof.
  intros (Hk & Hnd & Hst). unfold loadAlarms. destruct o; simpl; [|done].
  split; [done|]. simpl. split.
  - rewrite sort_perm. by apply keyed_getAll_NoDup.
  - intros a. rewrite sort_elem_of, getAll_elem_of. intros [k Hlook].
    by rewrite (Hk k a Hlook).
Qed.

(** X6.  The alarm list stays a faithful cache of the store (distinct ids,
    every alarm of the list stored as it is under its id) through every
    event of the component, where an alarm is added under an id that the
    list does not hold yet and no [put] of a toggle of a listed alarm
    fails. *)
Theorem coherent_step s e : coherent s → safe s e → coherent (step s e).
Proof.
  intros Hc Hsafe.
  destruct e as [now o| |o t l b d|o key|o key|o|d]; simpl.
  - by apply coherent_checkAlarms.
  - unfold stopRinging. by destruct (ringingAlarm s).
  - destruct o; [by apply coherent_addAlarm|done].
  - apply coherent_toggleAlarm; [done|]. by intros ->.
  - by apply coherent_deleteAlarm.
  - by apply coherent_loadAlarms.
  - done.
Qed.

End WithHost.

End AlarmCacheFacts.

(* ------------------------------------------------------------------------- *)
(** ** The alarm list: its order, the timers, the clock string *)

Module AlarmListFacts.
Import Types JS DB AlarmClock SortFacts AlarmClockFacts.

Lemma StronglySorted_stdpp_filter {A} (R : A → A → Prop) (P : A → Prop)
    `{∀ x, Decision (P x)} (l : list A) :
  StronglySorted R l → StronglySorted R (filter P l).
Proof.
  induction 1 as [|a l Hl IH Ha]; [constructor|].
  rewrite filter_cons. destruct (decide (P a)); [|done].
  constructor; [done|]. rewrite Forall_forall in Ha |- *.
  intros b [_ Hb]%list_elem_of_filter. by apply Ha.
Qed.

Lemma StronglySorted_map_key {A K} (key : A → K) (R : K → K → Prop) (f : A → A)
    (l : list A) :
  (∀ a, a ∈ l → key (f a) = key a) →
  StronglySorted (λ a b, R (key a) (key b)) l →
  StronglySorted (λ a b, R (key a) (key b)) (map f l).
Proof.
  intros Hf Hl. induction Hl as [|a l Hl IH Ha]; simpl; [constructor|].
  constructor.
  - apply IH. intros b Hb. apply Hf. by right.
  - rewrite Forall_forall in Ha |- *.
    intros b' (b & -> & Hb)%list_elem_of_fmap.
    rewrite (Hf a) by left. rewrite (Hf b) by (by right). by apply Ha.
Qed.

Lemma NoDup_id_eq (l : list Alarm) (a b : Alarm) :
  NoDup (id <$> l) → a ∈ l → b ∈ l → id a = id b → a = b.
Proof.
  induction l as [|c l IH]; intros Hnd Ha Hb Heq; [by apply elem_of_nil in Ha|].
  rewrite fmap_cons in Hnd. apply NoDup_cons in Hnd as [Hc Hnd].
  apply elem_of_cons in Ha as [->|Ha]; apply elem_of_cons in Hb as [->|Hb];
    [done| | |by apply IH].
  - destruct Hc. rewrite Heq. by apply list_elem_of_fmap_2.
  - destruct Hc. rewrite <- Heq. by apply list_elem_of_fmap_2.
Qed.

Section WithHost.
Context `{Host}.

Lemma byTime_consistent :
  consistent localeCompare (λ _, True) →
  consistent (λ a b : Alarm, localeCompare (time a) (time b)) (λ _, True).
Proof.
  intros [Htotal Htrans]. split.
  - intros a b _ _. by apply Htotal.
  - intros a b c _ _ _. by apply Htrans.
Qed.

(** X7.  Where [localeCompare] is a consistent comparator and the ids of
    the alarm list are distinct, an alarm list that is in ascending order of
    the time strings is still in that order after any event of the
    component: a tick, a dismissal, an add, a toggle, a delete, a load, time
    passing. *)
Theorem alarms_stay_ordered s e :
  consistent localeCompare (λ _, True) →
  NoDup (id <$> alarms s) →
  ordered (λ a b, localeCompare (time a) (time b)) (alarms s) →
  ordered (λ a b, localeCompare (time a) (time b)) (alarms (step s e)).
Proof.
  intros Hc%byTime_consistent Hnd Ho.
  destruct e as [now o| |o t l b d|o key|o key|o|d]; simpl.
  - unfold checkAlarms. destruct (ringingAlarm s); [done|].
    destruct (find _ (alarms s)) as [alarm|] eqn:Hfind; [|done].
    destruct (length (days alarm) =? 0)%nat; [|done].
    destruct o; simpl; [|done].
    apply find_some in Hfind as [Hin%list_elem_of_In _].
    apply (StronglySorted_map_key time (λ x y, (localeCompare x y ≤ 0)%Z)); [|done].
    intros a Ha. destruct (String.eqb_spec (id a) (id alarm)) as [Heq|]; [|done].
    by rewrite (NoDup_id_eq _ a alarm Hnd Ha Hin Heq).
  - unfold stopRinging. by destruct (ringingAlarm s).
  - unfold addAlarm. destruct o; simpl; [|done].
    apply (sort_ordered (λ a b : Alarm, localeCompare (time a) (time b)) (λ _, True)); [done|]. by apply Forall_forall.
  - apply (StronglySorted_map_key time (λ x y, (localeCompare x y ≤ 0)%Z)); [|done].
    intros a _. by destruct (id a =? key).
  - unfold deleteAlarm. destruct o; simpl; [|done].
    by apply StronglySorted_stdpp_filter.
  - unfold loadAlarms. destruct o; simpl; [|done].
    apply (sort_ordered (λ a b : Alarm, localeCompare (time a) (time b)) (λ _, True)); [done|]. by apply Forall_forall.
  - done.
Qed.

End WithHost.

(** *** Time that passes in two steps *)

Lemma foldl_unignore_filter (due : list (Z * string)) (ignore : list string) :
  foldl (λ prev t, unignore t.2 prev) ignore due
  = filter (λ i, i ∉ due.*2) ignore.
Proof.
  revert ignore. induction due as [|[t0 i0] due IH]; intros ignore; simpl.
  - induction ignore as [|i ignore IHi]; [done|].
    rewrite filter_cons. destruct (decide (i ∉ [])) as [_|Hn]; [by rewrite <- IHi|].
    destruct Hn. apply not_elem_of_nil.
  - rewrite IH. unfold unignore. rewrite list_filter_filter.
    apply list_filter_iff. intros i. rewrite not_elem_of_cons. tauto.
Qed.

(** X8.  The callbacks that [stopRinging] schedules do not depend on each
    other: letting [d1] and then [d2] milliseconds pass leaves the state
    that letting [d1 + d2] milliseconds pass at once leaves. *)
Theorem elapse_elapse d1 d2 s : elapse d2 (elapse d1 s) = elapse (d1 + d2) s.
Proof.
  unfold elapse. simpl.
  assert ((clock s + Z.of_N d1 + Z.of_N d2 = clock s + Z.of_N (d1 + d2))%Z) as Hc by lia.
  rewrite Hc. set (c1 := (clock s + Z.of_N d1)%Z). set (c2 := (clock s + Z.of_N (d1 + d2))%Z).
  assert (c1 ≤ c2)%Z as Hle by (unfold c1, c2; lia).
  f_equal.
  - rewrite !foldl_unignore_filter, list_filter_filter.
    apply list_filter_iff. intros i.
    rewrite !list_elem_of_fmap. split.
    + intros [H1 H2] ([t j] & -> & [Ht Hin]%list_elem_of_filter). simpl in *.
      destruct (decide (t ≤ c1)%Z).
      * apply H2. exists (t, j). split; [done|]. by apply list_elem_of_filter.
      * apply H1. exists (t, j). split; [done|]. apply list_elem_of_filter.
        split; [done|]. apply list_elem_of_filter. simpl. split; [lia|done].
    + intros Hn. split.
      * intros ([t j] & -> & [Ht [Ht' Hin]%list_elem_of_filter]%list_elem_of_filter).
        apply Hn. exists (t, j). split; [done|]. by apply list_elem_of_filter.
      * intros ([t j] & -> & [Ht Hin]%list_elem_of_filter). simpl in *.
        apply Hn. exists (t, j). split; [done|]. apply list_elem_of_filter.
        simpl. split; [lia|done].
  - rewrite list_filter_filter. apply list_filter_iff. intros [t j]. simpl. lia.
Qed.

(** *** The clock string *)

Lemma currentTime_read h m d :
  h < 24 → m < 60 →
  UtcHost.number (String.substring 0 2 (currentTime (mkDate h m d))) = Some (Z.of_nat h)
  ∧ UtcHost.number (String.substring 3 2 (currentTime (mkDate h m d))) = Some (Z.of_nat m).
Proof.
  intros Hh Hm.
  assert (forallb (λ h, forallb (λ m,
            bool_decide
              (UtcHost.number (String.substring 0 2 (currentTime (mkDate h m 0)))
               = Some (Z.of_nat h))
            && bool_decide
              (UtcHost.number (String.substring 3 2 (currentTime (mkDate h m 0)))
               = Some (Z.of_nat m))) (seq 0 60))
          (seq 0 24) = true) as Hall by (vm_compute; reflexivity).
  rewrite forallb_forall in Hall.
  specialize (Hall h ltac:(apply in_seq; lia)).
  rewrite forallb_forall in Hall.
  specialize (Hall m ltac:(apply in_seq; lia)).
  apply andb_true_iff in Hall as [H1%bool_decide_eq_true H2%bool_decide_eq_true].
  done.
Qed.

(** X9.  The clock string that [checkAlarms] compares the alarm times with
    tells the minute of the day: two clock readings (hour below 24, minute
    below 60) with the same string have the same hour and the same
    minute. *)
Theorem currentTime_injective now now' :
  getHours now < 24 → getMinutes now < 60 →
  getHours now' < 24 → getMinutes now' < 60 →
  currentTime now = currentTime now' →
  getHours now = getHours now' ∧ getMinutes now = getMinutes now'.
Proof.
  destruct now as [h m d], now' as [h' m' d']. simpl. intros Hh Hm Hh' Hm' Heq.
  destruct (currentTime_read h m d Hh Hm) as [H1 H2].
  destruct (currentTime_read h' m' d' Hh' Hm') as [H1' H2'].
  rewrite Heq in H1, H2. rewrite H1' in H1. rewrite H2' in H2.
  injection H1 as H1. injection H2 as H2. lia.
Qed.

(** *** Two alarms for one minute *)

(** What [checkAlarms] does to the alarm list when it makes [first] ring. *)
Lemma checkAlarms_alarms now o s first :
  ringingAlarm s = None →
  find (matches now (ignoreForThisMinute s)) (alarms s) = Some first →
  ∃ g, alarms (checkAlarms now o s) = map g (alarms s)
       ∧ ignoreForThisMinute (checkAlarms now o s) = ignoreForThisMinute s
       ∧ timeouts (checkAlarms now o s) = timeouts s
       ∧ ∀ a, g a = a ∨ (id a = id first ∧ g a = deactivated first).
Proof.
  intros Hnone Hfind. unfold checkAlarms. rewrite Hnone, Hfind.
  assert (∃ g, alarms s = map g (alarms s)
               ∧ ∀ a : Alarm, g a = a ∨ (id a = id first ∧ g a = deactivated first))
    as (g0 & Hg0 & Hg0').
  { exists (λ a, a). split; [by rewrite map_id|]. by left. }
  destruct (length (days first) =? 0)%nat; [|by exists g0].
  destruct o; simpl; [|by exists g0].
  eexists. split; [done|]. split; [done|]. split; [done|].
  intros a. simpl. destruct (String.eqb_spec (id a) (id first)); auto.
Qed.

Lemma matches_suppressed now ignore a i :
  matches now (ignore ++ [i]) a = true ↔ matches now ignore a = true ∧ id a ≠ i.
Proof.
  unfold matches. rewrite !andb_true_iff, !negb_true_iff, !includes_false.
  rewrite not_elem_of_app, list_elem_of_singleton. tauto.
Qed.

(** X10.  Two alarms of different ids that satisfy the condition of the
    loop at the same tick, with no other such alarm before the second: the
    tick makes the first ring, and after it is dismissed the next tick
    within the same minute makes the second ring. *)
Theorem second_alarm_rings_after_dismissal now o o' s before first between second after :
  ringingAlarm s = None →
  alarms s = before ++ first :: between ++ second :: after →
  Forall (λ a, matches now (ignoreForThisMinute s) a = false) before →
  matches now (ignoreForThisMinute s) first = true →
  Forall (λ a, matches now (ignoreForThisMinute s) a = false) between →
  matches now (ignoreForThisMinute s) second = true →
  id second ≠ id first →
  ringingAlarm (checkAlarms now o s) = Some first
  ∧ ringingAlarm (checkAlarms now o' (stopRinging (checkAlarms now o s))) = Some second.
Proof.
  intros Hnone Halarms Hbefore Hfirst Hbetween Hsecond Hne.
  assert (find (matches now (ignoreForThisMinute s)) (alarms s) = Some first) as Hfind.
  { rewrite Halarms, (find_app_none _ _ _ Hbefore). simpl. by rewrite Hfirst. }
  assert (ringingAlarm (checkAlarms now o s) = Some first) as Hring
    by (by rewrite ringingAlarm_checkAlarms).
  split; [done|].
  destruct (checkAlarms_alarms now o s first Hnone Hfind) as (g & Hg & Hig & _ & Hg').
  set (s1 := checkAlarms now o s) in *.
  rewrite ringingAlarm_checkAlarms by (unfold stopRinging; by rewrite Hring).
  unfold stopRinging. rewrite Hring. simpl. rewrite Hg, Hig, Halarms.
  set (ignore' := ignoreForThisMinute s ++ [id first]).
  assert (∀ a, matches now (ignoreForThisMinute s) a = false ∨ id a = id first →
               matches now ignore' (g a) = false) as Hno.
  { intros a Ha. apply not_true_is_false. intros Hm.
    apply matches_suppressed in Hm as [Hm Hid].
    destruct (Hg' a) as [Heq|[Heq1 Heq2]].
    - rewrite Heq in Hm, Hid. destruct Ha; congruence.
    - rewrite Heq2 in Hm. unfold matches in Hm. simpl in Hm. done. }
  rewrite !map_app. simpl. rewrite map_app. simpl.
  rewrite find_app_none.
  2:{ apply Forall_forall. intros a' (a & -> & Hin)%list_elem_of_fmap.
      rewrite Forall_forall in Hbefore. apply Hno. left. by apply Hbefore. }
  simpl. rewrite (Hno first) by (by right).
  rewrite find_app_none.
  2:{ apply Forall_forall. intros a' (a & -> & Hin)%list_elem_of_fmap.
      rewrite Forall_forall in Hbetween. apply Hno. left. by apply Hbetween. }
  simpl. destruct (Hg' second) as [->|[? _]]; [|done].
  assert (matches now ignore' second = true) as ->; [|done].
  by apply matches_suppressed.
Qed.

End AlarmListFacts.

(* ------------------------------------------------------------------------- *)
(** ** The days selected in the modal *)

Module AddAlarmModalFacts.
Import JS AlarmClockFacts AddAlarmModal.

Lemma toggleDay_elem_of d d' prev :
  d' ∈ toggleDay d prev ↔ (d' ≠ d ∧ d' ∈ prev) ∨ (d' = d ∧ d ∉ prev).
Proof.
  unfold toggleDay. destruct (includes prev d) eqn:Hin.
  - apply includes_true in Hin. rewrite list_elem_of_filter. split; [tauto|].
    intros [?|[-> ?]]; done.
  - apply includes_false in Hin. rewrite elem_of_app, list_elem_of_singleton.
    split.
    + intros [Hd'| ->]; [|tauto]. left. split; [|done]. by intros ->.
    + tauto.
Qed.

Lemma toggleDay_NoDup d prev : NoDup prev → NoDup (toggleDay d prev).
Proof.
  intros Hnd. unfold toggleDay. destruct (includes prev d) eqn:Hin.
  - by apply NoDup_filter.
  - apply includes_false in Hin. apply NoDup_app. split; [done|].
    split; [|apply NoDup_singleton]. by intros x Hx ->%list_elem_of_singleton.
Qed.

Lemma presses_app d es es' : presses d (es ++ es') = presses d es + presses d es'.
Proof.
  induction es as [|e es IH]; [done|]. destruct e; simpl; rewrite ?IH; lia.
Qed.

Lemma run_app es es' m : run (es ++ es') m = run es' (run es m).
Proof. apply foldl_app. Qed.

(** X11.  The days selected in [AddAlarmModal] after any sequence of edits
    and presses of the day buttons: no day is in the list twice, a day is in
    the list if and only if its button has been pressed an odd number of
    times, and every day of the list is one whose button has been
    pressed. *)
Theorem selected_days es :
  let m := run es initial in
  NoDup (days m)
  ∧ (∀ d, d ∈ days m ↔ Nat.Odd (presses d es))
  ∧ (∀ d, d ∈ days m → ToggleDay d ∈ es).
Proof.
  simpl. induction es as [|e es IH] using rev_ind.
  - simpl. split; [constructor|]. split.
    + intros d. split; [by intros ?%elem_of_nil|]. intros [k Hk]. lia.
    + by intros d ?%elem_of_nil.
  - destruct IH as (Hnd & Hodd & Hin). rewrite run_app. simpl.
    destruct e as [v|v|d0]; simpl.
    + split; [done|]. split.
      * intros d. rewrite presses_app. simpl. rewrite Nat.add_0_r. apply Hodd.
      * intros d Hd. apply elem_of_app. left. by apply Hin.
    + split; [done|]. split.
      * intros d. rewrite presses_app. simpl. rewrite Nat.add_0_r. apply Hodd.
      * intros d Hd. apply elem_of_app. left. by apply Hin.
    + split; [by apply toggleDay_NoDup|]. split.
      * intros d. rewrite presses_app, toggleDay_elem_of. simpl.
        rewrite !Hodd. destruct (decide (d0 = d)) as [->|Hne].
        -- rewrite Nat.add_0_r, Nat.add_1_r, Nat.Odd_succ.
           pose proof (Nat.Even_or_Odd (presses d es)) as Heo.
           pose proof (Nat.Even_Odd_False (presses d es)) as Hno.
           tauto.
        -- rewrite !Nat.add_0_r. split; [intros [[_ ?]|[? _]]; [done|by subst]|].
           intros Ho. left. split; [by intros ->|done].
      * intros d [[_ Hd]|[-> _]]%toggleDay_elem_of.
        -- apply elem_of_app. left. by apply Hin.
        -- apply elem_of_app. right. by left.
Qed.

End AddAlarmModalFacts.

(* ------------------------------------------------------------------------- *)
(** ** The gateway and its client: which requests succeed *)

Module GatewayMoreFacts.
Import JS JSON Gateway GatewayNames GatewayFacts.

Section WithRuntime.
Context `{Runtime}.

Lemma dispatch_bodyText (event : HandlerEvent.t) (fields : list (string * json)) :
  JSON_parse (bodyText (HandlerEvent.body event)) = inr (JObj fields) →
  dispatch event
  = match field "type" fields with
    | Some (JStr name) =>
        if name =? "analyzeSleepAudio" then handleAnalyzeSleepAudio (field "payload" fields)
        else if name =? "getHealthSuggestions"
             then handleGetHealthSuggestions (field "payload" fields)
        else if name =? "getWeeklyAnalysis"
             then handleGetWeeklyAnalysis (field "payload" fields)
        else if name =? "getHistoricalAnalysis"
             then handleGetHistoricalAnalysis (field "payload" fields)
        else inl (ErrorObject "Error"
                    ("Unknown API call type: " +:+ ToString_opt (field "type" fields)))
    | _ => inl (ErrorObject "Error"
                  ("Unknown API call type: " +:+ ToString_opt (field "type" fields)))
    end.
Proof.
  intros Hparse. unfold dispatch. fold (bodyText (HandlerEvent.body event)).
  rewrite Hparse. simpl. done.
Qed.


(** X13.  An [analyzeSleepAudio] request whose payload has no truthy
    [audioBase64] or whose [duration] is not a number is answered with
    status 500 and the message [Missing audio data or duration.], whatever
    the model would answer. *)
Theorem handler_rejects_incomplete_audio_request (body : option string)
    (fields : list (string * json)) (payload : json) (audioBase64 duration : option json) :
  JSON_parse (bodyText body) = inr (JObj fields) →
  field "type" fields = Some (JStr "analyzeSleepAudio") →
  field "payload" fields = Some payload →
  getProperty payload "audioBase64" = inr audioBase64 →
  getProperty payload "duration" = inr duration →
  truthy audioBase64 = false ∨ isNumber duration = false →
  handler (HandlerEvent.mk "POST" body)
  = HandlerResponse.mk 500 []
      (JSON_stringify (JObj [("error", JStr "Missing audio data or duration.")])).
Proof.
  intros Hparse Htype Hpayload Haudio Hduration Hbad. unfold handler. simpl.
  rewrite (dispatch_bodyText (HandlerEvent.mk "POST" body) fields Hparse).
  rewrite Htype, Hpayload. simpl. unfold handleAnalyzeSleepAudio. simpl.
  rewrite Haudio, Hduration.
  assert (negb (truthy audioBase64) || negb (isNumber duration) = true) as ->; [|done].
  destruct Hbad as [-> | ->]; [done|]. apply orb_true_r.
Qed.

(** X14.  The gateway answers with status 200 only to a POST whose body
    parses to an object that names one of the four operations and has a
    payload for which the call of the model has returned. *)
Theorem handler_200_needs_model (event : HandlerEvent.t) :
  HandlerResponse.statusCode (handler event) = 200%Z →
  HandlerEvent.httpMethod event = "POST"
  ∧ ∃ fields op payload answer,
      JSON_parse (bodyText (HandlerEvent.body event)) = inr (JObj fields)
      ∧ field "type" fields = Some (JStr (operationName op))
      ∧ field "payload" fields = Some payload
      ∧ generateContent op payload = inr answer.
Proof.
  unfold handler.
  destruct (String.eqb_spec (HandlerEvent.httpMethod event) "POST") as [Hpost|]; [|done].
  simpl. destruct (dispatch event) as [err|result] eqn:Hd; [done|]. intros _.
  split; [done|]. revert Hd. unfold dispatch. fold (bodyText (HandlerEvent.body event)).
  destruct (JSON_parse (bodyText (HandlerEvent.body event))) as [e|parsed] eqn:Hparse; [done|].
  destruct parsed as [|b|n|s|xs|fields]; try done; simpl.
  destruct (field "type" fields) as [[| | |name| |]|] eqn:Htype; try done.
  destruct (String.eqb_spec name "analyzeSleepAudio") as [->|_].
  { unfold handleAnalyzeSleepAudio.
    destruct (field "payload" fields) as [payload|] eqn:Hp; simpl; [|done].
    destruct (getProperty payload "audioBase64") as [e|a]; [done|].
    destruct (getProperty payload "duration") as [e|d]; [done|].
    destruct (negb (truthy a) || negb (isNumber d)); [done|].
    destruct (generateContent analyzeSleepAudio payload) as [e|answer] eqn:Hg; [done|].
    intros _. by exists fields, analyzeSleepAudio, payload, answer. }
  destruct (String.eqb_spec name "getHealthSuggestions") as [->|_].
  { unfold handleGetHealthSuggestions.
    destruct (field "payload" fields) as [payload|] eqn:Hp; simpl; [|done].
    destruct (getProperty payload "summary") as [e|a]; [done|].
    destruct (generateContent getHealthSuggestions payload) as [e|answer] eqn:Hg; [done|].
    intros _. by exists fields, getHealthSuggestions, payload, answer. }
  destruct (String.eqb_spec name "getWeeklyAnalysis") as [->|_].
  { unfold handleGetWeeklyAnalysis.
    destruct (field "payload" fields) as [[| | | |history|]|] eqn:Hp; try done.
    destruct (forallb weeklyEntry history); [|done].
    destruct (generateContent getWeeklyAnalysis (JArr history)) as [e|answer] eqn:Hg; [done|].
    intros _. by exists fields, getWeeklyAnalysis, (JArr history), answer. }
  destruct (String.eqb_spec name "getHistoricalAnalysis") as [->|_]; [|done].
  unfold handleGetHistoricalAnalysis.
  destruct (field "payload" fields) as [[| | | |history|]|] eqn:Hp; try done.
  destruct (forallb historicalEntry history); [|done].
  destruct (generateContent getHistoricalAnalysis (JArr history)) as [e|answer] eqn:Hg; [done|].
  intros _. by exists fields, getHistoricalAnalysis, (JArr history), answer.
Qed.

End WithRuntime.
End GatewayMoreFacts.

Module ApiFacts.
Import Types JS JSON Api.

(** X15.  [postToApi] resolves with a value if and only if [fetch] has
    resolved with a response whose status is 200 to 299 and whose body is
    JSON, and the value is then the parsed body. *)
Theorem postToApi_resolves {T} (fetched : Thrown + Response T) (value : T) :
  postToApi fetched = inr value
  ↔ ∃ response any, fetched = inr response ∧ ok response = true
                    ∧ json_ response = resolves any value.
Proof.
  unfold postToApi. split.
  - destruct fetched as [e|response]; [done|].
    destruct (ok response) eqn:Hok; simpl.
    + destruct (json_ response) as [e|any typed] eqn:Hj; [done|].
      intros [= ->]. by exists response, any.
    + by destruct (getProperty _ "error").
  - intros (response & any & -> & -> & ->). done.
Qed.

End ApiFacts.

(* ------------------------------------------------------------------------- *)
(** ** The recording session controller: start, stop, what is held *)

Module SessionFacts.
Import Types JS JSON DB SleepTracker Session GatewayFacts SleepTrackerFacts.

#[local] Opaque cleanup.

Section WithHost.
Context `{Host}.

Lemma status_cleanup s : status (cleanup s) = status s.
Proof. by destruct (cleanup_cells s) as (-> & _). Qed.

Lemma isLive_live track : isLive track = true ↔ readyState track = live.
Proof. unfold isLive. by destruct (readyState track). Qed.

Lemma starts_inv env :
  starts env ∨ startThrows env →
  mediaDevices env = true
  ∧ ∃ granted track tracks,
      getUserMedia env = inr granted ∧ getTracks granted = track :: tracks
      ∧ isLive track = true ∧ newMediaRecorder env = None.
Proof.
  intros [(Hm & (g & t & ts & Hg & Ht & Hl) & Hn & _)|(Hm & (g & t & ts & Hg & Ht & Hl) & Hn & _)];
    (split; [done|]); exists g, t, ts; by rewrite isLive_live.
Qed.

Lemma outcome_error (st : TrackerStatus) (P Q : Prop) :
  st = error → ¬ (P ∨ Q) →
  (st = tracking ↔ P) ∧ (st = requesting ↔ Q) ∧ (st = error ↔ ¬ P ∧ ¬ Q).
Proof. intros -> Hn. repeat split; try done; tauto. Qed.

(** X16.  [handleStartTracking] leaves the controller in [tracking] if and
    only if the browser has [getUserMedia], the user grants a stream whose
    first track is live, and neither [new MediaRecorder] nor [start] throws;
    in [requesting] if and only if only [start] throws; and in [error] in
    every other case. *)
Theorem handleStartTracking_outcome env s :
  let s' := handleStartTracking env s in
  (status s' = tracking ↔ starts env)
  ∧ (status s' = requesting ↔ startThrows env)
  ∧ (status s' = error ↔ ¬ starts env ∧ ¬ startThrows env).
Proof.
  cbv zeta.
  pose proof (starts_inv env) as Hinv.
  assert (mediaDevices env = true →
          (∃ granted track tracks,
             getUserMedia env = inr granted ∧ getTracks granted = track :: tracks
             ∧ isLive track = true) →
          newMediaRecorder env = None →
          match startRecorder env with
          | Some _ => startThrows env ∧ ¬ starts env
          | None => starts env ∧ ¬ startThrows env
          end) as Hgood.
  { intros Hm (g & t & ts & Hg & Ht & Hl%isLive_live) Hn.
    unfold starts, startThrows.
    destruct (startRecorder env) as [e|]; split.
    - repeat split; [done|by exists g, t, ts|done|by exists e].
    - by intros (_ & _ & _ & ?).
    - split; [done|]. split; [by exists g, t, ts|done].
    - by intros (_ & _ & _ & ? & ?). }
  unfold handleStartTracking, updateError.
  destruct (mediaDevices env); simpl.
  2:{ apply outcome_error; [by rewrite status_cleanup|].
      by intros [? _]%Hinv. }
  destruct (getUserMedia env) as [err|granted].
  { apply outcome_error.
    - destruct (isNotAllowedError err); by rewrite status_cleanup.
    - by intros (_ & ? & ? & ? & ? & _)%Hinv. }
  destruct (getTracks granted) as [|track tracks] eqn:Htracks.
  { apply outcome_error; [by rewrite status_cleanup|].
    intros (_ & ? & ? & ? & [= <-] & ? & _)%Hinv. congruence. }
  assert (active granted = isLive track || existsb isLive tracks) as Hactive
    by (unfold active; by rewrite Htracks).
  destruct (isLive track) eqn:Hlive.
  2:{ assert (¬ (starts env ∨ startThrows env)) as Hno.
      { intros (_ & ? & ? & ? & [= <-] & Ht & ? & _)%Hinv.
        rewrite Htracks in Ht. injection Ht as <- <-. congruence. }
      destruct (active granted); simpl; (apply outcome_error; [by rewrite status_cleanup|done]). }
  rewrite Hactive. simpl.
  destruct (newMediaRecorder env) as [e|].
  { apply outcome_error; [by rewrite status_cleanup|].
    by intros (_ & ? & ? & ? & _ & _ & _ & ?)%Hinv. }
  specialize (Hgood eq_refl ltac:(by exists granted, track, tracks) eq_refl).
  destruct (startRecorder env) as [e|]; simpl; destruct Hgood as [Hyes Hno];
    intuition congruence.
Qed.

(** The [try] block with its [catch] writes five cells and nothing else. *)
Lemma tryAnalysis_frame env s :
  ∃ st an hs er hist,
    final (tryAnalysis env) s
    = set_history hist (setError er (setHealthSuggestions hs
        (setAnalysisData an (setStatus st s)))).
Proof.
  unfold tryAnalysis.
  assert (∀ err x, final (catch err) x
                   = setStatus error (setError [orString (message err)
                       "Failed to analyze sleep audio. Please try again."] x)) as Hcatch.
  { intros err x. unfold catch. by rewrite final_seq, !final_upd. }
  destruct (Api.analyzeSleepAudio (analysisFetched env)) as [err|result].
  { rewrite Hcatch. eexists error, (analysisData s), (healthSuggestions s), _, (history s).
    by destruct s. }
  rewrite final_seq, final_upd.
  set (data := withDate result (toISOString (completedAt env))).
  destruct (addSleepSession (addOutcome env) data (history s)) as [history'|] eqn:Hadd.
  - rewrite (final_cases _
               (upd (set_history history') >>>
                match Api.getHealthSuggestions (suggestionsFetched env) with
                | inl err => catch err
                | inr suggestions =>
                    upd (setHealthSuggestions suggestions) >>> upd (setStatus results)
                end))
      by (simpl; by rewrite Hadd).
    rewrite final_seq, final_upd.
    destruct (Api.getHealthSuggestions (suggestionsFetched env)) as [err|text].
    + rewrite Hcatch. eexists error, (Some data), (healthSuggestions s), _, history'.
      by destruct s.
    + rewrite final_seq, !final_upd.
      exists results, (Some data), text, (error_ s), history'. by destruct s.
  - rewrite (final_cases _ (catch (ThrownString "Error adding sleep session")))
      by (simpl; by rewrite Hadd).
    rewrite Hcatch. eexists error, (Some data), (healthSuggestions s), _, (history s).
    by destruct s.
Qed.

(** How [handleStopAndAnalyze] ends: nothing happens, or the recorder is
    stopped, the last chunk is buffered, and then either no chunk is there,
    or the recording gets its URL and is read and analysed, or is not read. *)
Lemma handleStopAndAnalyze_final env s :
  final (handleStopAndAnalyze env) s = s
  ∨ ∃ r rec,
      mediaRecorderRef s = Some r ∧ recorders s !! r = Some rec ∧ isRecording rec = true
      ∧ let x := ondataavailable (lastData env)
                   (set_recorders (<[r := stopRecorder rec]> (recorders s)) s) in
        let y := setAudioURL (Some (objectURL env))
                   (set_objectURLs ({[objectURL env]} ∪ objectURLs x)
                      (setStatus analyzing x)) in
        (audioChunksRef x = []
         ∧ final (handleStopAndAnalyze env) s
           = cleanup (setStatus error (setError ["[Final Check] No audio chunks were recorded. The stream might have been silent or stopped unexpectedly."] (setStatus analyzing x))))
        ∨ (audioChunksRef x ≠ []
           ∧ ((∃ data, readerResult env = Some data
                 ∧ final (handleStopAndAnalyze env) s
                   = cleanup (final (tryAnalysis env) y))
              ∨ (readerResult env = None
                 ∧ final (handleStopAndAnalyze env) s = y))).
Proof.
  destruct (mediaRecorderRef s) as [r|] eqn:Hr;
    [|left; by rewrite (final_cases _ skip) by (unfold handleStopAndAnalyze; by rewrite Hr)].
  destruct (recorders s !! r) as [rec|] eqn:Hrec;
    [|left; by rewrite (final_cases _ skip)
          by (unfold handleStopAndAnalyze; by rewrite Hr, Hrec)].
  destruct (isRecording rec) eqn:Hrecording;
    [|left; by rewrite (final_cases _ skip)
          by (unfold handleStopAndAnalyze; by rewrite Hr, Hrec, Hrecording)].
  right. exists r, rec. split; [done|]. split; [done|]. split; [done|].
  rewrite (final_cases _
             (upd (set_recorders (<[r := stopRecorder rec]> (recorders s))) >>>
              upd (ondataavailable (lastData env)) >>> onstop env))
    by (unfold handleStopAndAnalyze; by rewrite Hr, Hrec, Hrecording).
  rewrite !final_seq, !final_upd. cbv zeta.
  set (x := ondataavailable (lastData env)
              (set_recorders (<[r:=stopRecorder rec]> (recorders s)) s)).
  clearbody x. unfold onstop. rewrite final_seq, final_upd.
  destruct (length (audioChunksRef x) =? 0)%nat eqn:Hchunks.
  - left. rewrite (final_cases _
               (upd (setError ["[Final Check] No audio chunks were recorded. The stream might have been silent or stopped unexpectedly."]) >>>
                upd (setStatus error) >>> upd cleanup))
      by (simpl; by rewrite Hchunks).
    rewrite !final_seq, !final_upd. split; [|done].
    apply Nat.eqb_eq in Hchunks. by destruct (audioChunksRef x).
  - right. rewrite (final_cases _
               (upd (λ s, setAudioURL (Some (objectURL env))
                            (set_objectURLs ({[objectURL env]} ∪ objectURLs s) s)) >>>
                onloadend env))
      by (simpl; by rewrite Hchunks).
    rewrite final_seq, final_upd. unfold onloadend.
    split; [apply Nat.eqb_neq in Hchunks; by destruct (audioChunksRef x)|].
    destruct (readerResult env) as [data|].
    + left. exists data. split; [done|]. by rewrite final_seq, final_upd.
    + right. by rewrite final_skip.
Qed.

Lemma tryAnalysis_results env s :
  status (final (tryAnalysis env) s) = results → status s ≠ results →
  ∃ result text history',
    Api.analyzeSleepAudio (analysisFetched env) = inr result
    ∧ Api.getHealthSuggestions (suggestionsFetched env) = inr text
    ∧ addSleepSession (addOutcome env)
        (withDate result (toISOString (completedAt env))) (history s) = Some history'
    ∧ final (tryAnalysis env) s
      = setStatus results (setHealthSuggestions text (set_history history'
          (setAnalysisData (Some (withDate result (toISOString (completedAt env)))) s))).
Proof.
  unfold tryAnalysis.
  assert (∀ err x, status (final (catch err) x) = error) as Hcatch.
  { intros err x. unfold catch. by rewrite final_seq, !final_upd. }
  destruct (Api.analyzeSleepAudio (analysisFetched env)) as [err|result].
  { by rewrite Hcatch. }
  rewrite final_seq, final_upd.
  set (data := withDate result (toISOString (completedAt env))).
  destruct (addSleepSession (addOutcome env) data (history s)) as [history'|] eqn:Hadd.
  - rewrite (final_cases _
               (upd (set_history history') >>>
                match Api.getHealthSuggestions (suggestionsFetched env) with
                | inl err => catch err
                | inr suggestions =>
                    upd (setHealthSuggestions suggestions) >>> upd (setStatus results)
                end))
      by (simpl; by rewrite Hadd).
    rewrite final_seq, final_upd.
    destruct (Api.getHealthSuggestions (suggestionsFetched env)) as [err|text].
    + by rewrite Hcatch.
    + rewrite final_seq, !final_upd. intros _ _. by exists result, text, history'.
  - rewrite (final_cases _ (catch (ThrownString "Error adding sleep session")))
      by (simpl; by rewrite Hadd).
    by rewrite Hcatch.
Qed.

Lemma cells_cleanup s :
  status (cleanup s) = status s ∧ analysisData (cleanup s) = analysisData s
  ∧ healthSuggestions (cleanup s) = healthSuggestions s ∧ error_ (cleanup s) = error_ s
  ∧ audioURL (cleanup s) = audioURL s ∧ audioChunksRef (cleanup s) = audioChunksRef s
  ∧ objectURLs (cleanup s) = objectURLs s ∧ history (cleanup s) = history s.
Proof.
  destruct (cleanup_cells s) as (? & ? & ? & ? & ? & ? & ? & ? & ? & ?). done.
Qed.

(** X17.  A session stopped in [tracking] ends in [results] only if both
    gateway calls have resolved and the [add] request has succeeded under a
    date that was not taken: the history store then is the old one with the
    session added under its date, [analysisData] is that session,
    [healthSuggestions] the text of the gateway, [audioURL] the URL of the
    recording, and a chunk has been recorded. *)
Theorem results_only_if_saved env s :
  status s = tracking →
  status (final (handleStopAndAnalyze env) s) = results →
  ∃ result text,
    Api.analyzeSleepAudio (analysisFetched env) = inr result
    ∧ Api.getHealthSuggestions (suggestionsFetched env) = inr text
    ∧ addOutcome env = onsuccess
    ∧ let data := withDate result (toISOString (completedAt env)) in
      let s' := final (handleStopAndAnalyze env) s in
      history s !! date data = None
      ∧ history s' = <[date data := data]> (history s)
      ∧ analysisData s' = Some data
      ∧ healthSuggestions s' = text
      ∧ audioURL s' = Some (objectURL env)
      ∧ audioChunksRef s' ≠ [].
Proof.
  intros Hstatus Hresults.
  destruct (handleStopAndAnalyze_final env s) as [Heq|(r & rec & Hr & Hrec & Hrecording & Hcases)].
  { rewrite Heq in Hresults. congruence. }
  cbv zeta in Hcases.
  set (x := ondataavailable (lastData env)
              (set_recorders (<[r:=stopRecorder rec]> (recorders s)) s)) in *.
  assert (status x = tracking ∧ history x = history s) as [Hsx Hhx].
  { unfold x, ondataavailable. by destruct (0 <? size (lastData env))%nat. }
  destruct Hcases as [[_ Heq]|[Hchunks [(data & Hreader & Heq)|[_ Heq]]]].
  - rewrite Heq in Hresults.
    match type of Hresults with context [cleanup ?z] =>
      destruct (cells_cleanup z) as (E & _) end.
    rewrite E in Hresults. done.
  - rewrite Heq in Hresults |- *. cbv zeta.
    match type of Hresults with context [cleanup ?z] =>
      destruct (cells_cleanup z) as (E1 & E2 & E3 & _ & E5 & E6 & _ & E8) end.
    rewrite E1 in Hresults. rewrite E2, E3, E5, E6, E8. clear E1 E2 E3 E5 E6 E8.
    apply tryAnalysis_results in Hresults as (result & text & history' & Ha & Hs & Hadd & ->);
      [|done].
    exists result, text. split; [done|]. split; [done|]. simpl in Hadd |- *.
    rewrite Hhx in Hadd. unfold addSleepSession in Hadd.
    destruct (addOutcome env); [|done].
    destruct (history s !! _) eqn:Hlook; [done|]. injection Hadd as <-.
    by repeat split.
  - rewrite Heq in Hresults. done.
Qed.

(** X18.  The audio analysis is answered with a failure status: the
    controller ends in [error] with the history store unchanged, and the
    message it shows is the [error] string of the response body where that
    is a string that is not empty, [An unknown API error occurred.] where
    the body is no JSON, and [Failed to fetch data from API.] where the body
    is an object without a truthy [error]. *)
Theorem gateway_message_shown env s data response :
  readerResult env = Some data →
  analysisFetched env = inr response →
  Api.ok response = false →
  let s' := final (onloadend env) s in
  status s' = error
  ∧ history s' = history s
  ∧ (∀ syntaxError, Api.json_ response = Api.rejects syntaxError →
       error_ s' = ["An unknown API error occurred."])
  ∧ (∀ fields typed message,
       Api.json_ response = Api.resolves (JObj fields) typed →
       field "error" fields = Some (JStr message) → message ≠ "" →
       error_ s' = [message])
  ∧ (∀ fields typed,
       Api.json_ response = Api.resolves (JObj fields) typed →
       truthy (field "error" fields) = false →
       error_ s' = ["Failed to fetch data from API."]).
Proof.
  intros Hreader Hfetched Hok. cbv zeta. unfold onloadend. rewrite Hreader.
  rewrite final_seq, final_upd.
  match goal with |- context [cleanup ?z] =>
    destruct (cells_cleanup z) as (-> & _ & _ & -> & _ & _ & _ & ->) end.
  unfold tryAnalysis, Api.analyzeSleepAudio, Api.postToApi. rewrite Hfetched, Hok. simpl.
  destruct (Api.json_ response) as [e|any typed]; simpl.
  - repeat split; done.
  - destruct (getProperty any "error") as [e|v] eqn:Hprop; simpl.
    + repeat split; try done.
      * intros fields typed' message [= -> _]. done.
      * intros fields typed' [= -> _]. done.
    + repeat split; try done.
      * intros fields typed' message [= -> _] Hfield Hne. simpl in Hprop.
        injection Hprop as <-. rewrite Hfield. simpl.
        apply String.eqb_neq in Hne. rewrite Hne. simpl. by rewrite Hne.
      * intros fields typed' [= -> _] Hfalsy. simpl in Hprop.
        injection Hprop as <-. by rewrite Hfalsy.
Qed.

(** *** What a failed start leaves behind *)

Lemma updateError_released log msg now x :
  tracked x →
  released (updateError log msg now x).2
  ∧ error_ (updateError log msg now x).2
    = log ++ ["[" +:+ toLocaleTimeString now +:+ "] " +:+ msg].
Proof.
  intros Ht. unfold updateError. simpl. split.
  - apply cleanup_released. by apply (tracked_ext x).
  - match goal with |- context [cleanup ?z] =>
      destruct (cells_cleanup z) as (_ & _ & _ & -> & _) end. done.
Qed.

(** X19.  A start from [idle] that ends in [error] holds no resource (no
    interval runs, every track of every stream has ended, every recorder is
    inactive, the refs are empty) and shows the debug log, which begins with
    [Starting...] and ends with the time-stamped message of the failure. *)
Theorem failed_start_releases env s :
  invariant s → status s = idle →
  status (handleStartTracking env s) = error →
  released (handleStartTracking env s)
  ∧ ∃ log msg,
      msg ≠ ""
      ∧ error_ (handleStartTracking env s)
        = "Starting..." :: log ++ ["[" +:+ toLocaleTimeString (startedAt env) +:+ "] " +:+ msg].
Proof.
  intros [Ht Hidle] Hstatus. destruct (Hidle Hstatus) as (Hti & Hasr & Hmr).
  assert (tracked (setStatus requesting s)) as Ht0 by (by apply (tracked_ext s)).
  assert (∀ log msg x, tracked x → msg ≠ "" →
            released (updateError ("Starting..." :: log) msg (startedAt env) x).2
            ∧ ∃ log' msg',
                msg' ≠ ""
                ∧ error_ (updateError ("Starting..." :: log) msg (startedAt env) x).2
                  = "Starting..." :: log'
                    ++ ["[" +:+ toLocaleTimeString (startedAt env) +:+ "] " +:+ msg']) as Hfail.
  { intros log msg x Hx Hmsg.
    destruct (updateError_released ("Starting..." :: log) msg (startedAt env) x Hx) as [Hrel ->].
    split; [done|]. by exists log, msg. }
  unfold handleStartTracking.
  destruct (mediaDevices env); simpl negb; cbv iota; [|intros _; by apply Hfail].
  destruct (getUserMedia env) as [err|granted].
  { intros _. destruct (isNotAllowedError err); by apply Hfail. }
  set (h := fresh (dom (streams (setStatus requesting s)))).
  assert (tracked (set_audioStreamRef (Some h)
                     (set_streams (<[h := granted]> (streams (setStatus requesting s)))
                        (setStatus requesting s)))) as Ht1
    by (by apply tracked_acquire).
  destruct (getTracks granted) as [|track tracks]; [intros _; by apply Hfail|].
  destruct (active granted); simpl negb; cbv iota; [|intros _; by apply Hfail].
  destruct (isLive track); simpl negb; cbv iota; [|intros _; by apply Hfail].
  destruct (newMediaRecorder env) as [e|].
  { intros _. apply Hfail; [|done]. refine (tracked_ext _ _ _ Ht1). reflexivity. }
  by destruct (startRecorder env).
Qed.

(** X20.  Where [start] throws after the recorder has been created, the
    controller stays in [requesting] and keeps what it has acquired: the
    stream ref and the hidden audio element hold the granted stream, which
    is active, the recorder ref holds the recorder, which is inactive, and
    no interval has been started. *)
Theorem start_throws_holds_microphone env s :
  startThrows env →
  let s' := handleStartTracking env s in
  status s' = requesting
  ∧ timerIntervalRef s' = timerIntervalRef s
  ∧ ∃ h granted r rec,
      audioStreamRef s' = Some h ∧ srcObject s' = Some h
      ∧ streams s' !! h = Some granted ∧ active granted = true
      ∧ mediaRecorderRef s' = Some r ∧ recorders s' !! r = Some rec
      ∧ state rec = inactive.
Proof.
  intros (Hm & (granted & track & tracks & Hg & Htracks & Hlive) & Hn & [e He]).
  cbv zeta. unfold handleStartTracking.
  rewrite Hm, Hg, Htracks, Hn, He. simpl negb. cbv iota.
  assert (isLive track = true) as Hl by (by apply isLive_live).
  assert (active granted = true) as Ha by (unfold active; by rewrite Htracks; simpl; rewrite Hl).
  rewrite Ha, Hl. simpl.
  split; [done|]. split; [done|].
  eexists _, granted, _, _. repeat split.
  - apply lookup_insert_eq.
  - done.
  - apply lookup_insert_eq.
  - done.
Qed.

(** X21.  After a start that succeeds, [n] ticks of the interval that it
    has started leave the controller in [tracking] with a duration of [n]
    seconds. *)
Theorem duration_counts_ticks env s (n : nat) :
  starts env →
  let s' := run (replicate n (IntervalTick (Z.pos (intervalId env))))
              (handleStartTracking env s) in
  status s' = tracking ∧ duration s' = Z.of_nat n.
Proof.
  intros (Hm & (granted & track & tracks & Hg & Htracks & Hlive) & Hn & He).
  cbv zeta. unfold handleStartTracking.
  rewrite Hm, Hg, Htracks, Hn, He. simpl negb. cbv iota.
  assert (isLive track = true) as Hl by (by apply isLive_live).
  assert (active granted = true) as Ha by (unfold active; by rewrite Htracks; simpl; rewrite Hl).
  rewrite Ha, Hl. simpl negb. cbv iota.
  match goal with |- context [run _ ?x] => set (s0 := x) end.
  assert (status s0 = tracking ∧ duration s0 = 0%Z
          ∧ Z.pos (intervalId env) ∈ intervals s0) as Hs0.
  { unfold s0. simpl. repeat split. set_solver. }
  clearbody s0.
  assert (∀ k s1, status s1 = tracking → Z.pos (intervalId env) ∈ intervals s1 →
            let s2 := run (replicate k (IntervalTick (Z.pos (intervalId env)))) s1 in
            status s2 = tracking ∧ duration s2 = (duration s1 + Z.of_nat k)%Z) as Hticks.
  { induction k as [|k IH]; intros s1 Hst Hin; simpl; [split; [done|lia]|].
    rewrite bool_decide_eq_true_2 by done.
    destruct (IH (onInterval s1) Hst Hin) as [-> ->]. simpl. split; [done|lia]. }
  destruct Hs0 as (Hst & Hd & Hin).
  destruct (Hticks n s0 Hst Hin) as [-> ->]. split; [done|lia].
Qed.

(** *** What the handlers do to the buffered chunks and the object URLs *)

Lemma cells_updateError log msg now x :
  status (updateError log msg now x).2 = error
  ∧ audioURL (updateError log msg now x).2 = audioURL x
  ∧ objectURLs (updateError log msg now x).2 = objectURLs x
  ∧ audioChunksRef (updateError log msg now x).2 = audioChunksRef x.
Proof.
  unfold updateError. simpl.
  match goal with |- context [cleanup ?z] =>
    destruct (cells_cleanup z) as (-> & _ & _ & _ & -> & -> & -> & _) end. done.
Qed.

Lemma cells_handleStartTracking env s :
  let s' := handleStartTracking env s in
  audioURL s' = audioURL s
  ∧ objectURLs s' = objectURLs s
  ∧ (audioChunksRef s' = audioChunksRef s ∨ audioChunksRef s' = []).
Proof.
  cbv zeta.
  assert (∀ log msg x, audioURL x = audioURL s → objectURLs x = objectURLs s →
            audioChunksRef x = audioChunksRef s →
            let s' := (updateError log msg (startedAt env) x).2 in
            audioURL s' = audioURL s ∧ objectURLs s' = objectURLs s
            ∧ (audioChunksRef s' = audioChunksRef s ∨ audioChunksRef s' = [])) as Hfail.
  { intros log msg x Hx1 Hx2 Hx3. cbv zeta.
    destruct (cells_updateError log msg (startedAt env) x) as (_ & -> & -> & ->). auto. }
  unfold handleStartTracking.
  destruct (mediaDevices env); simpl negb; cbv iota; [|by apply Hfail].
  destruct (getUserMedia env) as [err|granted].
  { destruct (isNotAllowedError err); by apply Hfail. }
  destruct (getTracks granted) as [|track tracks]; [by apply Hfail|].
  destruct (active granted); simpl negb; cbv iota; [|by apply Hfail].
  destruct (isLive track); simpl negb; cbv iota; [|by apply Hfail].
  destruct (newMediaRecorder env) as [e|]; [by apply Hfail|].
  destruct (startRecorder env); simpl; auto.
Qed.

Lemma cells_ondataavailable data x :
  status (ondataavailable data x) = status x
  ∧ audioURL (ondataavailable data x) = audioURL x
  ∧ objectURLs (ondataavailable data x) = objectURLs x
  ∧ (audioChunksRef (ondataavailable data x) = audioChunksRef x
     ∨ ((0 < size data)%nat
        ∧ audioChunksRef (ondataavailable data x) = audioChunksRef x ++ [data])).
Proof.
  unfold ondataavailable.
  destruct (Nat.ltb_spec 0 (size data)); simpl; repeat split; auto.
Qed.

Lemma cells_tryAnalysis env y :
  (status (final (tryAnalysis env) y) = results ∨ status (final (tryAnalysis env) y) = error)
  ∧ audioURL (final (tryAnalysis env) y) = audioURL y
  ∧ objectURLs (final (tryAnalysis env) y) = objectURLs y
  ∧ audioChunksRef (final (tryAnalysis env) y) = audioChunksRef y.
Proof.
  split.
  - destruct (tryAnalysis_outcome env y) as [(Hst & _)|(Hst & _)]; auto.
  - destruct (tryAnalysis_frame env y) as (? & ? & ? & ? & ? & ->). done.
Qed.

Lemma cells_handleStopAndAnalyze env s :
  let s' := final (handleStopAndAnalyze env) s in
  s' = s
  ∨ ((audioChunksRef s' = audioChunksRef s
      ∨ ((0 < size (lastData env))%nat
         ∧ audioChunksRef s' = audioChunksRef s ++ [lastData env]))
     ∧ ((status s' = error ∧ audioURL s' = audioURL s ∧ objectURLs s' = objectURLs s)
        ∨ ((status s' = analyzing ∨ status s' = results ∨ status s' = error)
           ∧ audioURL s' = Some (objectURL env)
           ∧ objectURLs s' = {[objectURL env]} ∪ objectURLs s))).
Proof.
  cbv zeta.
  destruct (handleStopAndAnalyze_final env s)
    as [->|(r & rec & Hr & Hrec & Hrecording & Hcases)]; [by left|].
  right. cbv zeta in Hcases.
  set (x := ondataavailable (lastData env)
              (set_recorders (<[r:=stopRecorder rec]> (recorders s)) s)) in *.
  destruct (cells_ondataavailable (lastData env)
              (set_recorders (<[r:=stopRecorder rec]> (recorders s)) s))
    as (Hxs & Hxa & Hxo & Hxc).
  fold x in Hxs, Hxa, Hxo, Hxc. simpl in Hxs, Hxa, Hxo, Hxc. clearbody x.
  set (s' := final (handleStopAndAnalyze env) s) in *. clearbody s'.
  destruct Hcases as [[_ ->]|[_ [(data & _ & ->)|[_ ->]]]].
  - match goal with |- context [cleanup ?z] =>
      destruct (cells_cleanup z) as (-> & _ & _ & _ & -> & -> & -> & _) end.
    simpl. split; [exact Hxc|]. left. by rewrite Hxa, Hxo.
  - match goal with |- context [cleanup ?z] =>
      destruct (cells_cleanup z) as (-> & _ & _ & _ & -> & -> & -> & _) end.
    match goal with |- context [final (tryAnalysis env) ?y] =>
      destruct (cells_tryAnalysis env y) as (Hst & -> & -> & ->) end.
    split; [exact Hxc|]. right. split; [tauto|]. simpl. by rewrite Hxo.
  - simpl. split; [exact Hxc|]. right. rewrite Hxo. auto.
Qed.

Lemma cells_resetState s :
  status (resetState s) = idle
  ∧ audioURL (resetState s) = None
  ∧ audioChunksRef (resetState s) = audioChunksRef s
  ∧ objectURLs (resetState s)
    = match audioURL s with
      | Some url => if url =? "" then objectURLs s else objectURLs s ∖ {[url]}
      | None => objectURLs s
      end.
Proof.
  unfold resetState. simpl.
  match goal with |- context [cleanup ?z] =>
    destruct (cells_cleanup z) as (_ & _ & _ & _ & _ & -> & -> & _) end.
  destruct (audioURL s) as [url|]; [|done]. by destruct (url =? "").
Qed.

Lemma cells_onRecorderError r name now s :
  let s' := onRecorderError r name now s in
  s' = s
  ∨ (status s' = error ∧ audioURL s' = audioURL s ∧ objectURLs s' = objectURLs s
     ∧ audioChunksRef s' = audioChunksRef s).
Proof.
  cbv zeta. unfold onRecorderError.
  destruct (recorders s !! r) as [rec|]; [|by left].
  destruct (isRecording rec); [|by left]. right.
  match goal with |- context [updateError ?l ?m now s] =>
    pose proof (cells_updateError l m now s) as Hc;
    destruct (updateError l m now s) as [log' x] end.
  simpl in *. done.
Qed.

(** *** The buffered chunks *)

Lemma audioChunksRef_step s e :
  audioChunksRef (step s e) = audioChunksRef s
  ∨ audioChunksRef (step s e) = []
  ∨ ∃ data, (0 < size data)%nat ∧ audioChunksRef (step s e) = audioChunksRef s ++ [data].
Proof.
  destruct e as [env|env| |r name now|r data|i]; unfold step.
  - destruct (status s); auto.
    destruct (cells_handleStartTracking env s) as (_ & _ & [->| ->]); auto.
  - destruct (status s); auto.
    destruct (cells_handleStopAndAnalyze env s) as [->|[[->|[Hpos ->]] _]]; auto.
    right. right. by exists (lastData env).
  - left. by destruct (cells_resetState s) as (_ & _ & -> & _).
  - left. by destruct (cells_onRecorderError r name now s) as [->|(_ & _ & _ & ->)].
  - destruct (recorders s !! r); [|by left].
    destruct (cells_ondataavailable data s) as (_ & _ & _ & [->|[Hpos ->]]); [by left|].
    right. right. by exists data.
  - left. by case_bool_decide.
Qed.

(** X22.  In every state the controller reaches, from the start and
    through any sequence of events, no buffered audio chunk is empty. *)
Theorem buffered_chunks_not_empty db es :
  Forall (λ chunk, (0 < size chunk)%nat) (audioChunksRef (run es (initial db))).
Proof.
  unfold run.
  assert (Forall (λ chunk, (0 < size chunk)%nat) (audioChunksRef (initial db))) as Hinit
    by constructor.
  revert Hinit. generalize (initial db).
  induction es as [|e es IH]; intros s Hs; [done|].
  simpl. apply IH.
  destruct (audioChunksRef_step s e) as [->|[->|(data & Hpos & ->)]];
    [done|constructor|].
  apply Forall_app. split; [done|]. by constructor.
Qed.

(** *** Object URLs *)

Lemma urlsTracked_step s e : namesBlob e → urlsTracked s → urlsTracked (step s e).
Proof.
  intros Hname Hu. destruct e as [env|env| |r name now|r data|i]; unfold step.
  - destruct (status s) eqn:Hs; try done. unfold urlsTracked in *.
    destruct (cells_handleStartTracking env s) as (-> & -> & _).
    destruct (audioURL s); [|done]. by destruct Hu as (_ & _ & ? & _).
  - destruct (status s) eqn:Hs; try done.
    assert (audioURL s = None ∧ objectURLs s = ∅) as [Hnone Hempty].
    { unfold urlsTracked in Hu. destruct (audioURL s); [|done].
      by destruct Hu as (_ & _ & _ & _ & ?). }
    destruct (cells_handleStopAndAnalyze env s)
      as [->|[_ [(Hst & Ha & Ho)|(Hst & Ha & Ho)]]]; [done| |];
      unfold urlsTracked; rewrite Ha, Ho, ?Hnone, Hempty; [done|].
    simpl in Hname. rewrite union_empty_r_L.
    split; [done|]. split; [done|]. destruct Hst as [->|[->| ->]]; done.
  - unfold urlsTracked in *.
    destruct (cells_resetState s) as (_ & -> & _ & ->).
    destruct (audioURL s) as [url|]; [|done].
    destruct Hu as (Hne & -> & _). apply String.eqb_neq in Hne. rewrite Hne.
    apply difference_diag_L.
  - destruct (cells_onRecorderError r name now s) as [->|(Hst & Ha & Ho & _)]; [done|].
    unfold urlsTracked in *. rewrite Hst, Ha, Ho.
    destruct (audioURL s); [|done]. by destruct Hu as (? & ? & _).
  - destruct (recorders s !! r); [|done].
    destruct (cells_ondataavailable data s) as (Hst & Ha & Ho & _).
    unfold urlsTracked in *. by rewrite Hst, Ha, Ho.
  - by case_bool_decide.
Qed.

(** X23.  Where [URL.createObjectURL] never answers the empty string, in
    every state the controller reaches the object URLs that are alive are
    none while [audioURL] is empty and the one that [audioURL] holds
    otherwise, and after [resetState] none is alive. *)
Theorem object_urls_revoked db es :
  Forall namesBlob es →
  let s := run es (initial db) in
  match audioURL s with
  | Some url => objectURLs s = {[url]}
  | None => objectURLs s = ∅
  end
  ∧ objectURLs (resetState s) = ∅.
Proof.
  intros Hes. cbv zeta.
  assert (urlsTracked (run es (initial db))) as Hu.
  { unfold run. assert (urlsTracked (initial db)) as Hinit by done.
    revert Hinit. generalize (initial db).
    induction Hes as [|e es He Hes IH]; intros s Hs; [done|].
    simpl. apply IH. by apply urlsTracked_step. }
  split.
  - unfold urlsTracked in Hu. destruct (audioURL _); [|done]. by destruct Hu as (_ & ? & _).
  - pose proof (urlsTracked_step _ Reset I Hu) as Hr.
    change (step (run es (initial db)) Reset) with (resetState (run es (initial db))) in Hr.
    unfold urlsTracked in Hr.
    by destruct (cells_resetState (run es (initial db))) as (_ & Ha & _); rewrite Ha in Hr.
Qed.

Lemma quiet_released s :
  released s →
  (∀ i, step s (IntervalTick i) = s)
  ∧ (∀ r name now, step s (RecorderError r name now) = s).
Proof.
  intros (_ & Hi & _ & _ & _ & Hrec). split.
  - intros i. unfold step. rewrite Hi. by rewrite bool_decide_eq_false_2 by set_solver.
  - intros r name now. unfold step, onRecorderError.
    destruct (recorders s !! r) as [rec|] eqn:Hr; [|done].
    unfold isRecording. by rewrite (Hrec r rec Hr).
Qed.

(** X24.  After [resetState], in whatever state the controller has been
    reached, the controller is [idle] with no duration, no messages and no
    analysis, and a tick of any interval, an error of any recorder and a
    stop request change nothing. *)
Theorem quiet_after_reset db es :
  let s := resetState (run es (initial db)) in
  (∀ i, step s (IntervalTick i) = s)
  ∧ (∀ r name now, step s (RecorderError r name now) = s)
  ∧ (∀ env, step s (Stop env) = s)
  ∧ status s = idle ∧ duration s = 0%Z ∧ error_ s = [] ∧ analysisData s = None.
Proof.
  cbv zeta.
  assert (invariant (run es (initial db))) as [Ht _]
    by (apply controller_invariant_run, controller_invariant_initial).
  generalize dependent (run es (initial db)). intros s0 Ht.
  pose proof (resetState_released _ Ht) as Hrel.
  assert (status (resetState s0) = idle ∧ duration (resetState s0) = 0%Z
          ∧ error_ (resetState s0) = [] ∧ analysisData (resetState s0) = None)
    as (Hst & Hd & He & Ha) by done.
  generalize dependent (resetState s0). intros s Hrel Hst Hd He Ha.
  destruct (quiet_released s Hrel) as [Hi Hr].
  split; [done|]. split; [done|]. split; [|done].
  intros env. unfold step. by rewrite Hst.
Qed.

(** *** The controller at rest *)

Lemma tracked_ondataavailable data s : tracked s → tracked (ondataavailable data s).
Proof.
  apply tracked_ext. unfold ondataavailable. by destruct (0 <? size data)%nat.
Qed.

Lemma tracked_stopRecorder s r rec :
  tracked s → recorders s !! r = Some rec →
  tracked (set_recorders (<[r := stopRecorder rec]> (recorders s)) s).
Proof.
  intros (Hti & Hst & Hrecs) Hrec. unfold tracked. simpl.
  split; [done|]. split; [done|]. intros r' rec'.
  destruct (decide (r = r')) as [<-|Hne].
  - rewrite lookup_insert_eq. by intros [= <-].
  - rewrite lookup_insert_ne by done. by apply Hrecs.
Qed.

Lemma handleStartTracking_rest env s :
  invariant s → status s = idle →
  TrackerViews.isCurrentlyOn (status (handleStartTracking env s)) = false →
  released (handleStartTracking env s).
Proof.
  intros [Ht Hidle] Hstatus. destruct (Hidle Hstatus) as (Hti & Hasr & Hmr).
  assert (tracked (setStatus requesting s)) as Ht0 by (by apply (tracked_ext s)).
  assert (∀ log msg x, tracked x →
            released (updateError log msg (startedAt env) x).2) as Hfail.
  { intros log msg x Hx. by apply updateError_released. }
  unfold handleStartTracking.
  destruct (mediaDevices env); simpl negb; cbv iota; [|intros _; by apply Hfail].
  destruct (getUserMedia env) as [err|granted].
  { intros _. destruct (isNotAllowedError err); by apply Hfail. }
  set (h := fresh (dom (streams (setStatus requesting s)))).
  assert (tracked (set_audioStreamRef (Some h)
                     (set_streams (<[h := granted]> (streams (setStatus requesting s)))
                        (setStatus requesting s)))) as Ht1
    by (by apply tracked_acquire).
  destruct (getTracks granted) as [|track tracks]; [intros _; by apply Hfail|].
  destruct (active granted); simpl negb; cbv iota; [|intros _; by apply Hfail].
  destruct (isLive track); simpl negb; cbv iota; [|intros _; by apply Hfail].
  destruct (newMediaRecorder env) as [e|].
  { intros _. apply Hfail. refine (tracked_ext _ _ _ Ht1). reflexivity. }
  by destruct (startRecorder env).
Qed.

Lemma handleStopAndAnalyze_rest env s :
  tracked s → status s = tracking →
  TrackerViews.isCurrentlyOn (status (final (handleStopAndAnalyze env) s)) = false →
  released (final (handleStopAndAnalyze env) s).
Proof.
  intros Ht Hstatus.
  destruct (handleStopAndAnalyze_final env s)
    as [->|(r & rec & Hr & Hrec & Hrecording & Hcases)]; [by rewrite Hstatus|].
  cbv zeta in Hcases.
  set (x := ondataavailable (lastData env)
              (set_recorders (<[r:=stopRecorder rec]> (recorders s)) s)) in *.
  assert (tracked x) as Hx by (by apply tracked_ondataavailable, tracked_stopRecorder).
  clearbody x.
  destruct Hcases as [[_ ->]|[_ [(data & _ & ->)|[_ ->]]]].
  - intros _. apply cleanup_released. by apply (tracked_ext x).
  - intros _. apply cleanup_released.
    match goal with |- context [final (tryAnalysis env) ?y] =>
      destruct (tryAnalysis_resources env y) as [Heq _];
      apply (tracked_ext y); [done|] end.
    by apply (tracked_ext x).
  - done.
Qed.

Lemma onRecorderError_rest r name now s :
  tracked s →
  onRecorderError r name now s = s ∨ released (onRecorderError r name now s).
Proof.
  intros Ht. unfold onRecorderError, updateError.
  destruct (recorders s !! r) as [rec|]; [|by left].
  destruct (isRecording rec); [|by left]. right.
  apply released_debugLog, cleanup_released. by apply (tracked_ext s).
Qed.

Lemma atRest_step t e : App.atRest t → App.atRest (step t e).
Proof.
  intros [Hinv Hrest]. split; [by apply controller_invariant_step|].
  destruct e as [env|env| |r name now|r data|i]; unfold step.
  - destruct (status t) eqn:Hs; [by apply handleStartTracking_rest|..];
      rewrite Hs; exact Hrest.
  - destruct (status t) eqn:Hs;
      [| |apply handleStopAndAnalyze_rest; [by destruct Hinv|done]|..];
      rewrite Hs; exact Hrest.
  - intros _. apply resetState_released. by destruct Hinv.
  - destruct (onRecorderError_rest r name now t (proj1 Hinv)) as [->|Hrel]; [done|].
    by intros _.
  - destruct (recorders t !! r); [|done].
    destruct (cells_ondataavailable data t) as (-> & _).
    intros Hoff. refine (released_ext t _ _ (Hrest Hoff)).
    unfold ondataavailable. by destruct (0 <? size data)%nat.
  - case_bool_decide; [|done]. intros Hoff. by apply (released_ext t), Hrest.
Qed.

Lemma atRest_initial db : App.atRest (initial db).
Proof.
  split; [apply controller_invariant_initial|]. intros _.
  unfold released. simpl. repeat split; try done; intros ? ?; by rewrite lookup_empty.
Qed.

End WithHost.
End SessionFacts.

(* ------------------------------------------------------------------------- *)
(** ** The duration on the tracking view *)

Module TrackerViewsFacts.
Import Types JS TrackerViews.

(** Two digits for a number below one hundred, and the number is read back
    from them. *)
Lemma two_digits (n : Z) :
  (0 ≤ n < 100)%Z →
  ∃ a b, padStart (toString n) 2 "0" = String a (String b "")
         ∧ UtcHost.number (String a (String b "")) = Some n.
Proof.
  intros Hn.
  assert (forallb (λ k,
            match padStart (toString (Z.of_nat k)) 2 "0" with
            | String a (String b "") =>
                bool_decide (UtcHost.number (String a (String b "")) = Some (Z.of_nat k))
            | _ => false
            end) (List.seq 0 100) = true) as Hall by (vm_compute; reflexivity).
  rewrite forallb_forall in Hall.
  specialize (Hall (Z.to_nat n) ltac:(apply in_seq; lia)).
  rewrite Z2Nat.id in Hall by lia.
  destruct (padStart (toString n) 2 "0") as [|a [|b [|c rest]]]; try done.
  exists a, b. split; [done|]. by apply bool_decide_eq_true in Hall.
Qed.

(** X25.  For a whole number of seconds below one hundred hours,
    [formatDuration] answers eight characters [HH:MM:SS] whose three
    two-digit fields read back as hours, minutes below 60 and seconds below
    60 that add up to the number of seconds. *)
Theorem formatDuration_reads_back (totalSeconds : Z) :
  (0 ≤ totalSeconds < 360000)%Z →
  let text := formatDuration totalSeconds in
  String.length text = 8
  ∧ UtcHost.charAt 2 text = ":" ∧ UtcHost.charAt 5 text = ":"
  ∧ ∃ h m s,
      UtcHost.number (String.substring 0 2 text) = Some h
      ∧ UtcHost.number (String.substring 3 2 text) = Some m
      ∧ UtcHost.number (String.substring 6 2 text) = Some s
      ∧ (0 ≤ m < 60)%Z ∧ (0 ≤ s < 60)%Z
      ∧ totalSeconds = (3600 * h + 60 * m + s)%Z.
Proof.
  intros Ht. cbv zeta. unfold formatDuration.
  rewrite !Z.rem_mod_nonneg by lia.
  assert (0 ≤ totalSeconds / 3600 < 100)%Z as Hh.
  { split; [apply Z.div_pos; lia|]. apply Z.div_lt_upper_bound; lia. }
  assert (0 ≤ totalSeconds mod 3600 < 3600)%Z as Hr by (apply Z.mod_pos_bound; lia).
  assert (0 ≤ totalSeconds mod 3600 / 60 < 60)%Z as Hm.
  { split; [apply Z.div_pos; lia|]. apply Z.div_lt_upper_bound; lia. }
  assert (0 ≤ totalSeconds mod 60 < 60)%Z as Hs by (apply Z.mod_pos_bound; lia).
  destruct (two_digits (totalSeconds / 3600) ltac:(lia)) as (a1 & b1 & -> & H1).
  destruct (two_digits (totalSeconds mod 3600 / 60) ltac:(lia)) as (a2 & b2 & -> & H2).
  destruct (two_digits (totalSeconds mod 60) ltac:(lia)) as (a3 & b3 & -> & H3).
  split; [done|]. split; [done|]. split; [done|].
  eexists _, _, _. split; [exact H1|]. split; [exact H2|]. split; [exact H3|].
  split; [done|]. split; [done|].
  pose proof (Z.div_mod totalSeconds 3600 ltac:(lia)) as E1.
  pose proof (Z.div_mod (totalSeconds mod 3600) 60 ltac:(lia)) as E2.
  assert ((totalSeconds mod 3600) mod 60 = totalSeconds mod 60)%Z as E3.
  { apply Z.mod_mod_divide. exists 60%Z. lia. }
  lia.
Qed.

End TrackerViewsFacts.

(* ------------------------------------------------------------------------- *)
(** ** The dashboard: bounds, windows, the chart, the feedback cards *)

Module DashboardViewsFacts.
Import Types JS JSON DB Dashboard DashboardViews SortFacts DBFacts DashboardFacts.

(** *** The average score stays within the scores *)

Lemma sum_bounds (lo hi : Z) (xs : list Z) :
  Forall (λ x, (lo ≤ x ≤ hi)%Z) xs →
  (lo * Z.of_nat (length xs) ≤ foldr Z.add 0 xs ≤ hi * Z.of_nat (length xs))%Z.
Proof.
  induction 1 as [|x xs Hx _ IH]; simpl length; simpl foldr; [lia|].
  rewrite Nat2Z.inj_succ. lia.
Qed.

Lemma Math_round_mono (x y : Q) : (x <= y)%Q → (Math_round x ≤ Math_round y)%Z.
Proof.
  intros Hxy. unfold Math_round. apply Qfloor_resp_le.
  by apply Qplus_le_l.
Qed.

Lemma Math_round_Z (n : Z) : Math_round (inject_Z n) = n.
Proof.
  unfold Math_round. apply Z.le_antisymm.
  - apply Z.lt_succ_r. rewrite Zlt_Qlt.
    eapply Qle_lt_trans; [apply Qfloor_le|].
    unfold Z.succ. rewrite inject_Z_plus.
    apply Qplus_lt_r. reflexivity.
  - rewrite <- (Qfloor_Z n) at 1. apply Qfloor_resp_le.
    rewrite <- (Qplus_0_r (inject_Z n)) at 1. apply Qplus_le_r. discriminate.
Qed.

(** X26.  The average score that the dashboard shows for a list that is
    not empty lies within every pair of integer bounds that bound the scores
    of the list: for scores from 0 to 100 it is from 0 to 100. *)
Theorem avgScore_within (lo hi : Z) (data : list AnalysisData) :
  data ≠ [] →
  Forall (λ item, (lo ≤ sleepScore item ≤ hi)%Z) data →
  (lo ≤ avgScore data ≤ hi)%Z.
Proof.
  intros Hne Hall. rewrite avgScore_mean. unfold mean.
  assert (Forall (λ x, (lo ≤ x ≤ hi)%Z) (map sleepScore data)) as Hxs.
  { apply Forall_forall. intros x (item & -> & Hin)%list_elem_of_fmap.
    rewrite Forall_forall in Hall. by apply Hall. }
  pose proof (sum_bounds lo hi _ Hxs) as [Hlo Hhi].
  set (total := foldr Z.add 0%Z (map sleepScore data)) in *.
  set (n := Z.of_nat (length (map sleepScore data))) in *.
  assert (0 < n)%Z as Hn.
  { unfold n. rewrite length_map. destruct data; [done|]. simpl. lia. }
  assert (inject_Z 0 < inject_Z n)%Q as Hnq by (by rewrite <- Zlt_Qlt).
  split.
  - rewrite <- (Math_round_Z lo). apply Math_round_mono.
    apply Qle_shift_div_l; [done|]. rewrite <- inject_Z_mult. by rewrite <- Zle_Qle.
  - rewrite <- (Math_round_Z hi). apply Math_round_mono.
    apply Qle_shift_div_r; [done|]. rewrite <- inject_Z_mult. by rewrite <- Zle_Qle.
Qed.

(** *** The three windows *)

Lemma filter_sublist {A} (f g : A → bool) (l : list A) :
  (∀ x, f x = true → g x = true) →
  List.filter f l `sublist_of` List.filter g l.
Proof.
  intros Hfg. induction l as [|x l IH]; simpl; [done|].
  destruct (f x) eqn:Hf.
  - rewrite (Hfg x Hf). by constructor.
  - destruct (g x); [by constructor|done].
Qed.

Lemma filter_sublist_all {A} (f : A → bool) (l : list A) :
  List.filter f l `sublist_of` l.
Proof.
  induction l as [|x l IH]; simpl; [done|]. destruct (f x); by constructor.
Qed.

Section WithHost.
Context `{Host}.

(** X27.  Where the cutoff of the month is not after that of the week and
    the cutoff of the year not after that of the month, the sessions shown
    for the week are among those shown for the month, these among those
    shown for the year, and these among the loaded history, each time in the
    same order. *)
Theorem filteredData_windows (now : Z) (history : list AnalysisData) :
  (Date_minusDays now 30 ≤ Date_minusDays now 7)%Z →
  (Date_minusDays now 365 ≤ Date_minusDays now 30)%Z →
  filteredData now history week `sublist_of` filteredData now history month
  ∧ filteredData now history month `sublist_of` filteredData now history year
  ∧ filteredData now history year `sublist_of` history.
Proof.
  intros H1 H2. unfold filteredData. repeat split.
  - apply filter_sublist. intros item.
    destruct (Date_getTime (date item)); [|done]. rewrite !Z.leb_le. lia.
  - apply filter_sublist. intros item.
    destruct (Date_getTime (date item)); [|done]. rewrite !Z.leb_le. lia.
  - apply filter_sublist_all.
Qed.

(** *** The chart *)

Lemma StronglySorted_sublist {A} (R : A → A → Prop) (l k : list A) :
  l `sublist_of` k → StronglySorted R k → StronglySorted R l.
Proof.
  intros Hsub Hk. revert l Hsub.
  induction Hk as [|a k Hk IH Ha]; intros l Hsub.
  - apply sublist_nil_r in Hsub as ->. constructor.
  - apply sublist_cons_r in Hsub as [Hsub|(l' & -> & Hsub)]; [by apply IH|].
    constructor; [by apply IH|].
    rewrite Forall_forall in Ha |- *. intros b Hb. apply Ha.
    by apply (elem_of_sublist _ _ _ Hb).
Qed.

Lemma StronglySorted_snoc {A} (R : A → A → Prop) (l : list A) (a : A) :
  StronglySorted R l → Forall (λ b, R b a) l → StronglySorted R (l ++ [a]).
Proof.
  induction 1 as [|b l Hl IH Hb]; intros Hall; simpl; [by repeat constructor|].
  inversion Hall as [|? ? Hba Hla]; subst.
  constructor; [by apply IH|].
  apply Forall_app. split; [done|]. by constructor.
Qed.

Lemma elem_of_rev {A} (x : A) (l : list A) : x ∈ rev l ↔ x ∈ l.
Proof. by rewrite !list_elem_of_In, <- in_rev. Qed.

Lemma StronglySorted_rev {A} (R : A → A → Prop) (l : list A) :
  StronglySorted R l → StronglySorted (λ a b, R b a) (rev l).
Proof.
  induction 1 as [|a l Hl IH Ha]; simpl; [constructor|].
  apply StronglySorted_snoc; [done|].
  rewrite Forall_forall in Ha |- *. intros b Hb.
  exact (Ha b (proj1 (elem_of_rev b l) Hb)).
Qed.

Lemma firstn_sublist {A} (n : nat) (l : list A) : firstn n l `sublist_of` l.
Proof. apply (sublist_take l n). Qed.

(** X28.  The score chart of the history as [getSleepHistory] answers it
    (the stored dates being valid dates), filtered for a time range: at most
    30 bars, the first 30 sessions of the filtered list in reverse, each the
    score of a stored session labelled with its date, in ascending order of
    the dates from left to right. *)
Theorem chart_oldest_first (store : gmap string AnalysisData) (now : Z)
    (timeRange : TimeRange) (history : list AnalysisData) :
  (∀ key session, store !! key = Some session → is_Some (Date_getTime (date session))) →
  getSleepHistory onsuccess store = Some history →
  let data := filteredData now history timeRange in
  let bars := Chart (scoreBars data) in
  (length bars ≤ 30)%nat
  ∧ bars = rev (scoreBars (firstn 30 data))
  ∧ (∀ bar, bar ∈ bars →
       ∃ session, session ∈ getAll store
                  ∧ label bar = date session ∧ value bar = sleepScore session)
  ∧ StronglySorted
      (λ a b, ∃ ta tb, Date_getTime (label a) = Some ta
                       ∧ Date_getTime (label b) = Some tb ∧ (ta ≤ tb)%Z)
      bars.
Proof.
  intros Hvalid [= <-]. cbv zeta.
  set (history := sort byDateDescending (getAll store)).
  set (data := filteredData now history timeRange).
  assert (firstn 30 data `sublist_of` history) as Hsub.
  { etrans; [apply firstn_sublist|]. apply filter_sublist_all. }
  assert (Chart (scoreBars data) = rev (scoreBars (firstn 30 data))) as Hbars.
  { unfold Chart, scoreBars. by rewrite firstn_map. }
  split.
  { unfold Chart. rewrite length_rev, length_firstn. lia. }
  split; [done|]. rewrite Hbars.
  assert (Forall (λ session, is_Some (Date_getTime (date session))) (getAll store)) as Hall.
  { apply Forall_forall. intros session Hin. rewrite getAll_perm in Hin.
    apply list_elem_of_fmap in Hin as ([key session'] & -> & Hin).
    apply elem_of_map_to_list in Hin. by apply (Hvalid key). }
  split.
  - intros bar Hbar. apply (proj1 (elem_of_rev _ _)) in Hbar.
    apply list_elem_of_fmap in Hbar as (session & -> & Hin).
    exists session. split; [|done].
    apply (elem_of_sublist _ _ _ Hin) in Hsub. unfold history in Hsub.
    by rewrite sort_elem_of in Hsub.
  - apply (StronglySorted_rev
             (λ a b, ∃ ta tb, Date_getTime (label b) = Some ta
                              ∧ Date_getTime (label a) = Some tb ∧ (ta ≤ tb)%Z)).
    assert (StronglySorted
              (λ a b, ∃ ta tb, Date_getTime (date b) = Some ta
                               ∧ Date_getTime (date a) = Some tb ∧ (ta ≤ tb)%Z)
              (firstn 30 data)) as Hsorted.
    { apply (StronglySorted_sublist _ _ history Hsub).
      apply (StronglySorted_impl (λ a b, (byDateDescending a b ≤ 0)%Z) _
               (λ session, is_Some (Date_getTime (date session)))).
      - unfold byDateDescending. intros a b [ta Ha] [tb Hb]. rewrite Ha, Hb.
        intros Hle. exists tb, ta. repeat split. lia.
      - apply Forall_forall. intros session Hin. unfold history in Hin.
        rewrite sort_perm in Hin. rewrite Forall_forall in Hall. by apply Hall.
      - by apply (sort_ordered _ _ _ byDateDescending_consistent). }
    clear Hsub Hbars. unfold scoreBars.
    induction Hsorted as [|a l Hl IH Ha]; simpl; [constructor|].
    constructor; [done|]. apply Forall_forall.
    intros bar (session & -> & Hin)%list_elem_of_fmap. simpl.
    by apply (proj1 (Forall_forall _ _) Ha).
Qed.

End WithHost.

(** *** The feedback cards *)


End DashboardViewsFacts.

(* ------------------------------------------------------------------------- *)
(** ** The application: navigation and the mounted controller *)

Module AppFacts.
Import Types JS SleepTracker TrackerViews SleepTrackerFacts SessionFacts.

Section WithHost.
Context `{Host}.

Lemma app_invariant db es :
  let s := App.run es (App.initial db) in
  App.isTracking s
  = match App.mounted s with
    | Some t => isCurrentlyOn (status t)
    | None => false
    end
  ∧ (is_Some (App.mounted s) ↔ App.activeView s = App.sleep)
  ∧ (∀ t, App.mounted s = Some t → App.atRest t).
Proof.
  cbv zeta. unfold App.run.
  assert (App.isTracking (App.initial db)
          = match App.mounted (App.initial db) with
            | Some t => isCurrentlyOn (status t)
            | None => false
            end
          ∧ (is_Some (App.mounted (App.initial db))
             ↔ App.activeView (App.initial db) = App.sleep)
          ∧ (∀ t, App.mounted (App.initial db) = Some t → App.atRest t)) as Hinit.
  { simpl. split; [done|]. split; [|done]. split; [by intros [? ?]|done]. }
  revert Hinit. generalize (App.initial db).
  induction es as [|e es IH]; intros s Hs; [done|].
  simpl. apply IH. clear IH. pose proof Hs as (Htr & Hm & Hrest).
  destruct e as [view|e]; unfold App.step.
  - case_eq (App.isTracking s); intros Hon; [exact Hs|].
    destruct (decide (view = App.activeView s)) as [_|Hne]; [exact Hs|].
    destruct view; simpl.
    + split; [done|]. split; [|done]. split; [by intros [? ?]|done].
    + split; [done|]. split; [|done]. split; [by intros [? ?]|done].
    + split; [done|]. split; [by split; eauto|].
      intros t [= <-]. apply atRest_initial.
  - destruct (App.mounted s) as [t|] eqn:Ht; [|by rewrite Ht].
    simpl. split; [done|]. split.
    + rewrite <- Hm. split; eauto.
    + intros t' [= <-]. apply atRest_step. by apply Hrest.
Qed.

(** X30.  In every state the application reaches, [isTracking] is true (the
    bottom navigation is hidden) if and only if the recording controller is
    mounted in [requesting], [tracking] or [analyzing]; the controller is
    mounted if and only if the active view is [sleep]; while the navigation
    is shown the mounted controller holds no resource; and a press on the
    navigation never unmounts a controller that holds one. *)
Theorem navigation_hidden_while_session_on db es :
  let s := App.run es (App.initial db) in
  (App.isTracking s = true
   ↔ ∃ t, App.mounted s = Some t ∧ isCurrentlyOn (status t) = true)
  ∧ (is_Some (App.mounted s) ↔ App.activeView s = App.sleep)
  ∧ (∀ t, App.mounted s = Some t → App.isTracking s = false → released t)
  ∧ (∀ view t, App.mounted s = Some t → ¬ released t →
       App.step s (App.Navigate view) = s).
Proof.
  cbv zeta. destruct (app_invariant db es) as (Htr & Hm & Hrest).
  generalize dependent (App.run es (App.initial db)). intros s Htr Hm Hrest.
  split.
  { rewrite Htr. destruct (App.mounted s) as [t|].
    - split; [by exists t|]. by intros (t' & [= <-] & ?).
    - split; [done|]. by intros (t' & ? & ?). }
  split; [done|].
  assert (∀ t, App.mounted s = Some t → App.isTracking s = false → released t) as Hoff.
  { intros t Ht Hoff. destruct (Hrest t Ht) as [_ Hr]. apply Hr.
    by rewrite Htr, Ht in Hoff. }
  split; [done|].
  intros view t Ht Hheld. simpl.
  destruct (App.isTracking s) eqn:Hon; [done|]. destruct Hheld. by apply Hoff.
Qed.

End WithHost.
End AppFacts.

(* ------------------------------------------------------------------------- *)
(** ** The properties at the example data *)

Module Instances.
Import Types JS JSON DB.

(** Monday 07:00: the alarm for the working days rings, the switched-off
    alarm before it in the list does not. *)
Lemma workingDays_alarm_rings :
  AlarmClock.ringingAlarm
    (AlarmClock.checkAlarms Examples.monday0700 onsuccess Examples.weekdayState)
  = Some Examples.workingDays.
Proof.
  apply (proj1 (AlarmClockFacts.checkAlarms_rings_first_match
                  Examples.monday0700 onsuccess Examples.weekdayState
                  [Examples.switchedOff] Examples.workingDays []
                  eq_refl eq_refl ltac:(discriminate))).
  - repeat constructor.
  - split; [reflexivity|]. split; [reflexivity|]. split.
    + apply not_elem_of_nil.
    + apply list_elem_of_here.
Defined.

(** The one-shot alarm that fires is stored switched off. *)
Lemma oneShot_alarm_stored_inactive :
  AlarmClock.store
    (AlarmClock.checkAlarms Examples.monday0700 onsuccess Examples.oneShotState)
    !! id Examples.oneShot
  = Some (AlarmClock.deactivated Examples.oneShot).
Proof.
  apply (AlarmClockFacts.one_shot_deactivated_on_firing
           Examples.monday0700 onsuccess Examples.oneShotState Examples.oneShot
           eq_refl ltac:(vm_compute; reflexivity));
    reflexivity.
Defined.


(** The example stores, read with code-unit collation. *)
Lemma example_stores_sorted :
  (∃ result,
     getAllAlarms (H := UtcHost.utcHost) onsuccess Examples.alarmsStore = Some result
     ∧ result ≡ₚ (map_to_list Examples.alarmsStore).*2
     ∧ StronglySorted (λ a b, (codeUnitCompare (time a) (time b) ≤ 0)%Z) result)
  ∧ (∃ result,
       getSleepHistory (H := UtcHost.utcHost) onsuccess Examples.historyStore
       = Some result
       ∧ result ≡ₚ (map_to_list Examples.historyStore).*2
       ∧ StronglySorted
           (λ a b, ∃ ta tb, UtcHost.parseISO (date a) = Some ta
                            ∧ UtcHost.parseISO (date b) = Some tb ∧ (tb ≤ ta)%Z)
           result).
Proof.
  apply (DBFacts.getAll_sorted (H := UtcHost.utcHost)
           Examples.alarmsStore Examples.historyStore
           DBFacts.codeUnitCompare_consistent).
  intros key session Hlook. unfold Examples.historyStore in Hlook.
  apply lookup_insert_Some in Hlook as [[_ <-]|[_ Hlook]]; [by eexists|].
  apply lookup_insert_Some in Hlook as [[_ <-]|[_ Hlook]]; [by eexists|].
  by rewrite lookup_empty in Hlook.
Defined.


(** The gateway answers 500: the session ends in [error]. *)
Lemma gatewayDown_ends_in_error :
  SleepTracker.status
    (SleepTracker.final (SleepTracker.onloadend (H := UtcHost.utcHost) Examples.gatewayDown)
       Examples.analyzingSession)
  = SleepTracker.error
  ∧ SleepTracker.results
    ∉ SleepTracker.statuses
        (SleepTracker.onloadend (H := UtcHost.utcHost) Examples.gatewayDown
           Examples.analyzingSession).
Proof.
  destruct (SleepTrackerFacts.gateway_failure_ends_in_error (H := UtcHost.utcHost)
              Examples.gatewayDown Examples.analyzingSession
              "data:audio/webm;base64,AAAA" eq_refl eq_refl
              (or_introl (ex_intro _ _ (conj eq_refl eq_refl))))
    as (Hfinal & _ & _ & Hnever).
  split; [exact Hfinal|exact Hnever].
Defined.

(** The aggregates of the three nights, seen within the week. *)
Lemma threeNights_aggregates :
  Dashboard.avgScore
    (Dashboard.filteredData (H := UtcHost.utcHost) Examples.dashboardOpened
       Examples.threeNights Dashboard.week)
  = Qfloor (Dashboard.mean
              (map sleepScore
                 (Dashboard.filteredData (H := UtcHost.utcHost) Examples.dashboardOpened
                    Examples.threeNights Dashboard.week)) + (1 # 2)).
Proof.
  apply (DashboardFacts.dashboard_aggregates (H := UtcHost.utcHost)
           Examples.dashboardOpened Examples.threeNights Dashboard.week).
  by vm_compute.
Defined.

End Instances.

(* ------------------------------------------------------------------------- *)
(** ** More properties at the example data *)

Module MoreInstances.
Import Types JS JSON DB.

Lemma alarmsStore_keyed : AlarmCache.keyed Examples.alarmsStore.
Proof.
  intros k a Hlook. unfold Examples.alarmsStore in Hlook.
  apply lookup_insert_Some in Hlook as [[<- <-]|[_ Hlook]]; [done|].
  apply lookup_insert_Some in Hlook as [[<- <-]|[_ Hlook]]; [done|].
  by rewrite lookup_empty in Hlook.
Defined.

(** The alarm for the working days is saved to the example store and read
    back. *)
Lemma workingDays_saved_and_read_back :
  ∃ store' stored,
    saveAlarm onsuccess Examples.workingDays Examples.alarmsStore = Some store'
    ∧ getAllAlarms (H := UtcHost.utcHost) onsuccess store' = Some stored
    ∧ AlarmCache.keyed store'
    ∧ stored ≡ₚ Examples.workingDays
                 :: getAll (delete (id Examples.workingDays) Examples.alarmsStore)
    ∧ (∀ a, a ∈ stored → id a = id Examples.workingDays → a = Examples.workingDays)
    ∧ NoDup (id <$> stored).
Proof.
  exact (StoreFacts.saveAlarm_getAllAlarms (H := UtcHost.utcHost)
           Examples.workingDays Examples.alarmsStore alarmsStore_keyed).
Defined.

(** The one-shot alarm is deleted from the example store. *)
Lemma oneShot_deleted :
  ∃ store' stored,
    deleteAlarmDB onsuccess (id Examples.oneShot) Examples.alarmsStore = Some store'
    ∧ getAllAlarms (H := UtcHost.utcHost) onsuccess store' = Some stored
    ∧ AlarmCache.keyed store'
    ∧ (∀ a, a ∈ stored → id a ≠ id Examples.oneShot)
    ∧ (∀ a, a ∈ stored ↔ a ∈ getAll Examples.alarmsStore ∧ id a ≠ id Examples.oneShot)
    ∧ (id Examples.oneShot ∉ dom Examples.alarmsStore → store' = Examples.alarmsStore).
Proof.
  exact (StoreFacts.deleteAlarmDB_getAllAlarms (H := UtcHost.utcHost)
           (id Examples.oneShot) Examples.alarmsStore alarmsStore_keyed).
Defined.

Lemma oneShotState_coherent : AlarmCache.coherent Examples.oneShotState.
Proof.
  split; [|split].
  - intros k a Hlook. simpl in Hlook.
    apply lookup_insert_Some in Hlook as [[<- <-]|[_ Hlook]]; [done|].
    by rewrite lookup_empty in Hlook.
  - simpl. apply NoDup_singleton.
  - intros a Ha. simpl in Ha. apply list_elem_of_singleton in Ha as ->.
    apply lookup_insert_eq.
Defined.

(** The one-shot alarm is toggled twice. *)
Lemma oneShot_toggled_twice :
  let s' :=
    AlarmClock.toggleAlarm onsuccess (id Examples.oneShot)
      (AlarmClock.toggleAlarm onsuccess (id Examples.oneShot) Examples.oneShotState) in
  AlarmClock.alarms s' = AlarmClock.alarms Examples.oneShotState
  ∧ AlarmClock.store s' = AlarmClock.store Examples.oneShotState.
Proof.
  exact (AlarmCacheFacts.toggleAlarm_twice (id Examples.oneShot) Examples.oneShotState
           oneShotState_coherent).
Defined.

(** The one-shot alarm is toggled and the store rejects the [put]. *)
Lemma oneShot_toggle_not_saved :
  let s' := AlarmClock.toggleAlarm onerror (id Examples.oneShot) Examples.oneShotState in
  AlarmCache.flipped Examples.oneShot ∈ AlarmClock.alarms s'
  ∧ AlarmClock.store s' !! id Examples.oneShot = Some Examples.oneShot.
Proof.
  destruct (AlarmCacheFacts.toggleAlarm_failed_save Examples.oneShotState Examples.oneShot
              oneShotState_coherent ltac:(apply list_elem_of_here))
    as (Hflipped & _ & _ & Hstore & _).
  split; [exact Hflipped|exact Hstore].
Defined.

(** An alarm is added to the list of the one-shot alarm. *)
Lemma oneShotState_alarm_added :
  AlarmCache.coherent
    (AlarmClock.step (H := UtcHost.utcHost) Examples.oneShotState
       (AlarmClock.AddAlarm onsuccess "06:30" "Gym" true [2; 4])).
Proof.
  apply (AlarmCacheFacts.coherent_step (H := UtcHost.utcHost) Examples.oneShotState
           (AlarmClock.AddAlarm onsuccess "06:30" "Gym" true [2; 4])
           oneShotState_coherent).
  simpl. intros Hin. apply list_elem_of_singleton in Hin. vm_compute in Hin. discriminate.
Defined.

(** The working-days alarm of the example list is toggled. *)
Lemma weekdayState_toggle_ordered :
  ordered (λ a b, codeUnitCompare (time a) (time b))
    (AlarmClock.alarms
       (AlarmClock.step (H := UtcHost.utcHost) Examples.weekdayState
          (AlarmClock.ToggleAlarm onsuccess (id Examples.workingDays)))).
Proof.
  apply (AlarmListFacts.alarms_stay_ordered (H := UtcHost.utcHost)
           Examples.weekdayState
           (AlarmClock.ToggleAlarm onsuccess (id Examples.workingDays))
           DBFacts.codeUnitCompare_consistent).
  - simpl. apply NoDup_cons. split; [|apply NoDup_singleton].
    intros Hin. apply list_elem_of_singleton in Hin. vm_compute in Hin. discriminate.
  - simpl. repeat constructor. by vm_compute.
Defined.

(** Monday and Tuesday, 07:00. *)
Lemma monday_tuesday_same_minute :
  AlarmClock.getHours Examples.monday0700 = AlarmClock.getHours (AlarmClock.mkDate 7 0 2)
  ∧ AlarmClock.getMinutes Examples.monday0700
    = AlarmClock.getMinutes (AlarmClock.mkDate 7 0 2).
Proof.
  apply (AlarmListFacts.currentTime_injective Examples.monday0700 (AlarmClock.mkDate 7 0 2));
    simpl; (lia || reflexivity).
Defined.

(** Monday 07:00 with the one-shot alarm and the working-days alarm. *)
Lemma oneShot_then_workingDays :
  AlarmClock.ringingAlarm
    (AlarmClock.checkAlarms Examples.monday0700 onsuccess Scenarios.twoAlarmsState)
  = Some Examples.oneShot
  ∧ AlarmClock.ringingAlarm
      (AlarmClock.checkAlarms Examples.monday0700 onsuccess
         (AlarmClock.stopRinging
            (AlarmClock.checkAlarms Examples.monday0700 onsuccess Scenarios.twoAlarmsState)))
    = Some Examples.workingDays.
Proof.
  apply (AlarmListFacts.second_alarm_rings_after_dismissal Examples.monday0700
           onsuccess onsuccess Scenarios.twoAlarmsState
           [] Examples.oneShot [] Examples.workingDays []);
    try reflexivity; try constructor.
  simpl. discriminate.
Defined.


(** The request for an analysis that carries no audio. *)
Lemma request_without_audio_rejected :
  Gateway.handler (H := Scenarios.answering)
    (Gateway.HandlerEvent.mk "POST" (Some (JSON_stringify Scenarios.requestWithoutAudio)))
  = Gateway.HandlerResponse.mk 500 []
      (JSON_stringify (JObj [("error", JStr "Missing audio data or duration.")])).
Proof.
  eapply (GatewayMoreFacts.handler_rejects_incomplete_audio_request
            (H := Scenarios.answering)
            (Some (JSON_stringify Scenarios.requestWithoutAudio))).
  - vm_compute. reflexivity.
  - reflexivity.
  - reflexivity.
  - reflexivity.
  - reflexivity.
  - left. reflexivity.
Defined.

(** The request for health suggestions is answered with status 200. *)
Lemma suggestions_request_answered :
  ∃ fields op payload answer,
    Gateway.JSON_parse (Runtime := Scenarios.answering)
      (JSON_stringify Scenarios.suggestionsRequest) = inr (JObj fields)
    ∧ field "type" fields = Some (JStr (GatewayNames.operationName op))
    ∧ field "payload" fields = Some payload
    ∧ Gateway.generateContent (Runtime := Scenarios.answering) op payload = inr answer.
Proof.
  destruct (GatewayMoreFacts.handler_200_needs_model (H := Scenarios.answering)
              (Gateway.HandlerEvent.mk "POST"
                 (Some (JSON_stringify Scenarios.suggestionsRequest)))
              ltac:(vm_compute; reflexivity)) as [_ Hreq].
  exact Hreq.
Defined.

(** The session with one chunk is stopped and the gateway answers. *)
Lemma oneChunk_session_saved :
  ∃ result text,
    Api.analyzeSleepAudio (SleepTracker.analysisFetched Examples.stopEnv) = inr result
    ∧ Api.getHealthSuggestions (SleepTracker.suggestionsFetched Examples.stopEnv) = inr text
    ∧ SleepTracker.addOutcome Examples.stopEnv = onsuccess
    ∧ let data :=
        withDate result
          (toISOString (Host := UtcHost.utcHost) (SleepTracker.completedAt Examples.stopEnv)) in
      let s' :=
        SleepTracker.final
          (SleepTracker.handleStopAndAnalyze (H := UtcHost.utcHost) Examples.stopEnv)
          Scenarios.recordingOneChunk in
      SleepTracker.history Scenarios.recordingOneChunk !! date data = None
      ∧ SleepTracker.history s'
        = <[date data := data]> (SleepTracker.history Scenarios.recordingOneChunk)
      ∧ SleepTracker.analysisData s' = Some data
      ∧ SleepTracker.healthSuggestions s' = text
      ∧ SleepTracker.audioURL s' = Some (SleepTracker.objectURL Examples.stopEnv)
      ∧ SleepTracker.audioChunksRef s' ≠ [].
Proof.
  apply (SessionFacts.results_only_if_saved (H := UtcHost.utcHost) Examples.stopEnv
           Scenarios.recordingOneChunk);
    vm_compute; reflexivity.
Defined.

(** The gateway answers the analysis with status 500 and a message. *)
Lemma gatewayDown_message_shown :
  SleepTracker.error_
    (SleepTracker.final (SleepTracker.onloadend (H := UtcHost.utcHost) Examples.gatewayDown)
       Examples.analyzingSession)
  = ["Missing audio data or duration."].
Proof.
  destruct (SessionFacts.gateway_message_shown (H := UtcHost.utcHost)
              Examples.gatewayDown Examples.analyzingSession
              "data:audio/webm;base64,AAAA" Scenarios.missingAudio
              eq_refl eq_refl eq_refl) as (_ & _ & _ & Hmessage & _).
  apply (Hmessage [("error", JStr "Missing audio data or duration.")]
           Examples.analysisResult "Missing audio data or duration.");
    [reflexivity|reflexivity|discriminate].
Defined.

(** A start in a browser without [getUserMedia]. *)
Lemma noMediaDevices_nothing_held :
  SleepTracker.released
    (SleepTracker.handleStartTracking (H := UtcHost.utcHost) Scenarios.noMediaDevices
       (SleepTracker.initial ∅)).
Proof.
  apply (SessionFacts.failed_start_releases (H := UtcHost.utcHost)
           Scenarios.noMediaDevices (SleepTracker.initial ∅)
           (SleepTrackerFacts.controller_invariant_initial ∅) eq_refl).
  vm_compute. reflexivity.
Defined.

Lemma startThrowing_throws : Session.startThrows Scenarios.startThrowing.
Proof.
  split; [reflexivity|]. split; [|split; [reflexivity|by eexists]].
  by eexists _, _, _.
Defined.

(** A start in which [start] throws. *)
Lemma startThrowing_stuck_requesting :
  SleepTracker.status
    (SleepTracker.handleStartTracking (H := UtcHost.utcHost) Scenarios.startThrowing
       (SleepTracker.initial ∅))
  = SleepTracker.requesting.
Proof.
  apply (SessionFacts.start_throws_holds_microphone (H := UtcHost.utcHost)
           Scenarios.startThrowing (SleepTracker.initial ∅) startThrowing_throws).
Defined.

Lemma startEnv_starts : Session.starts Examples.startEnv.
Proof.
  split; [reflexivity|]. split; [|split; reflexivity].
  by eexists _, _, _.
Defined.

(** Three seconds into the example session. *)
Lemma three_seconds_tracked :
  SleepTracker.duration
    (SleepTracker.run (H := UtcHost.utcHost)
       (replicate 3 (SleepTracker.IntervalTick
                       (Z.pos (SleepTracker.intervalId Examples.startEnv))))
       (SleepTracker.handleStartTracking (H := UtcHost.utcHost) Examples.startEnv
          (SleepTracker.initial ∅)))
  = 3%Z.
Proof.
  apply (SessionFacts.duration_counts_ticks (H := UtcHost.utcHost) Examples.startEnv
           (SleepTracker.initial ∅) 3 startEnv_starts).
Defined.

(** The session with one chunk, stopped and reset. *)
Lemma oneChunk_session_url_revoked :
  SleepTracker.objectURLs
    (SleepTracker.resetState
       (SleepTracker.run (H := UtcHost.utcHost)
          (Scenarios.oneChunk ++ [SleepTracker.Stop Examples.stopEnv])
          (SleepTracker.initial ∅)))
  = ∅.
Proof.
  apply (SessionFacts.object_urls_revoked (H := UtcHost.utcHost) ∅
           (Scenarios.oneChunk ++ [SleepTracker.Stop Examples.stopEnv])).
  repeat constructor. simpl. discriminate.
Defined.

(** One hour, two minutes and five seconds. *)
Lemma formatDuration_3725 :
  String.length (TrackerViews.formatDuration 3725) = 8.
Proof.
  apply (TrackerViewsFacts.formatDuration_reads_back 3725). lia.
Defined.

(** The three nights have scores from 0 to 100. *)
Lemma threeNights_score_in_range :
  (0 ≤ Dashboard.avgScore Examples.threeNights ≤ 100)%Z.
Proof.
  apply (DashboardViewsFacts.avgScore_within 0 100 Examples.threeNights).
  - discriminate.
  - repeat constructor; simpl; lia.
Defined.

(** The three nights, seen in the three windows. *)
Lemma threeNights_windows :
  Dashboard.filteredData (H := UtcHost.utcHost) Examples.dashboardOpened
    Examples.threeNights Dashboard.week
  `sublist_of`
  Dashboard.filteredData (H := UtcHost.utcHost) Examples.dashboardOpened
    Examples.threeNights Dashboard.month.
Proof.
  apply (DashboardViewsFacts.filteredData_windows (H := UtcHost.utcHost)
           Examples.dashboardOpened Examples.threeNights);
    simpl; lia.
Defined.

(** The chart of the example history. *)
Lemma historyStore_chart_ascending :
  StronglySorted
    (λ a b, ∃ ta tb, UtcHost.parseISO (DashboardViews.label a) = Some ta
                     ∧ UtcHost.parseISO (DashboardViews.label b) = Some tb ∧ (ta ≤ tb)%Z)
    (DashboardViews.Chart
       (DashboardViews.scoreBars
          (Dashboard.filteredData (H := UtcHost.utcHost) Examples.dashboardOpened
             (sort (byDateDescending (H := UtcHost.utcHost)) (getAll Examples.historyStore))
             Dashboard.week))).
Proof.
  apply (DashboardViewsFacts.chart_oldest_first (H := UtcHost.utcHost)
           Examples.historyStore Examples.dashboardOpened Dashboard.week
           (sort (byDateDescending (H := UtcHost.utcHost)) (getAll Examples.historyStore))).
  - intros key session Hlook. unfold Examples.historyStore in Hlook.
    apply lookup_insert_Some in Hlook as [[_ <-]|[_ Hlook]]; [by eexists|].
    apply lookup_insert_Some in Hlook as [[_ <-]|[_ Hlook]]; [by eexists|].
    by rewrite lookup_empty in Hlook.
  - reflexivity.
Defined.

End MoreInstances.
